(** * GAMER particle pool ([Particle_t], include/Particle.h)

    A shallow embedding of the structure [Particle_t] and of its methods
    [InitVar], [AddOneParticle] and [RemoveOneParticle], followed by the
    properties of the pool that the design document states.

    Conventions of the embedding.
    - [long] and [int] values are integers of [Z].  The counters are never
      wrapped: signed overflow is undefined in C++ and a [long] counter needs
      2^63 calls to overflow.  The one narrowing conversion of the source, the
      cast [(int)ceil(...)] of the resize rule, is modelled with its range,
      and so is the [int] arithmetic of the index macro.
    - [double] values are IEEE-754 binary64 numbers ([spec_float]), and so
      are [real] values; the products, sums and differences of the source
      round to nearest even.
    - A pointer to a buffer is the list of the cells it addresses; the null
      pointer and a block of size zero are both the empty list.  An access
      outside the block is undefined behaviour.
    - A call returns [Done], aborts through [Aux_Error] ([Abort]) or has
      undefined behaviour ([Undef]). *)

From Stdlib Require Import ZArith Lia Bool.
From Stdlib Require Import Floats.SpecFloat.
From stdpp Require Import base option list.

Local Open Scope Z_scope.
Set Default Proof Using "Type".
Set Proof Using Clear Unused.

(** ** Macros of the configuration header *)

Module Macro.

(** [__INT_MAX__] and the null value [NULL_INT]. *)
Definition INT_MAX : Z := 2147483647.
Definition INT_MIN : Z := - 2147483648.
Definition NULL_INT : Z := INT_MAX.

(** Markers of inactive particles: [( -1.0 )] and [( -2.0 )]. *)
Definition PAR_INACTIVE_OUTSIDE : spec_float :=
  S754_finite true 4503599627370496 (-52).
Definition PAR_INACTIVE_MPI : spec_float :=
  S754_finite true 4503599627370496 (-51).

(** Indices of the particle variables in [ParVar]. *)
Definition PAR_MASS : nat := 0.
Definition PAR_POSX : nat := 1.
Definition PAR_POSY : nat := 2.
Definition PAR_POSZ : nat := 3.
Definition PAR_VELX : nat := 4.
Definition PAR_VELY : nat := 5.
Definition PAR_VELZ : nat := 6.
Definition PAR_TIME : nat := 7.
Definition PAR_ACCX : nat := 8.
Definition PAR_ACCY : nat := 9.
Definition PAR_ACCZ : nat := 10.

(** [MAX( a, b )] is [( (a) > (b) ) ? (a) : (b)]. *)
Definition MAX (a b : Z) : Z := if a >? b then a else b.

End Macro.

(** ** The resize rule [(int)ceil( PARLIST_GROWTH_FACTOR*(n+1) )] *)

Module Resize.

(** binary64: 53 bits of precision, exponent of the infinities 1024. *)
Definition prec : Z := 53.
Definition emax : Z := 1024.

(** The literal [1.1] of type [double]: 0x1.199999999999ap+0. *)
Definition PARLIST_GROWTH_FACTOR : spec_float :=
  S754_finite false 4953959590107546 (-52).

(** The defined but unused [PARLIST_REDUCE_FACTOR], the [double] [0.8]:
    0x1.999999999999ap-1. *)
Definition PARLIST_REDUCE_FACTOR : spec_float :=
  S754_finite false 7205759403792794 (-53).

(** Conversion of a [long] to [double] (round to nearest, ties to even). *)
Definition double_of_long (z : Z) : spec_float :=
  binary_normalize prec emax z 0 false.

(** Product of two [double]. *)
Definition double_mul (x y : spec_float) : spec_float :=
  SFmul prec emax x y.

(** [ceil]: the least integer not below a finite [double]; that integer
    is itself a [double].  Infinities and NaN have no integer value. *)
Definition ceil (x : spec_float) : option Z :=
  match x with
  | S754_zero _ => Some 0
  | S754_finite s m e =>
      let v := if s then Z.neg m else Z.pos m in
      Some (if 0 <=? e then v * 2 ^ e else - ((- v) / 2 ^ (- e)))
  | S754_infinity _ | S754_nan => None
  end.

(** The cast [(int)] of an integer-valued [double]: the value when it is
    representable in [int]; the conversion is undefined otherwise. *)
Definition int_of_double (v : option Z) : option Z :=
  match v with
  | Some z => if (Macro.INT_MIN <=? z) && (z <=? Macro.INT_MAX) then Some z else None
  | None => None
  end.

(** [(int)ceil( PARLIST_GROWTH_FACTOR*(n+1) )] for a [long] [n]. *)
Definition grow (n : Z) : option Z :=
  int_of_double (ceil (double_mul PARLIST_GROWTH_FACTOR (double_of_long (n + 1)))).

(** The sizes below [limit] are the ones whose resized value fits [int]:
    [grow 1952257859] is [INT_MAX]. *)
Definition limit : Z := 1952257860.

End Resize.

(** ** The arithmetic of [real] and [double] *)

Module Float.

(** [double] is binary64. *)
Definition double : Type := spec_float.

(** Modelled from the spec: the type [real] is declared in another header.
    It is [double] in a build with [FLOAT8] and [float] otherwise (the
    configuration header chooses [fabs] or [fabsf] on this flag).  A [float]
    converts to [double] without rounding, and the source only copies reals,
    compares them with [double] constants and multiplies them by a
    [double]: a real is the binary64 number it converts to. *)
Definition real : Type := spec_float.

#[export] Instance spec_float_eq_dec : EqDecision spec_float.
Proof. solve_decision. Defined.

(** [x * y], [x + y] and [x - y] on [double]. *)
Definition mul (x y : double) : double := SFmul Resize.prec Resize.emax x y.
Definition add (x y : double) : double := SFadd Resize.prec Resize.emax x y.
Definition sub (x y : double) : double := SFsub Resize.prec Resize.emax x y.

(** [x == y] on [double]: the numbers are compared, whatever mantissa and
    exponent write them; the two zeros are equal, a NaN equals nothing. *)
Definition eqb (x y : double) : bool :=
  match x, y with
  | S754_zero _, S754_zero _ => true
  | S754_infinity sx, S754_infinity sy => Bool.eqb sx sy
  | S754_finite sx mx ex, S754_finite sy my ey =>
      let e := Z.min ex ey in
      Bool.eqb sx sy && (Z.pos mx * 2 ^ (ex - e) =? Z.pos my * 2 ^ (ey - e))
  | _, _ => false
  end.

(** The value of a finite [double] in units of [2^-1074], the least
    positive [double]: every finite binary64 number is a whole number of
    units. *)
Definition units (x : double) : option Z :=
  match x with
  | S754_zero _ => Some 0
  | S754_finite s m e =>
      if -1074 <=? e then Some (cond_Zopp s (Z.pos m) * 2 ^ (e + 1074)) else None
  | S754_infinity _ | S754_nan => None
  end.

(** Neither an infinity nor a NaN. *)
Definition is_finite (x : double) : bool :=
  match x with
  | S754_zero _ | S754_finite _ _ _ => true
  | S754_infinity _ | S754_nan => false
  end.

End Float.

(** ** The pool *)

Module Particle.

(** Modelled from the spec: the enumerations [ParInit_t], [ParInterp_t] and
    [ParInteg_t] are declared in another header.  Their constants
    are the ones the header of [Particle_t] names: three ways to
    initialize, the interpolation schemes NGP, CIC and TSC, the integration
    schemes EULER and KDK, and a NONE value for each.  A C++ enumeration
    can hold a value that is none of its constants, which is what the
    [default] branch of [InitVar] catches. *)
Inductive ParInit_t :=
  PAR_INIT_NONE | PAR_INIT_BY_FUNCTION | PAR_INIT_BY_RESTART | PAR_INIT_BY_FILE.
Inductive ParInterp_t :=
  PAR_INTERP_NONE | PAR_INTERP_NGP | PAR_INTERP_CIC | PAR_INTERP_TSC
| PAR_INTERP_OTHER (code : Z).
Inductive ParInteg_t :=
  PAR_INTEG_NONE | PAR_INTEG_EULER | PAR_INTEG_KDK.

(** The messages of the calls of [Aux_Error]. *)
Inductive Fatal :=
| NPar_AcPlusInac_negative      (* "NPar_AcPlusInac (%ld) < 0 !!" *)
| Interp_NONE                   (* "Interp == NONE !!" *)
| Unsupported_Interp            (* "unsupported particle interpolation scheme !!" *)
| NewVar_NULL                   (* "NewVar == NULL !!", first check *)
| NewPassive_NULL               (* "NewVar == NULL !!", check of NewPassive *)
| AveDens_NULL                  (* "AveDens == NULL !!" *)
| Incorrect_ParID               (* "Incorrect ParID (%ld), NPar_AcPlusInac = %ld !!" *)
| Wrong_ParID                   (* "Wrong ParID (%ld) !!" *)
| Unsupported_Marker            (* "Unsupported Marker (%14.7e) !!" *)
| Count_Mismatch.               (* "NPar_Active (%ld) + NPar_Inactive (%ld) != ..." *)

(** Outcome of a call. *)
Inductive Result (A : Type) :=
| Done (a : A)
| Abort (e : Fatal)
| Undef.
Arguments Done {A} a.
Arguments Abort {A} e.
Arguments Undef {A}.

#[export] Instance Result_ret : MRet Result := fun A a => Done a.
#[export] Instance Result_bind : MBind Result := fun A B k r =>
  match r with
  | Done a => k a
  | Abort e => Abort e
  | Undef => Undef
  end.

(** An access that may leave its block. *)
Definition defined {A} (o : option A) : Result A :=
  match o with
  | Some a => Done a
  | None => Undef
  end.

(** Modelled from the spec: [Aux_Error] is declared in the header and defined
    elsewhere; every violation it reports is fatal, the call does not
    return. *)
Definition Aux_Error {A} (e : Fatal) : Result A := Abort e.

(** [if ( c )  Aux_Error( ... );] *)
Definition check (c : bool) (e : Fatal) : Result unit :=
  if c then Aux_Error e else Done tt.

(** [buf[i]] as an rvalue and [buf[i] = x], for a [long] index. *)
Definition load {A} (buf : list A) (i : Z) : option A :=
  if 0 <=? i then buf !! Z.to_nat i else None.
Definition store {A} (buf : list A) (i : Z) (x : A) : option (list A) :=
  if (0 <=? i) && (i <? Z.of_nat (length buf))
  then Some (<[Z.to_nat i := x]> buf) else None.

(** [realloc( buf, n*sizeof(..) )]: the first [n] cells are kept, the added
    cells hold the indeterminate values [indet].  A negative [n] is a huge
    [size_t]: the allocation fails and returns the null pointer.  Allocation
    of a size that is not negative is taken to succeed. *)
Definition realloc {A} (indet : nat -> A) (buf : list A) (n : Z) : list A :=
  take (Z.to_nat n) buf
  ++ (indet <$> seq (length buf) (Z.to_nat n - length buf)).
Definition malloc {A} (indet : nat -> A) (n : Z) : list A :=
  realloc indet [] n.

(** [for (v ...)  bufs[v][ParID] = New[v];] over the buffers of [bufs]. *)
Fixpoint record (bufs : list (list Float.real)) (ParID : Z) (New : list Float.real)
  : option (list (list Float.real)) :=
  match bufs with
  | [] => Some []
  | b :: bufs' =>
      match New with
      | [] => None
      | x :: New' =>
          b' ← store b ParID x;
          bs' ← record bufs' ParID New';
          Some (b' :: bs')
      end
  end.

(** The data members.  The arrays [ParVar] and [Passive] of the structure
    hold one buffer per variable.  [Mass], [PosX], ... always point to the
    buffers [ParVar[PAR_MASS]], [ParVar[PAR_POSX]], ...: the methods
    reassign them whenever [ParVar] changes, so they are the projections
    below and not fields of their own. *)
Record Particle_t := {
  ParListSize : Z;
  InactiveParListSize : Z;
  NPar_Active_AllRank : Z;
  NPar_AcPlusInac : Z;
  NPar_Active : Z;
  NPar_Inactive : Z;
  NPar_Lv : list Z;
  Init : ParInit_t;
  Interp : ParInterp_t;
  Integ : ParInteg_t;
  SyncDump : bool;
  ImproveAcc : bool;
  PredictPos : bool;
  RemoveCell : Float.double;
  GhostSize : Z;
  ParVar : list (list Float.real);
  Passive : list (list Float.real);
  InactiveParList : list Z
}.

Definition attribute (v : nat) (p : Particle_t) : list Float.real :=
  default [] (ParVar p !! v).
Definition Mass := attribute Macro.PAR_MASS.
Definition PosX := attribute Macro.PAR_POSX.
Definition PosY := attribute Macro.PAR_POSY.
Definition PosZ := attribute Macro.PAR_POSZ.
Definition VelX := attribute Macro.PAR_VELX.
Definition VelY := attribute Macro.PAR_VELY.
Definition VelZ := attribute Macro.PAR_VELZ.
Definition Time := attribute Macro.PAR_TIME.
Definition AccX := attribute Macro.PAR_ACCX.
Definition AccY := attribute Macro.PAR_ACCY.
Definition AccZ := attribute Macro.PAR_ACCZ.

(** Assignment to a member: [set_F x p] is the pool after [F = x;]. *)
Definition set_ParListSize (x : Z) (p : Particle_t) : Particle_t :=
  {| ParListSize := x; InactiveParListSize := InactiveParListSize p;
     NPar_Active_AllRank := NPar_Active_AllRank p;
     NPar_AcPlusInac := NPar_AcPlusInac p; NPar_Active := NPar_Active p;
     NPar_Inactive := NPar_Inactive p; NPar_Lv := NPar_Lv p; Init := Init p;
     Interp := Interp p; Integ := Integ p; SyncDump := SyncDump p;
     ImproveAcc := ImproveAcc p; PredictPos := PredictPos p;
     RemoveCell := RemoveCell p; GhostSize := GhostSize p;
     ParVar := ParVar p; Passive := Passive p;
     InactiveParList := InactiveParList p |}.
Definition set_InactiveParListSize (x : Z) (p : Particle_t) : Particle_t :=
  {| ParListSize := ParListSize p; InactiveParListSize := x;
     NPar_Active_AllRank := NPar_Active_AllRank p;
     NPar_AcPlusInac := NPar_AcPlusInac p; NPar_Active := NPar_Active p;
     NPar_Inactive := NPar_Inactive p; NPar_Lv := NPar_Lv p; Init := Init p;
     Interp := Interp p; Integ := Integ p; SyncDump := SyncDump p;
     ImproveAcc := ImproveAcc p; PredictPos := PredictPos p;
     RemoveCell := RemoveCell p; GhostSize := GhostSize p;
     ParVar := ParVar p; Passive := Passive p;
     InactiveParList := InactiveParList p |}.
Definition set_NPar_AcPlusInac (x : Z) (p : Particle_t) : Particle_t :=
  {| ParListSize := ParListSize p;
     InactiveParListSize := InactiveParListSize p;
     NPar_Active_AllRank := NPar_Active_AllRank p; NPar_AcPlusInac := x;
     NPar_Active := NPar_Active p; NPar_Inactive := NPar_Inactive p;
     NPar_Lv := NPar_Lv p; Init := Init p; Interp := Interp p;
     Integ := Integ p; SyncDump := SyncDump p; ImproveAcc := ImproveAcc p;
     PredictPos := PredictPos p; RemoveCell := RemoveCell p;
     GhostSize := GhostSize p; ParVar := ParVar p; Passive := Passive p;
     InactiveParList := InactiveParList p |}.
Definition set_NPar_Active (x : Z) (p : Particle_t) : Particle_t :=
  {| ParListSize := ParListSize p;
     InactiveParListSize := InactiveParListSize p;
     NPar_Active_AllRank := NPar_Active_AllRank p;
     NPar_AcPlusInac := NPar_AcPlusInac p; NPar_Active := x;
     NPar_Inactive := NPar_Inactive p; NPar_Lv := NPar_Lv p; Init := Init p;
     Interp := Interp p; Integ := Integ p; SyncDump := SyncDump p;
     ImproveAcc := ImproveAcc p; PredictPos := PredictPos p;
     RemoveCell := RemoveCell p; GhostSize := GhostSize p;
     ParVar := ParVar p; Passive := Passive p;
     InactiveParList := InactiveParList p |}.
Definition set_NPar_Inactive (x : Z) (p : Particle_t) : Particle_t :=
  {| ParListSize := ParListSize p;
     InactiveParListSize := InactiveParListSize p;
     NPar_Active_AllRank := NPar_Active_AllRank p;
     NPar_AcPlusInac := NPar_AcPlusInac p; NPar_Active := NPar_Active p;
     NPar_Inactive := x; NPar_Lv := NPar_Lv p; Init := Init p;
     Interp := Interp p; Integ := Integ p; SyncDump := SyncDump p;
     ImproveAcc := ImproveAcc p; PredictPos := PredictPos p;
     RemoveCell := RemoveCell p; GhostSize := GhostSize p;
     ParVar := ParVar p; Passive := Passive p;
     InactiveParList := InactiveParList p |}.
Definition set_NPar_Lv (x : list Z) (p : Particle_t) : Particle_t :=
  {| ParListSize := ParListSize p;
     InactiveParListSize := InactiveParListSize p;
     NPar_Active_AllRank := NPar_Active_AllRank p;
     NPar_AcPlusInac := NPar_AcPlusInac p; NPar_Active := NPar_Active p;
     NPar_Inactive := NPar_Inactive p; NPar_Lv := x; Init := Init p;
     Interp := Interp p; Integ := Integ p; SyncDump := SyncDump p;
     ImproveAcc := ImproveAcc p; PredictPos := PredictPos p;
     RemoveCell := RemoveCell p; GhostSize := GhostSize p;
     ParVar := ParVar p; Passive := Passive p;
     InactiveParList := InactiveParList p |}.
Definition set_Interp (x : ParInterp_t) (p : Particle_t) : Particle_t :=
  {| ParListSize := ParListSize p;
     InactiveParListSize := InactiveParListSize p;
     NPar_Active_AllRank := NPar_Active_AllRank p;
     NPar_AcPlusInac := NPar_AcPlusInac p; NPar_Active := NPar_Active p;
     NPar_Inactive := NPar_Inactive p; NPar_Lv := NPar_Lv p; Init := Init p;
     Interp := x; Integ := Integ p; SyncDump := SyncDump p;
     ImproveAcc := ImproveAcc p; PredictPos := PredictPos p;
     RemoveCell := RemoveCell p; GhostSize := GhostSize p;
     ParVar := ParVar p; Passive := Passive p;
     InactiveParList := InactiveParList p |}.
Definition set_GhostSize (x : Z) (p : Particle_t) : Particle_t :=
  {| ParListSize := ParListSize p;
     InactiveParListSize := InactiveParListSize p;
     NPar_Active_AllRank := NPar_Active_AllRank p;
     NPar_AcPlusInac := NPar_AcPlusInac p; NPar_Active := NPar_Active p;
     NPar_Inactive := NPar_Inactive p; NPar_Lv := NPar_Lv p; Init := Init p;
     Interp := Interp p; Integ := Integ p; SyncDump := SyncDump p;
     ImproveAcc := ImproveAcc p; PredictPos := PredictPos p;
     RemoveCell := RemoveCell p; GhostSize := x; ParVar := ParVar p;
     Passive := Passive p; InactiveParList := InactiveParList p |}.
Definition set_ParVar (x : list (list Float.real)) (p : Particle_t) : Particle_t :=
  {| ParListSize := ParListSize p;
     InactiveParListSize := InactiveParListSize p;
     NPar_Active_AllRank := NPar_Active_AllRank p;
     NPar_AcPlusInac := NPar_AcPlusInac p; NPar_Active := NPar_Active p;
     NPar_Inactive := NPar_Inactive p; NPar_Lv := NPar_Lv p; Init := Init p;
     Interp := Interp p; Integ := Integ p; SyncDump := SyncDump p;
     ImproveAcc := ImproveAcc p; PredictPos := PredictPos p;
     RemoveCell := RemoveCell p; GhostSize := GhostSize p; ParVar := x;
     Passive := Passive p; InactiveParList := InactiveParList p |}.
Definition set_Passive (x : list (list Float.real)) (p : Particle_t) : Particle_t :=
  {| ParListSize := ParListSize p;
     InactiveParListSize := InactiveParListSize p;
     NPar_Active_AllRank := NPar_Active_AllRank p;
     NPar_AcPlusInac := NPar_AcPlusInac p; NPar_Active := NPar_Active p;
     NPar_Inactive := NPar_Inactive p; NPar_Lv := NPar_Lv p; Init := Init p;
     Interp := Interp p; Integ := Integ p; SyncDump := SyncDump p;
     ImproveAcc := ImproveAcc p; PredictPos := PredictPos p;
     RemoveCell := RemoveCell p; GhostSize := GhostSize p;
     ParVar := ParVar p; Passive := x; InactiveParList := InactiveParList p |}.
Definition set_InactiveParList (x : list Z) (p : Particle_t) : Particle_t :=
  {| ParListSize := ParListSize p;
     InactiveParListSize := InactiveParListSize p;
     NPar_Active_AllRank := NPar_Active_AllRank p;
     NPar_AcPlusInac := NPar_AcPlusInac p; NPar_Active := NPar_Active p;
     NPar_Inactive := NPar_Inactive p; NPar_Lv := NPar_Lv p; Init := Init p;
     Interp := Interp p; Integ := Integ p; SyncDump := SyncDump p;
     ImproveAcc := ImproveAcc p; PredictPos := PredictPos p;
     RemoveCell := RemoveCell p; GhostSize := GhostSize p;
     ParVar := ParVar p; Passive := Passive p; InactiveParList := x |}.

(** Observations of a pool: the sum of [NPar_Lv] over the levels, the cell
    [bufs[v][i]], and the data of the slot [id] in every buffer. *)
Definition total_Lv (p : Particle_t) : Z := foldr Z.add 0 (NPar_Lv p).

Definition cell (bufs : list (list Float.real)) (v : nat) (i : Z) : option Float.real :=
  buf ← bufs !! v; load buf i.

Definition slot (p : Particle_t) (id : Z) : option (list Float.real * list Float.real) :=
  vars ← mapM (fun buf => load buf id) (ParVar p);
  passive ← mapM (fun buf => load buf id) (Passive p);
  Some (vars, passive).

(** The interpolation schemes [InitVar] supports. *)
Definition supported (i : ParInterp_t) : Prop :=
  i = PAR_INTERP_NGP \/ i = PAR_INTERP_CIC \/ i = PAR_INTERP_TSC.

#[export] Instance ParInterp_t_eq_dec : EqDecision ParInterp_t.
Proof. solve_decision. Defined.
#[export] Instance supported_dec (i : ParInterp_t) : Decision (supported i).
Proof. unfold supported. apply _. Defined.

(** A call can proceed when it does not resize, or resizes a size that the
    cast [(int)] of the resize rule does not overflow. *)
Definition may_add (p : Particle_t) : Prop :=
  0 < NPar_Inactive p \/ NPar_AcPlusInac p < ParListSize p
  \/ ParListSize p < Resize.limit.
Definition may_remove (p : Particle_t) : Prop :=
  NPar_Inactive p < InactiveParListSize p \/ InactiveParListSize p < Resize.limit.

#[export] Instance may_add_dec (p : Particle_t) : Decision (may_add p).
Proof. unfold may_add. apply _. Defined.
#[export] Instance may_remove_dec (p : Particle_t) : Decision (may_remove p).
Proof. unfold may_remove. apply _. Defined.

(** A call of a run of the pool.  [dens] tells whether the address of the
    caller's accumulator or the null pointer is passed as [AveDens]. *)
Inductive Call :=
| Add (NewVar NewPassive : option (list Float.real)) (lv : Z) (dens : bool) (_BoxVolume : Float.double)
| Remove (ParID : Z) (Marker : Float.real) (lv : Z) (dens : bool) (_BoxVolume : Float.double).

(** The [Remove] calls of a run that pass [NULL_INT] as level. *)
Definition untracked (c : Call) : Z :=
  match c with
  | Remove _ _ lv _ _ => if bool_decide (lv = Macro.NULL_INT) then 1 else 0
  | Add _ _ _ _ _ => 0
  end.
Definition count_untracked (cs : list Call) : Z :=
  foldr (fun c n => untracked c + n) 0 cs.

(** Whether a call returns, and the value a finished call leaves, seen
    through [f]. *)
Definition finished {A} (r : Result A) : bool :=
  match r with
  | Done _ => true
  | _ => false
  end.

Definition on_done {A B} (f : A -> B) (r : Result A) : option B :=
  match r with
  | Done a => Some (f a)
  | _ => None
  end.

Section Methods.

(** Build configuration: the flags [DEBUG_PARTICLE] and [STORE_PAR_ACC] and
    the constants [NPAR_PASSIVE] and [NLEVEL], which the build defines on
    the command line of the compiler. *)
Variable DEBUG_PARTICLE : bool.
Variable STORE_PAR_ACC : bool.
Variable NPAR_PASSIVE : nat.
Variable NLEVEL : nat.

(** Contents of storage that has not been written yet. *)
Variable indet_real : nat -> Float.real.
Variable indet_long : nat -> Z.

(** Modelled from the spec: [NPAR_VAR] is not defined in the two headers.
    The primary attributes are mass, three positions, three velocities,
    time and, when accelerations are stored, three accelerations; the
    configuration header gives the same count under the name
    [PAR_NVAR]. *)
Definition NPAR_VAR : nat := if STORE_PAR_ACC then 11%nat else 8%nat.

(** [#ifdef DEBUG_PARTICLE  if ( c )  Aux_Error( ... );  #endif] *)
Definition debug_check (c : bool) (e : Fatal) : Result unit :=
  if DEBUG_PARTICLE then check c e else Done tt.

(** The constructor.  It leaves [ParListSize], [InactiveParListSize],
    [NPar_Active], [NPar_Inactive] and [GhostSize] uninitialized. *)
Definition Particle_t_new : Particle_t :=
  {| ParListSize := indet_long 0;
     InactiveParListSize := indet_long 1;
     NPar_Active_AllRank := -1;
     NPar_AcPlusInac := -1;
     NPar_Active := indet_long 2;
     NPar_Inactive := indet_long 3;
     NPar_Lv := replicate NLEVEL 0;
     Init := PAR_INIT_NONE;
     Interp := PAR_INTERP_NONE;
     Integ := PAR_INTEG_NONE;
     SyncDump := true;
     ImproveAcc := true;
     PredictPos := true;
     RemoveCell := S754_finite true 8795213412905779 (-43);
     GhostSize := indet_long 4;
     ParVar := replicate NPAR_VAR [];
     Passive := replicate NPAR_PASSIVE [];
     InactiveParList := [] |}.

(** [InitVar].  Its two checks and the [default] branch are compiled in
    every build.  [ParListSize/100] divides a value that is not negative. *)
Definition InitVar (p : Particle_t) : Result Particle_t :=
  (* check *)
  _ ← check (NPar_AcPlusInac p <? 0) NPar_AcPlusInac_negative;
  _ ← check (match Interp p with PAR_INTERP_NONE => true | _ => false end)
            Interp_NONE;
  (* initialize NPar_Active, NPar_Inactive, ParListSize, and InactiveParListSize *)
  let p := set_NPar_Active (NPar_AcPlusInac p) p in
  let p := set_NPar_Inactive 0 p in
  let p := set_ParListSize (NPar_AcPlusInac p) p in
  let p := set_InactiveParListSize (Macro.MAX 1 (ParListSize p `quot` 100)) p in
  (* set the number of ghost zones for the interpolation scheme *)
  p ← match Interp p with
      | PAR_INTERP_NGP => Done (set_GhostSize 0 p)
      | PAR_INTERP_CIC => Done (set_GhostSize 1 p)
      | PAR_INTERP_TSC => Done (set_GhostSize 1 p)
      | _ => Aux_Error Unsupported_Interp
      end;
  (* allocate arrays *)
  let p := set_ParVar ((fun _ => malloc indet_real (ParListSize p)) <$> ParVar p) p in
  let p := set_Passive ((fun _ => malloc indet_real (ParListSize p)) <$> Passive p) p in
  let p := set_InactiveParList (malloc indet_long (InactiveParListSize p)) p in
  Done p.

(** Step 1 of [AddOneParticle], "determine the target particle ID": the id
    and the pool after the step.  1-1 reuses the id on top of
    [InactiveParList]; 1-2 takes the id [NPar_AcPlusInac], after resizing
    every buffer when [NPar_AcPlusInac >= ParListSize]. *)
Definition AddOneParticle_target (p : Particle_t) : Result (Z * Particle_t) :=
  if NPar_Inactive p >? 0 then
    (* 1-1. reuse an inactive particle ID *)
    ParID ← defined (load (InactiveParList p) (NPar_Inactive p - 1));
    let p := set_NPar_Inactive (NPar_Inactive p - 1) p in
    _ ← debug_check ((ParID <? 0) || (ParID >=? NPar_AcPlusInac p)) Incorrect_ParID;
    Done (ParID, p)
  else
    (* 1-2. add a new particle ID *)
    p ← (if NPar_AcPlusInac p >=? ParListSize p then
           size ← defined (Resize.grow (ParListSize p));
           let p := set_ParListSize size p in
           let p := set_ParVar ((fun buf => realloc indet_real buf (ParListSize p))
                                <$> ParVar p) p in
           let p := set_Passive ((fun buf => realloc indet_real buf (ParListSize p))
                                 <$> Passive p) p in
           Done p
         else Done p);
    let ParID := NPar_AcPlusInac p in
    let p := set_NPar_AcPlusInac (NPar_AcPlusInac p + 1) p in
    Done (ParID, p).

(** [AddOneParticle].  [NewVar], [NewPassive] and [AveDens] are pointers:
    [None] is the null pointer.  The result is the pool and the value that
    [*AveDens] holds after the call. *)
Definition AddOneParticle (p : Particle_t) (NewVar NewPassive : option (list Float.real))
    (lv : Z) (AveDens : option Float.double) (_BoxVolume : Float.double)
  : Result (Particle_t * option Float.double) :=
  (* check *)
  _ ← debug_check (NPar_AcPlusInac p <? 0) NPar_AcPlusInac_negative;
  _ ← debug_check (bool_decide (NewVar = None)) NewVar_NULL;
  _ ← debug_check (bool_decide (0 < NPAR_PASSIVE)%nat && bool_decide (NewPassive = None))
                  NewPassive_NULL;
  _ ← debug_check (bool_decide (AveDens = None)) AveDens_NULL;
  (* 1. determine the target particle ID *)
  '(ParID, p) ← AddOneParticle_target p;
  (* 2. record the data of new particles *)
  vars ← defined (record (ParVar p) ParID (default [] NewVar));
  let p := set_ParVar vars p in
  passive ← defined (record (Passive p) ParID (default [] NewPassive));
  let p := set_Passive passive p in
  mass ← defined (load (Mass p) ParID);
  dens ← defined AveDens;
  let dens := (Float.add dens (Float.mul mass _BoxVolume)) in
  (* 3. update the active particle number *)
  let p := set_NPar_Active (NPar_Active p + 1) p in
  count ← defined (load (NPar_Lv p) lv);
  levels ← defined (store (NPar_Lv p) lv (count + 1));
  let p := set_NPar_Lv levels p in
  Done (p, Some dens).

(** [RemoveOneParticle].  [AveDens] is a pointer, [None] the null pointer;
    the result is the pool and the value that [*AveDens] holds after the
    call ([None] when no accumulator was passed). *)
Definition RemoveOneParticle (p : Particle_t) (ParID : Z) (Marker : Float.real) (lv : Z)
    (AveDens : option Float.double) (_BoxVolume : Float.double)
  : Result (Particle_t * option Float.double) :=
  (* check *)
  _ ← debug_check ((ParID <? 0) || (ParID >=? NPar_AcPlusInac p)) Wrong_ParID;
  _ ← debug_check (negb (Float.eqb Marker Macro.PAR_INACTIVE_OUTSIDE)
                   && negb (Float.eqb Marker Macro.PAR_INACTIVE_MPI))
                  Unsupported_Marker;
  (* 1. allocate enough memory for InactiveParList *)
  p ← (if NPar_Inactive p >=? InactiveParListSize p then
         size ← defined (Resize.grow (InactiveParListSize p));
         let p := set_InactiveParListSize size p in
         let p := set_InactiveParList
                    (realloc indet_long (InactiveParList p) (InactiveParListSize p)) p in
         Done p
       else Done p);
  (* 2. record the particle ID to be removed *)
  ids ← defined (store (InactiveParList p) (NPar_Inactive p) ParID);
  let p := set_InactiveParList ids p in
  (* 3. remove the target particle *)
  dens ← match AveDens with
         | Some dens =>
             mass ← defined (load (Mass p) ParID);
             Done (Some (Float.sub dens (Float.mul mass _BoxVolume)))
         | None => Done None
         end;
  mass_buf ← defined (store (Mass p) ParID Marker);
  let p := set_ParVar (<[Macro.PAR_MASS := mass_buf]> (ParVar p)) p in
  let p := set_NPar_Active (NPar_Active p - 1) p in
  p ← (if bool_decide (lv ≠ Macro.NULL_INT) then
         count ← defined (load (NPar_Lv p) lv);
         levels ← defined (store (NPar_Lv p) lv (count - 1));
         Done (set_NPar_Lv levels p)
       else Done p);
  let p := set_NPar_Inactive (NPar_Inactive p + 1) p in
  _ ← debug_check (bool_decide (NPar_Active p + NPar_Inactive p ≠ NPar_AcPlusInac p))
                  Count_Mismatch;
  Done (p, dens).

(** A run: the calls made one after the other on a pool and on the
    accumulator of the caller. *)
Definition call (c : Call) (s : Particle_t * Float.double) : Result (Particle_t * Float.double) :=
  match c with
  | Add NewVar NewPassive lv dens vol =>
      '(p, d) ← AddOneParticle s.1 NewVar NewPassive lv
                  (if dens then Some s.2 else None) vol;
      Done (p, default s.2 d)
  | Remove ParID Marker lv dens vol =>
      '(p, d) ← RemoveOneParticle s.1 ParID Marker lv
                  (if dens then Some s.2 else None) vol;
      Done (p, default s.2 d)
  end.

Fixpoint run (cs : list Call) (s : Particle_t * Float.double) : Result (Particle_t * Float.double) :=
  match cs with
  | [] => Done s
  | c :: cs' => s' ← call c s; run cs' s'
  end.

(** Consistency of a pool: the arrays of the structure have their declared
    sizes, every buffer has the size the pool records, the counters are in
    range ([ParListSize] "must be >= NPar_AcPlusInac") and the ids on the
    free list denote slots. *)
Record wf (p : Particle_t) : Prop := {
  wf_ParVar : length (ParVar p) = NPAR_VAR;
  wf_Passive : length (Passive p) = NPAR_PASSIVE;
  wf_ParVar_size : Forall (fun buf => Z.of_nat (length buf) = ParListSize p) (ParVar p);
  wf_Passive_size : Forall (fun buf => Z.of_nat (length buf) = ParListSize p) (Passive p);
  wf_list_size : Z.of_nat (length (InactiveParList p)) = InactiveParListSize p;
  wf_Lv : length (NPar_Lv p) = NLEVEL;
  wf_slots : 0 <= NPar_AcPlusInac p <= ParListSize p;
  wf_inactive : 0 <= NPar_Inactive p <= InactiveParListSize p;
  wf_count : NPar_Active p + NPar_Inactive p = NPar_AcPlusInac p;
  wf_ids : Forall (fun id => 0 <= id < NPar_AcPlusInac p)
             (take (Z.to_nat (NPar_Inactive p)) (InactiveParList p))
}.

(** The arguments of a call as the interface asks for them: the data of a
    new particle, a refinement level, one of the two markers. *)
Definition new_data (NewVar NewPassive : list Float.real) : Prop :=
  length NewVar = NPAR_VAR /\ length NewPassive = NPAR_PASSIVE.
Definition level (lv : Z) : Prop := 0 <= lv < Z.of_nat NLEVEL.
Definition marker (Marker : Float.real) : Prop :=
  Float.eqb Marker Macro.PAR_INACTIVE_OUTSIDE = true
  \/ Float.eqb Marker Macro.PAR_INACTIVE_MPI = true.

(** These predicates are decidable. *)
#[export] Instance wf_dec (p : Particle_t) : Decision (wf p).
Proof.
  destruct (decide
    (length (ParVar p) = NPAR_VAR /\ length (Passive p) = NPAR_PASSIVE
     /\ Forall (fun buf => Z.of_nat (length buf) = ParListSize p) (ParVar p)
     /\ Forall (fun buf => Z.of_nat (length buf) = ParListSize p) (Passive p)
     /\ Z.of_nat (length (InactiveParList p)) = InactiveParListSize p
     /\ length (NPar_Lv p) = NLEVEL
     /\ 0 <= NPar_AcPlusInac p <= ParListSize p
     /\ 0 <= NPar_Inactive p <= InactiveParListSize p
     /\ NPar_Active p + NPar_Inactive p = NPar_AcPlusInac p
     /\ Forall (fun id => 0 <= id < NPar_AcPlusInac p)
               (take (Z.to_nat (NPar_Inactive p)) (InactiveParList p))))
    as [H|H].
  - left. destruct H as (? & ? & ? & ? & ? & ? & ? & ? & ? & ?). split; assumption.
  - right. intros [? ? ? ? ? ? ? ? ? ?]. apply H. tauto.
Defined.
#[export] Instance new_data_dec (NewVar NewPassive : list Float.real) :
  Decision (new_data NewVar NewPassive).
Proof. unfold new_data. apply _. Defined.
#[export] Instance level_dec (lv : Z) : Decision (level lv).
Proof. unfold level. apply _. Defined.
#[export] Instance marker_dec (Marker : Float.real) : Decision (marker Marker).
Proof. unfold marker. apply _. Defined.

End Methods.

End Particle.

(** ** A sample build and sample pools *)

Module Sample.
Import Particle.

(** A build without stored accelerations, with one passive attribute and
    three levels; storage that was never written holds -999. *)
Definition STORE_PAR_ACC : bool := false.
Definition NPAR_PASSIVE : nat := 1.
Definition NLEVEL : nat := 3.
Definition indet_long (i : nat) : Z := -999.

(** The double [m * 2^e], and the doubles of the samples. *)
Definition dbl (m e : Z) : Float.double :=
  binary_normalize Resize.prec Resize.emax m e false.
Definition zero : Float.double := dbl 0 0.
Definition half : Float.double := dbl 1 (-1).
Definition one : Float.double := dbl 1 0.
Definition five : Float.double := dbl 5 0.
Definition indet_real (i : nat) : Float.real := dbl (-999) 0.

(** The pool a caller hands to [InitVar] for [n] slots, and the pool
    [InitVar] makes of it. *)
Definition fresh (n : Z) : Particle_t :=
  set_Interp PAR_INTERP_CIC
    (set_NPar_AcPlusInac n (Particle_t_new STORE_PAR_ACC NPAR_PASSIVE NLEVEL indet_long)).
Definition ready (n : Z) : Particle_t :=
  match InitVar indet_real indet_long (fresh n) with
  | Done p => p
  | _ => fresh n
  end.

(** The pool after the calls [cs], in the build with or without
    [DEBUG_PARTICLE]. *)
Definition after (debug : bool) (cs : list Call) (p : Particle_t) : Particle_t :=
  match run debug NPAR_PASSIVE indet_real indet_long cs (p, zero) with
  | Done (p', _) => p'
  | _ => p
  end.

(** A particle of mass [m]: mass, position, velocity, time; one tracer. *)
Definition particle (m : Z) : list Float.real :=
  [dbl m 0; half; dbl 1 (-2); dbl 3 (-2); one; zero; dbl (-1) 0; zero].
Definition tracer : list Float.real := [dbl 3 (-2)].

End Sample.

(** ** Views of a pool and of a run *)

Module View.
Import Particle.

(** The ids waiting for reuse, oldest first:
    [InactiveParList[0 .. NPar_Inactive-1]]. *)
Definition free_list (p : Particle_t) : list Z :=
  take (Z.to_nat (NPar_Inactive p)) (InactiveParList p).

(** The calls of [AddOneParticle] of a run minus its calls of
    [RemoveOneParticle], and the number of the former. *)
Definition net (cs : list Call) : Z :=
  foldr (fun c n => match c with Add _ _ _ _ _ => 1 | Remove _ _ _ _ _ => -1 end + n)
        0 cs.
Definition adds (cs : list Call) : Z :=
  foldr (fun c n => match c with Add _ _ _ _ _ => 1 | Remove _ _ _ _ _ => 0 end + n)
        0 cs.

End View.

(** ** The configuration header: components, flags and indices *)

Module Config.

(** The models [MODEL] selects.  The header names a fourth one, PAR_ONLY,
    and stops with [#error] for it where it sets [FLU_GHOST_SIZE] (and,
    with [GRAVITY], where it sets [GRA_NIN]): no build has it, and the
    branches the header gives it are left out below. *)
Inductive Model := HYDRO | MHD | ELBDM.

Section Build.

(** The options of the makefile the header reads: the model, whether
    [DUAL_ENERGY] is defined, and the number of passive scalars.  The build
    defines [PARTICLE], which the header of [Particle_t] requires, and
    [GRAVITY]. *)
Variable MODEL : Model.
Variable DUAL_ENERGY : bool.
Variable NCOMP_PASSIVE_MAKEFILE : Z.

Definition NCOMP_FLUID : Z :=
  match MODEL with
  | HYDRO => 5
  | MHD => 5
  | ELBDM => 3
  end.
Definition NFLUX_FLUID : Z :=
  match MODEL with
  | HYDRO => NCOMP_FLUID
  | MHD => NCOMP_FLUID
  | ELBDM => 1
  end.

Definition NCOMP_PASSIVE : Z :=
  if match MODEL with HYDRO | MHD => true | _ => false end && DUAL_ENERGY
  then NCOMP_PASSIVE_MAKEFILE + 1
  else NCOMP_PASSIVE_MAKEFILE.
Definition NFLUX_PASSIVE : Z := NCOMP_PASSIVE.

Definition NCOMP_TOTAL : Z := NCOMP_FLUID + NCOMP_PASSIVE.
Definition NFLUX_TOTAL : Z := NFLUX_FLUID + NFLUX_PASSIVE.

(** [( 1 << n )] on [int]; the value is defined for [0 <= n <= 30]. *)
Definition bit (n : Z) : Z := Z.shiftl 1 n.

(** The flags of the main variables, [MODEL == HYDRO]. *)
Definition DENS : Z := 0.
Definition MOMX : Z := 1.
Definition MOMY : Z := 2.
Definition MOMZ : Z := 3.
Definition ENGY : Z := 4.
Definition _DENS : Z := bit DENS.
Definition _MOMX : Z := bit MOMX.
Definition _MOMY : Z := bit MOMY.
Definition _MOMZ : Z := bit MOMZ.
Definition _ENGY : Z := bit ENGY.

(** The flags of the derived variables, [MODEL == HYDRO]. *)
Definition _VELX : Z := bit (NCOMP_TOTAL + 1).
Definition _VELY : Z := bit (NCOMP_TOTAL + 2).
Definition _VELZ : Z := bit (NCOMP_TOTAL + 3).
Definition _PRES : Z := bit (NCOMP_TOTAL + 4).
Definition _TEMP : Z := bit (NCOMP_TOTAL + 5).

(** [_DERIVED]: the header defines it for every model but MHD. *)
Definition _DERIVED : option Z :=
  match MODEL with
  | HYDRO =>
      Some (Z.lor (Z.lor (Z.lor (Z.lor _VELX _VELY) _VELZ) _PRES) _TEMP)
  | MHD => None
  | ELBDM => Some 0
  end.

(** The flags used by all models. *)
Definition _FLUID : Z := bit NCOMP_FLUID - 1.
Definition _PASSIVE : Z := bit NCOMP_TOTAL - 1 - _FLUID.
Definition _TOTAL : Z := bit NCOMP_TOTAL - 1.
Definition _POTE : Z := bit NCOMP_TOTAL.

Definition _FLUX_FLUID : Z := bit NFLUX_FLUID - 1.
Definition _FLUX_PASSIVE : Z := bit NFLUX_TOTAL - 1 - _FLUX_FLUID.
Definition _FLUX_TOTAL : Z := bit NFLUX_TOTAL - 1.

(** The flags for particles. *)
Definition _PAR_DENS : Z := bit (NCOMP_TOTAL + 6).
Definition _TOTAL_DENS : Z := bit (NCOMP_TOTAL + 7).

End Build.

(** The value of an [int] expression: a result outside the range of [int]
    is undefined. *)
Definition int (x : Z) : option Z :=
  if (Macro.INT_MIN <=? x) && (x <=? Macro.INT_MAX) then Some x else None.

(** [IDX321( i, j, k, Ni, Nj )], "3D to 1D array indices transformation",
    [( ( (k)*(Nj) + (j) )*(Ni) + (i) )] on arguments of type [int]. *)
Definition IDX321 (i j k Ni Nj : Z) : option Z :=
  kNj ← int (k * Nj);
  row ← int (kNj + j);
  rows ← int (row * Ni);
  int (rows + i).

(** Flags that share no bit, two by two. *)
Fixpoint disjoint (flags : list Z) : bool :=
  match flags with
  | [] => true
  | f :: flags' => forallb (fun g => Z.land f g =? 0) flags' && disjoint flags'
  end.

End Config.

(** * Properties *)

(** ** The resize rule in binary64

    The rounding of [SpecFloat] shifts the exact product to 53 bits; the
    lemmas below bound the mantissa it returns, and from them the resized
    value. *)

Module ResizeFacts.

Lemma digits2_pos_bounds (p : positive) :
  2 ^ (Z.pos (digits2_pos p) - 1) <= Z.pos p < 2 ^ Z.pos (digits2_pos p).
Proof.
  induction p as [p IH|p IH|]; simpl digits2_pos.
  - rewrite Pos2Z.inj_succ, Z.pow_succ_r by lia.
    replace (Z.succ (Z.pos (digits2_pos p)) - 1) with (Z.succ (Z.pos (digits2_pos p) - 1)) by lia.
    rewrite Z.pow_succ_r by lia. lia.
  - rewrite Pos2Z.inj_succ, Z.pow_succ_r by lia.
    replace (Z.succ (Z.pos (digits2_pos p)) - 1) with (Z.succ (Z.pos (digits2_pos p) - 1)) by lia.
    rewrite Z.pow_succ_r by lia. lia.
  - simpl. lia.
Qed.

Lemma digits2_pos_range (p : positive) (a b : Z) :
  0 <= a -> 2 ^ a <= Z.pos p < 2 ^ b -> a < Z.pos (digits2_pos p) <= b.
Proof.
  intros Ha [Hl Hu]. destruct (digits2_pos_bounds p) as [Hl' Hu'].
  split.
  - apply (Z.pow_lt_mono_r_iff 2); lia.
  - assert (Z.pos (digits2_pos p) - 1 < b); [|lia].
    apply (Z.pow_lt_mono_r_iff 2); try lia.
    destruct (Z.le_gt_cases 0 b) as [?|Hb]; [lia|].
    rewrite (Z.pow_neg_r 2 b) in Hu by lia. lia.
Qed.

Lemma iter_xO_pow (p k : positive) :
  Z.pos (Pos.iter xO p k) = Z.pos p * 2 ^ Z.pos k.
Proof.
  revert p. induction k as [|k IH] using Pos.peano_ind; intros p.
  - simpl. lia.
  - rewrite Pos.iter_succ, Pos2Z.inj_succ, Z.pow_succ_r by lia.
    rewrite Pos2Z.inj_xO, IH. lia.
Qed.

Lemma shr_1_m (mrs : shr_record) :
  0 <= shr_m mrs -> shr_m (shr_1 mrs) = shr_m mrs / 2.
Proof.
  destruct mrs as [m r s]; simpl. intros Hm.
  destruct m as [|[q|q|]|q]; simpl; try lia; try reflexivity.
  - apply (Z.div_unique _ _ _ 1); lia.
  - apply (Z.div_unique _ _ _ 0); lia.
Qed.

Lemma iter_shr_1_m (k : positive) (mrs : shr_record) :
  0 <= shr_m mrs -> shr_m (SpecFloat.iter_pos shr_1 k mrs) = shr_m mrs / 2 ^ Z.pos k.
Proof.
  revert mrs. induction k as [k IH|k IH|]; intros mrs Hm; simpl SpecFloat.iter_pos.
  - assert (H1 : 0 <= shr_m (shr_1 mrs)).
    { rewrite shr_1_m by assumption. apply Z.div_pos; lia. }
    assert (H2 : 0 <= shr_m (SpecFloat.iter_pos shr_1 k (shr_1 mrs))).
    { rewrite IH by assumption. apply Z.div_pos; lia. }
    rewrite IH, IH, shr_1_m by assumption.
    rewrite !Z.div_div by lia. f_equal.
    replace (Z.pos k~1) with (1 + Z.pos k + Z.pos k) by lia.
    rewrite !Z.pow_add_r by lia. change (2 ^ 1) with 2. lia.
  - assert (H2 : 0 <= shr_m (SpecFloat.iter_pos shr_1 k mrs)).
    { rewrite IH by assumption. apply Z.div_pos; lia. }
    rewrite IH, IH by assumption.
    rewrite !Z.div_div by lia. f_equal.
    replace (Z.pos k~0) with (Z.pos k + Z.pos k) by lia.
    rewrite !Z.pow_add_r by lia. lia.
  - rewrite shr_1_m by assumption. reflexivity.
Qed.

Lemma round_nearest_even_bounds (m : Z) (l : location) :
  m <= round_nearest_even m l <= m + 1.
Proof.
  destruct l as [|[| |]]; simpl; try lia. destruct (Z.even m); lia.
Qed.

Lemma shr_fexp_exact (m e : Z) (k : positive) :
  0 < m ->
  Z.max (Zdigits2 m + e - 53) (3 - 1024 - 53) - e = Z.pos k ->
  exists mrs, shr_fexp 53 1024 m e loc_Exact = (mrs, e + Z.pos k)
              /\ shr_m mrs = m / 2 ^ Z.pos k.
Proof.
  intros Hm Hk. unfold shr_fexp, fexp, emin. rewrite Hk. simpl shr.
  eexists; split; [reflexivity|].
  rewrite iter_shr_1_m; simpl; [reflexivity|lia].
Qed.

Lemma shr_fexp_none (m e : Z) :
  Z.max (Zdigits2 m + e - 53) (3 - 1024 - 53) - e = 0 ->
  shr_fexp 53 1024 m e loc_Exact = ({| shr_m := m; shr_r := false; shr_s := false |}, e).
Proof.
  intros Hk. unfold shr_fexp, fexp, emin. rewrite Hk. reflexivity.
Qed.

Lemma binary_round_aux_normal (P : positive) (e : Z) :
  let D := Z.pos (digits2_pos P) in
  53 < D -> -1074 <= D + e - 53 -> D + e <= 1023 ->
  exists (m : positive) (k : Z),
    binary_round_aux 53 1024 false (Z.pos P) e loc_Exact = S754_finite false m (e + k)
    /\ D - 53 <= k <= D - 52
    /\ Z.pos P / 2 ^ k <= Z.pos m
    /\ Z.pos m * 2 ^ k <= Z.pos P + 2 ^ (D - 53).
Proof.
  intros D HD Hlo Hhi.
  destruct (digits2_pos_bounds P) as [HPl HPu]. fold D in HPl, HPu.
  assert (Hs : exists s : positive, D - 53 = Z.pos s).
  { destruct (D - 53) as [|s|s] eqn:E; try lia. now exists s. }
  destruct Hs as [s Hs].
  destruct (shr_fexp_exact (Z.pos P) e s) as (mrs & Hshr & Hm1); [lia| |].
  { simpl Zdigits2. fold D. lia. }
  unfold binary_round_aux. rewrite Hshr.
  set (m2 := round_nearest_even (shr_m mrs) (loc_of_shr_record mrs)).
  assert (Hpow : 2 ^ D = 2 ^ 53 * 2 ^ Z.pos s).
  { rewrite <- Z.pow_add_r by lia. f_equal. lia. }
  assert (Hpow' : 2 ^ (D - 1) = 2 ^ 52 * 2 ^ Z.pos s).
  { rewrite <- Z.pow_add_r by lia. f_equal. lia. }
  assert (H2s : 0 < 2 ^ Z.pos s) by (apply Z.pow_pos_nonneg; lia).
  assert (Hm1l : 2 ^ 52 <= shr_m mrs).
  { rewrite Hm1. apply Z.div_le_lower_bound; lia. }
  assert (Hm1u : shr_m mrs < 2 ^ 53).
  { rewrite Hm1. apply Z.div_lt_upper_bound; lia. }
  assert (Hm1P : shr_m mrs * 2 ^ Z.pos s <= Z.pos P).
  { rewrite Hm1. rewrite Z.mul_comm. apply Z.mul_div_le. lia. }
  pose proof (round_nearest_even_bounds (shr_m mrs) (loc_of_shr_record mrs)) as Hr.
  fold m2 in Hr.
  assert (Hp2 : exists p2, m2 = Z.pos p2).
  { destruct m2 as [|p2|p2]; try lia. now exists p2. }
  destruct Hp2 as [p2 Hp2]. rewrite Hp2 in *. clearbody m2.
  assert (HD2 : 52 < Z.pos (digits2_pos p2) <= 54).
  { apply digits2_pos_range; [lia|]. split; [lia|]. change (2 ^ 54) with (2 * 2 ^ 53). lia. }
  destruct (Z.eq_dec (Z.pos (digits2_pos p2)) 53) as [E53|E53].
  - rewrite shr_fexp_none by (simpl Zdigits2; lia). simpl shr_m.
    replace (e + Z.pos s <=? 1024 - 53) with true by (symmetry; apply Z.leb_le; lia).
    exists p2, (Z.pos s). split; [reflexivity|]. split; [lia|]. split.
    + rewrite <- Hm1. lia.
    + rewrite Hs. nia.
  - destruct (shr_fexp_exact (Z.pos p2) (e + Z.pos s) 1) as (mrs2 & Hshr2 & Hm3); [lia| |].
    { simpl Zdigits2. lia. }
    rewrite Hshr2, Hm3. change (2 ^ 1) with 2.
    assert (Hm3l : 2 ^ 51 <= Z.pos p2 / 2).
    { apply Z.div_le_lower_bound; [lia|]. change (2 * 2 ^ 51) with (2 ^ 52). lia. }
    destruct (Z.pos p2 / 2) as [|p3|p3] eqn:E3; try lia.
    replace (e + Z.pos s + 1 <=? 1024 - 53) with true by (symmetry; apply Z.leb_le; lia).
    exists p3, (Z.pos s + 1). replace (e + (Z.pos s + 1)) with (e + Z.pos s + 1) by lia.
    split; [reflexivity|]. split; [lia|]. split.
    + rewrite <- E3, Z.pow_add_r by lia. change (2 ^ 1) with 2.
      rewrite <- Z.div_div, <- Hm1 by lia.
      apply Z.div_le_mono; lia.
    + rewrite Z.pow_add_r by lia. change (2 ^ 1) with 2. rewrite Hs.
      assert (Z.pos p3 * 2 <= Z.pos p2).
      { rewrite <- E3, Z.mul_comm. apply Z.mul_div_le. lia. }
      nia.
Qed.

Lemma double_of_long_pos (x : positive) :
  let d := Z.pos (digits2_pos x) in
  d < 53 ->
  exists mx : positive,
    Resize.double_of_long (Z.pos x) = S754_finite false mx (d - 53)
    /\ Z.pos mx = Z.pos x * 2 ^ (53 - d).
Proof.
  intros d Hd.
  destruct (digits2_pos_bounds x) as [Hl Hu]. fold d in Hl, Hu.
  assert (Hk : exists k : positive, d - 53 = Z.neg k).
  { destruct (d - 53) as [|k|k] eqn:E; try lia. now exists k. }
  destruct Hk as [k Hk].
  unfold Resize.double_of_long, binary_normalize, binary_round, shl_align, fexp, emin,
    Resize.prec, Resize.emax.
  fold d.
  replace (Z.max (d + 0 - 53) (3 - 1024 - 53)) with (d - 53) by lia.
  replace (d - 53 - 0) with (Z.neg k) by lia.
  set (mx := Pos.iter xO x k).
  assert (Hmx : Z.pos mx = Z.pos x * 2 ^ (53 - d)).
  { unfold mx. rewrite iter_xO_pow. f_equal. f_equal. lia. }
  assert (Hp : 2 ^ 53 = 2 ^ d * 2 ^ (53 - d)).
  { rewrite <- Z.pow_add_r by lia. f_equal. lia. }
  assert (Hp' : 2 ^ 52 = 2 ^ (d - 1) * 2 ^ (53 - d)).
  { rewrite <- Z.pow_add_r by lia. f_equal. lia. }
  assert (H2 : 0 < 2 ^ (53 - d)) by (apply Z.pow_pos_nonneg; lia).
  assert (HD : 52 < Z.pos (digits2_pos mx) <= 53).
  { apply digits2_pos_range; [lia|]. rewrite Hmx. nia. }
  exists mx. split; [|exact Hmx].
  unfold binary_round_aux.
  rewrite shr_fexp_none by (simpl Zdigits2; lia).
  simpl shr_m. simpl loc_of_shr_record. simpl round_nearest_even.
  rewrite shr_fexp_none by (simpl Zdigits2; lia).
  simpl shr_m.
  replace (d - 53 <=? 1024 - 53) with true by (symmetry; apply Z.leb_le; lia).
  reflexivity.
Qed.

Lemma grow_bounds (n : Z) :
  0 <= n < Resize.limit ->
  exists n', Resize.grow n = Some n' /\ n + 2 <= n' <= Macro.INT_MAX.
Proof.
  unfold Resize.limit. intros Hn.
  destruct (n + 1) as [|x|x] eqn:Ex; try lia.
  unfold Resize.grow. rewrite Ex.
  destruct (digits2_pos_bounds x) as [Hxl Hxu].
  set (d := Z.pos (digits2_pos x)) in *.
  assert (Hd : 0 < d <= 31).
  { split; [unfold d; lia|].
    apply (digits2_pos_range x 0 31); [lia|]. change (2 ^ 31) with 2147483648. lia. }
  destruct (double_of_long_pos x) as (mx & Hdl & Hmx); [fold d; lia|]. fold d in Hdl, Hmx.
  rewrite Hdl. unfold Resize.double_mul, Resize.PARLIST_GROWTH_FACTOR, SFmul, Resize.prec, Resize.emax. simpl xorb.
  set (M := 4953959590107546%positive).
  assert (H2 : 0 < 2 ^ (53 - d)) by (apply Z.pow_pos_nonneg; lia).
  assert (Hp : 2 ^ 53 = 2 ^ d * 2 ^ (53 - d)).
  { rewrite <- Z.pow_add_r by lia. f_equal. lia. }
  assert (Hp' : 2 ^ 52 = 2 ^ (d - 1) * 2 ^ (53 - d)).
  { rewrite <- Z.pow_add_r by lia. f_equal. lia. }
  assert (HMl : 2 ^ 52 <= Z.pos M) by (unfold M; change (2 ^ 52) with 4503599627370496; lia).
  assert (HMu : Z.pos M < 2 ^ 53) by (unfold M; change (2 ^ 53) with 9007199254740992; lia).
  assert (HP : Z.pos (M * mx) = Z.pos M * Z.pos mx) by reflexivity.
  assert (HD : 104 < Z.pos (digits2_pos (M * mx)) <= 106).
  { apply digits2_pos_range; [lia|]. rewrite HP, Hmx.
    change (2 ^ 104) with (2 ^ 52 * 2 ^ 52). change (2 ^ 106) with (2 ^ 53 * 2 ^ 53).
    assert (2 ^ 52 <= Z.pos x * 2 ^ (53 - d) < 2 ^ 53) by nia.
    nia. }
  destruct (binary_round_aux_normal (M * mx) (-52 + (d - 53))) as (m & k & Hr & Hk & Hlo & Hhi);
    try lia.
  rewrite Hr. unfold Resize.ceil, Resize.int_of_double.
  set (D := Z.pos (digits2_pos (M * mx))) in *.
  replace (0 <=? -52 + (d - 53) + k) with false by (symmetry; apply Z.leb_gt; lia).
  set (j := - (-52 + (d - 53) + k)).
  assert (Hj : 0 < j) by (unfold j; lia).
  assert (H2j : 0 < 2 ^ j) by (apply Z.pow_pos_nonneg; lia).
  assert (H2k : 0 < 2 ^ k) by (apply Z.pow_pos_nonneg; lia).
  assert (Hjk : 2 ^ j * 2 ^ k = 2 ^ 52 * 2 ^ (53 - d)).
  { rewrite <- !Z.pow_add_r by lia. f_equal. unfold j. lia. }
  (* lower bound *)
  assert (Hlow : (n + 1) * 2 ^ j + 1 <= Z.pos m).
  { rewrite Ex. etransitivity; [|exact Hlo].
    apply Z.div_le_lower_bound; [lia|]. rewrite HP, Hmx.
    assert (H2k' : 2 ^ k <= 2 ^ 54) by (apply Z.pow_le_mono_r; lia).
    assert (HX : 2 ^ 52 <= Z.pos x * 2 ^ (53 - d)) by nia.
    assert (Hdelta : 2 ^ 54 <= (Z.pos M - 2 ^ 52) * 2 ^ 52).
    { unfold M. change (2 ^ 54) with (4 * 2 ^ 52). change (2 ^ 52) with 4503599627370496. lia. }
    assert (0 <= Z.pos M - 2 ^ 52) by lia.
    nia. }
  (* upper bound *)
  assert (Hupp : Z.pos m <= Macro.INT_MAX * 2 ^ j).
  { assert (H2D : 2 ^ (D - 53) <= 2 ^ 53) by (apply Z.pow_le_mono_r; lia).
    assert (Hx2 : 2 ^ d <= 2 * Z.pos x).
    { replace d with (Z.succ (d - 1)) by lia. rewrite Z.pow_succ_r by lia. lia. }
    assert (Hmain : Z.pos M * Z.pos x + 2 ^ d <= Macro.INT_MAX * 2 ^ 52).
    { unfold Macro.INT_MAX, M. change (2 ^ 52) with 4503599627370496. lia. }
    assert (Z.pos m * 2 ^ k <= Macro.INT_MAX * 2 ^ j * 2 ^ k); [|nia].
    etransitivity; [exact Hhi|].
    rewrite <- Z.mul_assoc, Hjk, HP, Hmx. nia. }
  set (c := - (- Z.pos m / 2 ^ j)).
  assert (Hc : n + 2 <= c <= Macro.INT_MAX).
  { unfold c. split.
    - assert (- Z.pos m / 2 ^ j < - (n + 1)); [|lia].
      apply Z.div_lt_upper_bound; [lia|]. lia.
    - assert (- Macro.INT_MAX <= - Z.pos m / 2 ^ j); [|lia].
      apply Z.div_le_lower_bound; [lia|]. lia. }
  exists c. fold j. fold c.
  replace ((Macro.INT_MIN <=? c) && (c <=? Macro.INT_MAX)) with true.
  - split; [reflexivity|lia].
  - symmetry. apply andb_true_iff. split; apply Z.leb_le; unfold Macro.INT_MIN; lia.
Qed.

(** Values of the rule: [ceil( 1.1*50 )] is 56 in binary64, where the
    product is 55.00000000000001. *)
Example grow_0 : Resize.grow 0 = Some 2.
Proof. reflexivity. Qed.
Example grow_1 : Resize.grow 1 = Some 3.
Proof. vm_compute. reflexivity. Qed.
Example grow_49 : Resize.grow 49 = Some 56.
Proof. vm_compute. reflexivity. Qed.
Example grow_100 : Resize.grow 100 = Some 112.
Proof. vm_compute. reflexivity. Qed.
Example grow_last : Resize.grow 1952257859 = Some 2147483647.
Proof. vm_compute. reflexivity. Qed.
Example grow_undefined : Resize.grow Resize.limit = None.
Proof. vm_compute. reflexivity. Qed.


(** The rounding of a product or of a large integer, without a bound on
    the exponent: the result overflows to infinity or is a normal number
    whose mantissa is the exact one, shifted and rounded up by at most
    one. *)
Lemma binary_round_aux_rounds (P : positive) (e : Z) :
  let D := Z.pos (digits2_pos P) in
  53 < D -> -1074 <= D + e - 53 ->
  binary_round_aux 53 1024 false (Z.pos P) e loc_Exact = S754_infinity false
  \/ exists (m : positive) (k : Z),
       binary_round_aux 53 1024 false (Z.pos P) e loc_Exact = S754_finite false m (e + k)
       /\ D - 53 <= k <= D - 52
       /\ Z.pos P / 2 ^ k <= Z.pos m
       /\ Z.pos m * 2 ^ k <= Z.pos P + 2 ^ (D - 53)
       /\ 2 ^ 52 <= Z.pos m < 2 ^ 53.
Proof.
  intros D HD Hlo.
  destruct (digits2_pos_bounds P) as [HPl HPu]. fold D in HPl, HPu.
  assert (Hs : exists s : positive, D - 53 = Z.pos s).
  { destruct (D - 53) as [|s|s] eqn:E; try lia. now exists s. }
  destruct Hs as [s Hs].
  destruct (shr_fexp_exact (Z.pos P) e s) as (mrs & Hshr & Hm1); [lia| |].
  { simpl Zdigits2. fold D. lia. }
  unfold binary_round_aux. rewrite Hshr.
  set (m2 := round_nearest_even (shr_m mrs) (loc_of_shr_record mrs)).
  assert (Hpow : 2 ^ D = 2 ^ 53 * 2 ^ Z.pos s).
  { rewrite <- Z.pow_add_r by lia. f_equal. lia. }
  assert (Hpow' : 2 ^ (D - 1) = 2 ^ 52 * 2 ^ Z.pos s).
  { rewrite <- Z.pow_add_r by lia. f_equal. lia. }
  assert (H2s : 0 < 2 ^ Z.pos s) by (apply Z.pow_pos_nonneg; lia).
  assert (Hm1l : 2 ^ 52 <= shr_m mrs).
  { rewrite Hm1. apply Z.div_le_lower_bound; lia. }
  assert (Hm1u : shr_m mrs < 2 ^ 53).
  { rewrite Hm1. apply Z.div_lt_upper_bound; lia. }
  assert (Hm1P : shr_m mrs * 2 ^ Z.pos s <= Z.pos P).
  { rewrite Hm1. rewrite Z.mul_comm. apply Z.mul_div_le. lia. }
  pose proof (round_nearest_even_bounds (shr_m mrs) (loc_of_shr_record mrs)) as Hr.
  fold m2 in Hr.
  assert (Hp2 : exists p2, m2 = Z.pos p2).
  { destruct m2 as [|p2|p2]; try lia. now exists p2. }
  destruct Hp2 as [p2 Hp2]. rewrite Hp2 in *. clearbody m2.
  destruct (digits2_pos_bounds p2) as [Hp2l Hp2u].
  assert (HD2 : 52 < Z.pos (digits2_pos p2) <= 54).
  { apply digits2_pos_range; [lia|]. split; [lia|]. change (2 ^ 54) with (2 * 2 ^ 53). lia. }
  destruct (Z.eq_dec (Z.pos (digits2_pos p2)) 53) as [E53|E53].
  - rewrite shr_fexp_none by (simpl Zdigits2; lia). simpl shr_m.
    destruct (e + Z.pos s <=? 1024 - 53); [right|left; reflexivity].
    exists p2, (Z.pos s). split; [reflexivity|]. split; [lia|]. split; [|split].
    + rewrite <- Hm1. lia.
    + rewrite Hs. nia.
    + rewrite E53 in Hp2l, Hp2u. change (53 - 1) with 52 in Hp2l. lia.
  - destruct (shr_fexp_exact (Z.pos p2) (e + Z.pos s) 1) as (mrs2 & Hshr2 & Hm3); [lia| |].
    { simpl Zdigits2. lia. }
    rewrite Hshr2, Hm3. change (2 ^ 1) with 2.
    assert (E54 : Z.pos (digits2_pos p2) = 54) by lia.
    rewrite E54 in Hp2l. change (54 - 1) with 53 in Hp2l.
    assert (Ep2 : Z.pos p2 = 2 ^ 53) by lia.
    assert (E3 : Z.pos p2 / 2 = 2 ^ 52).
    { rewrite Ep2. change (2 ^ 53) with (2 ^ 52 * 2). apply Z.div_mul. lia. }
    rewrite E3.
    destruct (2 ^ 52) as [|p3|p3] eqn:E52; try discriminate.
    destruct (e + Z.pos s + 1 <=? 1024 - 53); [right|left; reflexivity].
    exists p3, (Z.pos s + 1). replace (e + (Z.pos s + 1)) with (e + Z.pos s + 1) by lia.
    split; [reflexivity|]. split; [lia|].
    rewrite <- E52.
    assert (H2s1 : 2 ^ (Z.pos s + 1) = 2 * 2 ^ Z.pos s).
    { rewrite Z.pow_add_r by lia. change (2 ^ 1) with 2. lia. }
    split; [|split].
    + rewrite H2s1. apply Z.lt_succ_r, Z.div_lt_upper_bound; [lia|].
      change (2 ^ 53) with (2 * 2 ^ 52) in Hpow. lia.
    + rewrite H2s1, Hs. change (2 ^ 53) with (2 * 2 ^ 52) in Ep2. nia.
    + change (2 ^ 53) with (2 * 2 ^ 52). lia.
Qed.

(** The conversion of a positive [long] to [double]: a normal number
    (exact below 2^53) or, beyond the range of [double], infinity. *)
Lemma double_of_long_normal (x : positive) :
  let d := Z.pos (digits2_pos x) in
  Resize.double_of_long (Z.pos x) = S754_infinity false
  \/ exists (mx : positive) (ex : Z),
       Resize.double_of_long (Z.pos x) = S754_finite false mx ex
       /\ 2 ^ 52 <= Z.pos mx < 2 ^ 53
       /\ d - 53 <= ex <= d - 52
       /\ (ex <= 0 -> Z.pos mx = Z.pos x * 2 ^ (- ex))
       /\ (0 < ex -> Z.pos x / 2 ^ ex <= Z.pos mx).
Proof.
  intros d.
  destruct (digits2_pos_bounds x) as [Hl Hu]. fold d in Hl, Hu.
  destruct (Z.lt_trichotomy d 53) as [Hd|[Hd|Hd]].
  - right. destruct (double_of_long_pos x) as (mx & Hdl & Hmx); [exact Hd|].
    fold d in Hdl, Hmx. exists mx, (d - 53). split; [exact Hdl|].
    assert (Hp : 2 ^ 53 = 2 ^ d * 2 ^ (53 - d)).
    { rewrite <- Z.pow_add_r by (unfold d; lia). f_equal. lia. }
    assert (Hp' : 2 ^ 52 = 2 ^ (d - 1) * 2 ^ (53 - d)).
    { rewrite <- Z.pow_add_r by (unfold d; lia). f_equal. lia. }
    assert (H2 : 0 < 2 ^ (53 - d)) by (apply Z.pow_pos_nonneg; lia).
    split; [rewrite Hmx; nia|]. split; [lia|]. split; [|lia].
    intros _. rewrite Hmx. f_equal. f_equal. lia.
  - right. exists x, 0. rewrite Hd in Hl, Hu. change (53 - 1) with 52 in Hl.
    split; [|split; [lia|split; [lia|split; [|lia]]]].
    + assert (Hdl : Resize.double_of_long (Z.pos x)
                    = binary_round_aux 53 1024 false (Z.pos x) 0 loc_Exact).
      { unfold Resize.double_of_long, binary_normalize, binary_round, shl_align, fexp, emin,
          Resize.prec, Resize.emax.
        fold d. rewrite Hd. reflexivity. }
      rewrite Hdl. unfold binary_round_aux.
      rewrite shr_fexp_none by (simpl Zdigits2; fold d; lia).
      simpl shr_m. simpl loc_of_shr_record. simpl round_nearest_even.
      rewrite shr_fexp_none by (simpl Zdigits2; fold d; lia).
      reflexivity.
    + intros _. simpl. lia.
  - assert (Hk : exists k : positive, d - 53 = Z.pos k).
    { destruct (d - 53) as [|k|k] eqn:E; try lia. now exists k. }
    destruct Hk as [k Hk].
    assert (Hdl : Resize.double_of_long (Z.pos x)
                  = binary_round_aux 53 1024 false (Z.pos x) 0 loc_Exact).
    { unfold Resize.double_of_long, binary_normalize, binary_round, shl_align, fexp, emin,
        Resize.prec, Resize.emax.
      fold d.
      replace (Z.max (d + 0 - 53) (3 - 1024 - 53)) with (d - 53) by lia.
      replace (d - 53 - 0) with (Z.pos k) by lia. reflexivity. }
    rewrite Hdl.
    destruct (binary_round_aux_rounds x 0) as [Hinf|(m & k' & Hr & Hk' & Hlo & _ & Hm)];
      fold d; try lia.
    + left. exact Hinf.
    + right. exists m, k'. simpl in Hr. split; [exact Hr|]. split; [exact Hm|].
      split; [lia|]. split; [lia|]. intros _. exact Hlo.
Qed.

(** The product of the growth factor and a normal positive [double]. *)
Lemma mul_growth_factor (mx : positive) (ex : Z) :
  2 ^ 52 <= Z.pos mx < 2 ^ 53 -> -1000 <= ex ->
  let r := Resize.double_mul Resize.PARLIST_GROWTH_FACTOR (S754_finite false mx ex) in
  r = S754_infinity false
  \/ exists (m : positive) (k : Z),
       r = S754_finite false m (ex - 52 + k)
       /\ 52 <= k <= 54
       /\ 4953959590107546 * Z.pos mx / 2 ^ k <= Z.pos m
       /\ Z.pos m * 2 ^ k <= 4953959590107546 * Z.pos mx + 2 ^ 53
       /\ 2 ^ 52 <= Z.pos m < 2 ^ 53.
Proof.
  intros Hmx Hex r. unfold r, Resize.double_mul, Resize.PARLIST_GROWTH_FACTOR, SFmul,
    Resize.prec, Resize.emax. simpl xorb.
  set (M := 4953959590107546%positive).
  assert (HMl : 2 ^ 52 <= Z.pos M) by (unfold M; change (2 ^ 52) with 4503599627370496; lia).
  assert (HMu : Z.pos M < 2 ^ 53) by (unfold M; change (2 ^ 53) with 9007199254740992; lia).
  assert (HP : Z.pos (M * mx) = Z.pos M * Z.pos mx) by reflexivity.
  assert (HD : 104 < Z.pos (digits2_pos (M * mx)) <= 106).
  { apply digits2_pos_range; [lia|]. rewrite HP.
    change (2 ^ 104) with (2 ^ 52 * 2 ^ 52). change (2 ^ 106) with (2 ^ 53 * 2 ^ 53). nia. }
  destruct (binary_round_aux_rounds (M * mx) (-52 + ex))
    as [Hinf|(m & k & Hr & Hk & Hlo & Hhi & Hm)]; try lia.
  - left. exact Hinf.
  - right. exists m, k. replace (ex - 52 + k) with (-52 + ex + k) by lia.
    split; [exact Hr|]. split; [lia|]. rewrite HP in Hlo, Hhi.
    split; [exact Hlo|]. split; [|exact Hm].
    etransitivity; [exact Hhi|]. apply Z.add_le_mono_l, Z.pow_le_mono_r; lia.
Qed.

Lemma ceil_fraction (m : positive) (e : Z) :
  e < 0 ->
  exists c, Resize.ceil (S754_finite false m e) = Some c
            /\ (c - 1) * 2 ^ (- e) < Z.pos m <= c * 2 ^ (- e).
Proof.
  intros He. unfold Resize.ceil.
  replace (0 <=? e) with false by (symmetry; apply Z.leb_gt; exact He).
  eexists. split; [reflexivity|].
  assert (H2 : 0 < 2 ^ (- e)) by (apply Z.pow_pos_nonneg; lia).
  pose proof (Z.div_mod (- Z.pos m) (2 ^ (- e)) ltac:(lia)) as Hdm.
  pose proof (Z.mod_pos_bound (- Z.pos m) (2 ^ (- e)) H2) as Hmod.
  nia.
Qed.

Lemma ceil_integer (m : positive) (e : Z) :
  0 <= e -> Resize.ceil (S754_finite false m e) = Some (Z.pos m * 2 ^ e).
Proof.
  intros He. unfold Resize.ceil.
  replace (0 <=? e) with true by (symmetry; apply Z.leb_le; exact He). reflexivity.
Qed.

(** From [Resize.limit] on the resized value does not fit [int]: the cast
    is undefined, whatever the size. *)
Lemma grow_overflows (n : Z) : Resize.limit <= n -> Resize.grow n = None.
Proof.
  unfold Resize.limit. intros Hn.
  destruct (n + 1) as [|x|x] eqn:Ex; try lia.
  unfold Resize.grow. rewrite Ex.
  destruct (digits2_pos_bounds x) as [Hxl Hxu].
  destruct (double_of_long_normal x) as [->|(mx & ex & -> & Hmx & Hex & Hexact & _)];
    [reflexivity|].
  set (d := Z.pos (digits2_pos x)) in *.
  assert (Hd : 0 < d) by (unfold d; lia).
  destruct (mul_growth_factor mx ex Hmx) as [->|(m & k & -> & Hk & Hlo & _ & Hm)];
    [lia|reflexivity|].
  assert (Hbig : forall c, Macro.INT_MAX < c ->
            Resize.int_of_double (Some c) = None).
  { intros c Hc. unfold Resize.int_of_double.
    replace (c <=? Macro.INT_MAX) with false by (symmetry; apply Z.leb_gt; exact Hc).
    rewrite andb_false_r. reflexivity. }
  assert (H52 : Macro.INT_MAX < 2 ^ 52).
  { unfold Macro.INT_MAX. change (2 ^ 52) with 4503599627370496. lia. }
  destruct (Z.le_gt_cases 0 (ex - 52 + k)) as [He3|He3].
  - rewrite ceil_integer by exact He3. apply Hbig.
    assert (0 < 2 ^ (ex - 52 + k)) by (apply Z.pow_pos_nonneg; lia). nia.
  - destruct (ceil_fraction m (ex - 52 + k) He3) as (c & -> & _ & Hc).
    apply Hbig.
    assert (Hex0 : ex <= 0) by lia.
    specialize (Hexact Hex0).
    set (t := 2 ^ (- ex)) in *.
    set (j := - (ex - 52 + k)) in *.
    assert (Hjk : 2 ^ j * 2 ^ k = 2 ^ 52 * t).
    { unfold t. rewrite <- !Z.pow_add_r by lia. f_equal. unfold j. lia. }
    assert (H2k : 0 < 2 ^ k <= 2 ^ 54).
    { split; [apply Z.pow_pos_nonneg; lia|apply Z.pow_le_mono_r; lia]. }
    assert (H2j : 0 < 2 ^ j) by (apply Z.pow_pos_nonneg; lia).
    assert (Ht : 0 < t) by (apply Z.pow_pos_nonneg; lia).
    (* the exact product exceeds INT_MAX by more than the rounding *)
    assert (HK : Macro.INT_MAX * 2 ^ 52 * t + 2 ^ 54 <= 4953959590107546 * Z.pos mx).
    { rewrite Hexact. fold t.
      destruct (Z.lt_ge_cases (Z.pos x) (2 ^ 31)) as [Hsmall|Hlarge].
      - assert (Hd31 : d <= 31).
        { apply (digits2_pos_range x 0 31); [lia|]. split; [lia|exact Hsmall]. }
        assert (Ht21 : 2 ^ 21 <= t) by (apply Z.pow_le_mono_r; lia).
        assert (HG : 2 ^ 33 <= 4953959590107546 * Z.pos x - Macro.INT_MAX * 2 ^ 52).
        { unfold Macro.INT_MAX. change (2 ^ 33) with 8589934592.
          change (2 ^ 52) with 4503599627370496. lia. }
        change (2 ^ 54) with (2 ^ 33 * 2 ^ 21). nia.
      - assert (HG : 2 ^ 54
                     <= 4953959590107546 * Z.pos x - Macro.INT_MAX * 2 ^ 52).
        { unfold Macro.INT_MAX. change (2 ^ 31) with 2147483648 in Hlarge.
          change (2 ^ 54) with 18014398509481984.
          change (2 ^ 52) with 4503599627370496. lia. }
        nia. }
    assert (Hfloor : 4953959590107546 * Z.pos mx < (Z.pos m + 1) * 2 ^ k).
    { pose proof (Z.div_mod (4953959590107546 * Z.pos mx) (2 ^ k) ltac:(lia)) as Hdm.
      pose proof (Z.mod_pos_bound (4953959590107546 * Z.pos mx) (2 ^ k) ltac:(lia)).
      nia. }
    destruct (Z.le_gt_cases c Macro.INT_MAX) as [Hle|Hgt]; [exfalso|exact Hgt].
    fold j in Hc.
    assert (H1 : Z.pos m <= Macro.INT_MAX * 2 ^ j).
    { apply Z.le_trans with (c * 2 ^ j); [exact Hc|].
      apply Z.mul_le_mono_nonneg_r; lia. }
    assert (H2 : (Z.pos m + 1) * 2 ^ k
                 <= Macro.INT_MAX * (2 ^ j * 2 ^ k) + 2 ^ k).
    { rewrite Z.mul_assoc, Z.mul_add_distr_r, Z.mul_1_l.
      apply Z.add_le_mono_r, Z.mul_le_mono_nonneg_r; lia. }
    rewrite Hjk, Z.mul_assoc in H2. lia.
Qed.

Lemma int_of_double_Some (c s : Z) :
  Resize.int_of_double (Some c) = Some s -> s = c.
Proof.
  unfold Resize.int_of_double.
  destruct ((Macro.INT_MIN <=? c) && (c <=? Macro.INT_MAX)); congruence.
Qed.

Lemma grow_Some_below (n s : Z) : Resize.grow n = Some s -> n < Resize.limit.
Proof.
  intros H. destruct (Z.lt_ge_cases n Resize.limit) as [Hlt|Hge]; [exact Hlt|].
  rewrite (grow_overflows n Hge) in H. discriminate.
Qed.

Lemma grow_rounding (n s : Z) :
  0 <= n -> Resize.grow n = Some s ->
  11 * (n + 1) <= 10 * s <= 11 * (n + 1) + 10.
Proof.
  intros Hn H. pose proof (grow_Some_below n s H) as Hlim.
  unfold Resize.limit in Hlim.
  destruct (n + 1) as [|x|x] eqn:Ex; try lia.
  unfold Resize.grow in H. rewrite Ex in H.
  destruct (double_of_long_normal x) as [E|(mx & ex & E & Hmx & Hex & Hexact & _)];
    rewrite E in H; [discriminate|]. clear E.
  set (d := Z.pos (digits2_pos x)) in *.
  assert (Hx31 : Z.pos x < 2 ^ 31).
  { change (2 ^ 31) with 2147483648. lia. }
  assert (Hd : 0 < d <= 31).
  { split; [unfold d; lia|].
    apply (digits2_pos_range x 0 31); [lia|]. split; [lia|exact Hx31]. }
  assert (Hex0 : ex <= 0) by lia.
  specialize (Hexact Hex0).
  destruct (mul_growth_factor mx ex Hmx) as [E|(m & k & E & Hk & Hlo & Hhi & Hm)];
    [lia|rewrite E in H; discriminate|rewrite E in H; clear E].
  assert (He3 : ex - 52 + k < 0) by lia.
  destruct (ceil_fraction m (ex - 52 + k) He3) as (c & E & Hc1 & Hc2).
  rewrite E in H. apply int_of_double_Some in H. subst s. clear E.
  set (t := 2 ^ (- ex)) in *.
  set (j := - (ex - 52 + k)) in *.
  assert (Hjk : 2 ^ j * 2 ^ k = 2 ^ 52 * t).
  { unfold t. rewrite <- !Z.pow_add_r by lia. f_equal. unfold j. lia. }
  assert (H2k : 0 < 2 ^ k <= 2 ^ 54).
  { split; [apply Z.pow_pos_nonneg; lia|apply Z.pow_le_mono_r; lia]. }
  assert (H2j : 0 < 2 ^ j) by (apply Z.pow_pos_nonneg; lia).
  assert (Ht : 2 ^ 21 <= t) by (apply Z.pow_le_mono_r; lia).
  assert (Hfloor : 4953959590107546 * Z.pos mx < Z.pos m * 2 ^ k + 2 ^ k).
  { pose proof (Z.div_mod (4953959590107546 * Z.pos mx) (2 ^ k) ltac:(lia)) as Hdm.
    pose proof (Z.mod_pos_bound (4953959590107546 * Z.pos mx) (2 ^ k) ltac:(lia)).
    nia. }
  rewrite Hexact in Hfloor, Hhi.
  (* both sides scaled by [2 ^ k] *)
  assert (G1 : Z.pos m * 2 ^ k <= 2 ^ 52 * (c * t)).
  { replace (2 ^ 52 * (c * t)) with (c * 2 ^ j * 2 ^ k)
      by (rewrite <- Z.mul_assoc, Hjk; ring).
    apply Z.mul_le_mono_nonneg_r; lia. }
  assert (G2 : 2 ^ 52 * (c * t) - 2 ^ 52 * t < Z.pos m * 2 ^ k).
  { replace (2 ^ 52 * (c * t) - 2 ^ 52 * t) with ((c - 1) * 2 ^ j * 2 ^ k)
      by (rewrite <- Z.mul_assoc, Hjk; ring).
    apply Z.mul_lt_mono_pos_r; lia. }
  assert (Hxt : 0 < Z.pos x * t <= 2 ^ 31 * t).
  { split; [apply Z.mul_pos_pos; lia|apply Z.mul_le_mono_nonneg_r; lia]. }
  change (2 ^ 21) with 2097152 in Ht.
  change (2 ^ 31) with 2147483648 in Hxt.
  change (2 ^ 52) with 4503599627370496 in G1, G2.
  change (2 ^ 53) with 9007199254740992 in Hhi.
  change (2 ^ 54) with 18014398509481984 in H2k.
  split.
  - destruct (Z.le_gt_cases (11 * Z.pos x) (10 * c)) as [Hok|Hbad]; [exact Hok|exfalso].
    assert (10 * c * t <= (11 * Z.pos x - 1) * t)
      by (apply Z.mul_le_mono_nonneg_r; lia).
    lia.
  - destruct (Z.le_gt_cases (10 * c) (11 * Z.pos x + 10)) as [Hok|Hbad];
      [exact Hok|exfalso].
    assert ((11 * Z.pos x + 11) * t <= 10 * c * t)
      by (apply Z.mul_le_mono_nonneg_r; lia).
    lia.
Qed.

Lemma grow_Some_bounds (n s : Z) :
  0 <= n -> Resize.grow n = Some s -> n + 2 <= s <= Macro.INT_MAX.
Proof.
  intros Hn H. pose proof (grow_Some_below n s H) as Hlim.
  destruct (grow_bounds n) as (s' & E & Hs); [lia|].
  rewrite E in H. injection H as <-. exact Hs.
Qed.

Lemma grow_exact_ceiling (n s : Z) :
  0 <= n -> Resize.grow n = Some s -> (n + 1) mod 10 <> 0 ->
  s = (11 * (n + 1) + 9) / 10.
Proof.
  intros Hn H Hm. pose proof (grow_rounding n s Hn H) as Hr.
  pose proof (Z.div_mod (n + 1) 10 ltac:(lia)) as Hx.
  pose proof (Z.mod_pos_bound (n + 1) 10 ltac:(lia)) as Hxr.
  pose proof (Z.div_mod (11 * (n + 1) + 9) 10 ltac:(lia)) as Hq.
  pose proof (Z.mod_pos_bound (11 * (n + 1) + 9) 10 ltac:(lia)) as Hqr.
  lia.
Qed.

(** X1.  For a size [n >= 0], the resize rule [(int)ceil( 1.1*(n+1) )] has
    no defined value exactly from [n = 1952257860] on: below, the value
    fits [int]; from there on, the binary64 product exceeds [INT_MAX]
    and the cast is undefined. *)
Theorem grow_defined_iff (n : Z) :
  0 <= n -> (Resize.grow n = None <-> Resize.limit <= n).
Proof.
  intros Hn. split.
  - intros H. destruct (Z.lt_ge_cases n Resize.limit) as [Hlt|Hge]; [|exact Hge].
    destruct (grow_bounds n) as (s & E & _); [lia|]. congruence.
  - apply grow_overflows.
Qed.

Lemma grow_defined_iff_witness :
  Resize.grow 1952257859 = None <-> Resize.limit <= 1952257859.
Proof. apply (grow_defined_iff 1952257859). lia. Defined.

(** X2.  The value the resize rule gives in binary64 against the exact
    ceiling of [11*(n+1)/10]: it is never below it and exceeds [1.1*(n+1)]
    by at most one.  So it is the exact ceiling whenever [n+1] is not a
    multiple of 10, and the exact value or one more when it is (the literal
    [1.1] is above 11/10: [grow 49] is 56, not 55). *)
Theorem grow_is_ceiling (n s : Z) :
  0 <= n -> Resize.grow n = Some s ->
  11 * (n + 1) <= 10 * s <= 11 * (n + 1) + 10
  /\ ((n + 1) mod 10 <> 0 -> s = (11 * (n + 1) + 9) / 10)
  /\ ((n + 1) mod 10 = 0 ->
      s = 11 * (n + 1) / 10 \/ s = 11 * (n + 1) / 10 + 1).
Proof.
  intros Hn H. pose proof (grow_rounding n s Hn H) as Hr.
  split; [exact Hr|].
  pose proof (Z.div_mod (n + 1) 10 ltac:(lia)) as Hx.
  pose proof (Z.mod_pos_bound (n + 1) 10 ltac:(lia)) as Hxr.
  split; intros Hm.
  - pose proof (Z.div_mod (11 * (n + 1) + 9) 10 ltac:(lia)) as Hq.
    pose proof (Z.mod_pos_bound (11 * (n + 1) + 9) 10 ltac:(lia)) as Hqr.
    lia.
  - pose proof (Z.div_mod (11 * (n + 1)) 10 ltac:(lia)) as Hq.
    pose proof (Z.mod_pos_bound (11 * (n + 1)) 10 ltac:(lia)) as Hqr.
    lia.
Qed.

Lemma grow_is_ceiling_witness :
  11 * (49 + 1) <= 10 * 56 <= 11 * (49 + 1) + 10
  /\ ((49 + 1) mod 10 <> 0 -> 56 = (11 * (49 + 1) + 9) / 10)
  /\ ((49 + 1) mod 10 = 0 ->
      56 = 11 * (49 + 1) / 10 \/ 56 = 11 * (49 + 1) / 10 + 1).
Proof. apply (grow_is_ceiling 49 56); [lia|vm_compute; reflexivity]. Defined.

(** X3.  The resize rule is strictly increasing on the sizes it is defined
    for: a longer list is never resized to a shorter one. *)
Theorem grow_increasing (n n' s s' : Z) :
  0 <= n < n' -> Resize.grow n = Some s -> Resize.grow n' = Some s' -> s < s'.
Proof.
  intros Hn H H'.
  pose proof (grow_rounding n s ltac:(lia) H).
  pose proof (grow_rounding n' s' ltac:(lia) H'). lia.
Qed.

Lemma grow_increasing_witness : 56 < 57.
Proof.
  apply (grow_increasing 49 50 56 57); [lia|vm_compute; reflexivity..].
Defined.

End ResizeFacts.

(** ** The accumulator in binary64 *)

Module FloatFacts.

(** From [+0.0], adding a finite number and subtracting it again gives
    [+0.0]: the sum is the number itself and the difference is exact. *)
Lemma sub_add_zero (P : Float.double) :
  Float.is_finite P = true ->
  Float.sub (Float.add (S754_zero false) P) P = S754_zero false.
Proof.
  destruct P as [s|s| |s m e]; try discriminate; intros _.
  - destruct s; reflexivity.
  - unfold Float.add, Float.sub. simpl SFadd. unfold SFsub.
    cbv beta iota zeta. rewrite Z.sub_diag. reflexivity.
Qed.

(** [Float.eqb] compares numbers, not the way they are written. *)
Lemma eqb_shift (s : bool) (m : positive) (e : Z) (k : positive) :
  Float.eqb (S754_finite s m e) (S754_finite s (m * 2 ^ k) (e - Z.pos k)) = true.
Proof.
  unfold Float.eqb. rewrite eqb_reflx. simpl andb.
  replace (Z.min e (e - Z.pos k)) with (e - Z.pos k) by lia.
  replace (e - (e - Z.pos k)) with (Z.pos k) by lia.
  rewrite Z.sub_diag, Z.mul_1_r, Pos2Z.inj_mul, Pos2Z.inj_pow.
  apply Z.eqb_refl.
Qed.

(** The sign of a rounded number is the sign it is given. *)
Lemma round_aux_sign (s : bool) (m e : Z) (l : location) :
  binary_round_aux 53 1024 s m e l
  = if s then SFopp (binary_round_aux 53 1024 false m e l)
    else binary_round_aux 53 1024 false m e l.
Proof.
  destruct s; [|reflexivity].
  unfold binary_round_aux.
  destruct (shr_fexp 53 1024 m e l) as [mrs' e'].
  destruct (shr_fexp 53 1024 _ e' loc_Exact) as [mrs'' e''].
  destruct (shr_m mrs''); try reflexivity.
  destruct (e'' <=? 1024 - 53); reflexivity.
Qed.

Lemma shl_align_value (m : positive) (e e' : Z) :
  e' <= e -> Z.pos (shl_align m e e').1 = Z.pos m * 2 ^ (e - e').
Proof.
  intros H. unfold shl_align.
  destruct (e' - e) as [|d|d] eqn:E; try lia.
  - replace (e - e') with 0 by lia. simpl. lia.
  - simpl fst. rewrite ResizeFacts.iter_xO_pow.
    f_equal. f_equal. lia.
Qed.

Lemma shl_align_exponent (m : positive) (e e' : Z) :
  (shl_align m e e').2 = Z.min e e'.
Proof.
  unfold shl_align. destruct (e' - e) as [|d|d] eqn:E; simpl; lia.
Qed.

(** A number that needs no rounding: its mantissa has at most 53 digits at
    an exponent that is the least one, or exactly 53. *)
Lemma round_aux_exact (s : bool) (m : positive) (e : Z) :
  Z.max (Z.pos (digits2_pos m) + e - 53) (-1074) = e ->
  binary_round_aux 53 1024 s (Z.pos m) e loc_Exact
  = if e <=? 971 then S754_finite s m e else S754_infinity s.
Proof.
  intros H. unfold binary_round_aux.
  rewrite ResizeFacts.shr_fexp_none by (simpl Zdigits2; lia).
  simpl shr_m. simpl loc_of_shr_record. simpl round_nearest_even.
  rewrite ResizeFacts.shr_fexp_none by (simpl Zdigits2; lia).
  simpl shr_m. change (1024 - 53) with 971.
  destruct (e <=? 971); reflexivity.
Qed.

(** Rounding [P * 2^e] to [double], for an exponent that is not below the
    least one: the result is infinite, or a number within [2^-52] of its
    size of the exact one. *)
Lemma round_tolerance (s : bool) (P : positive) (e : Z) :
  -1074 <= e ->
  binary_round 53 1024 s P e = S754_infinity s
  \/ exists (m : positive) (e' : Z),
       binary_round 53 1024 s P e = S754_finite s m e'
       /\ -1074 <= e'
       /\ 2 ^ 52 * Z.abs (Z.pos m * 2 ^ (e' + 1074) - Z.pos P * 2 ^ (e + 1074))
          <= Z.pos m * 2 ^ (e' + 1074).
Proof.
  intros He. unfold binary_round, fexp, emin.
  change (3 - 1024 - 53) with (-1074).
  set (D := Z.pos (digits2_pos P)).
  set (f := Z.max (D + e - 53) (-1074)).
  destruct (ResizeFacts.digits2_pos_bounds P) as [HPl HPu]. fold D in HPl, HPu.
  assert (HD : 0 < D) by (unfold D; lia).
  destruct (Z.le_gt_cases f e) as [Hfe|Hfe].
  - (* the mantissa is shifted to the left, or kept *)
    pose proof (shl_align_value P e f Hfe) as Hv.
    pose proof (shl_align_exponent P e f) as Hx.
    destruct (shl_align P e f) as [mz ez]. simpl in Hv, Hx.
    replace (Z.min e f) with f in Hx by lia. subst ez.
    assert (H2 : 0 < 2 ^ (e - f)) by (apply Z.pow_pos_nonneg; lia).
    assert (Hdz : Z.pos (digits2_pos mz) = D + (e - f)).
    { destruct (ResizeFacts.digits2_pos_bounds mz) as [Hl Hu].
      assert (H1 : 2 ^ (D + (e - f) - 1) <= Z.pos mz < 2 ^ (D + (e - f))).
      { rewrite Hv. replace (D + (e - f) - 1) with (D - 1 + (e - f)) by lia.
        rewrite !Z.pow_add_r by lia. nia. }
      pose proof (ResizeFacts.digits2_pos_range mz (D + (e - f) - 1) (D + (e - f))
                    ltac:(lia) H1).
      lia. }
    rewrite round_aux_exact by (rewrite Hdz; unfold f in *; lia).
    destruct (f <=? 971); [right|left; reflexivity].
    exists mz, f. split; [reflexivity|]. split; [unfold f; lia|].
    assert (E : Z.pos mz * 2 ^ (f + 1074) = Z.pos P * 2 ^ (e + 1074)).
    { rewrite Hv, <- Z.mul_assoc, <- Z.pow_add_r by (unfold f; lia).
      f_equal. f_equal. lia. }
    rewrite E, Z.sub_diag. simpl Z.abs. rewrite Z.mul_0_r.
    apply Z.mul_nonneg_nonneg; [lia|]. apply Z.pow_nonneg. lia.
  - (* the mantissa is shifted to the right and rounded *)
    assert (Hf : f = D + e - 53) by (unfold f in *; lia).
    unfold shl_align.
    destruct (f - e) as [|d|d] eqn:E; try lia.
    rewrite round_aux_sign.
    destruct (ResizeFacts.binary_round_aux_rounds P e) as
      [Hr|(m & k & Hr & Hk & Hlo & Hhi & Hm)]; fold D; try lia.
    + left. rewrite Hr. destruct s; reflexivity.
    + right. exists m, (e + k). split; [rewrite Hr; destruct s; reflexivity|].
      split; [lia|]. fold D in Hk, Hhi.
      assert (H2k : 0 < 2 ^ k) by (apply Z.pow_pos_nonneg; lia).
      assert (H2e : 0 < 2 ^ (e + 1074)) by (apply Z.pow_pos_nonneg; lia).
      assert (Hkk : 2 ^ (D - 53) <= 2 ^ k) by (apply Z.pow_le_mono_r; lia).
      assert (Hup : Z.pos P < (Z.pos m + 1) * 2 ^ k).
      { pose proof (Z.mul_succ_div_gt (Z.pos P) (2 ^ k) H2k). nia. }
      replace (e + k + 1074) with (k + (e + 1074)) by lia.
      rewrite Z.pow_add_r, Z.mul_assoc, <- Z.mul_sub_distr_r by lia.
      rewrite Z.abs_mul, (Z.abs_eq (2 ^ (e + 1074))) by lia.
      rewrite Z.mul_assoc. apply Z.mul_le_mono_nonneg_r; [lia|].
      assert (Z.abs (Z.pos m * 2 ^ k - Z.pos P) <= 2 ^ k) by lia.
      nia.
Qed.

(** The same for [binary_normalize], in units of [2^-1074]. *)
Lemma normalize_tolerance (n e : Z) (sz : bool) :
  -1074 <= e ->
  (exists s, binary_normalize 53 1024 n e sz = S754_infinity s)
  \/ exists u,
       Float.units (binary_normalize 53 1024 n e sz) = Some u
       /\ 2 ^ 52 * Z.abs (u - n * 2 ^ (e + 1074)) <= Z.abs u.
Proof.
  intros He. destruct n as [|P|P]; simpl binary_normalize.
  - right. exists 0. split; [reflexivity|]. simpl. lia.
  - destruct (round_tolerance false P e He) as [Hr|(m & e' & Hr & He' & Hb)].
    + left. eexists. exact Hr.
    + right. rewrite Hr. unfold Float.units.
      replace (-1074 <=? e') with true by (symmetry; apply Z.leb_le; lia).
      eexists. split; [reflexivity|]. simpl cond_Zopp.
      assert (0 < 2 ^ (e' + 1074)) by (apply Z.pow_pos_nonneg; lia).
      rewrite (Z.abs_eq (Z.pos m * _)) by lia. exact Hb.
  - destruct (round_tolerance true P e He) as [Hr|(m & e' & Hr & He' & Hb)].
    + left. eexists. exact Hr.
    + right. rewrite Hr. unfold Float.units.
      replace (-1074 <=? e') with true by (symmetry; apply Z.leb_le; lia).
      eexists. split; [reflexivity|]. simpl cond_Zopp.
      assert (0 < 2 ^ (e' + 1074)) by (apply Z.pow_pos_nonneg; lia).
      change (Z.neg m) with (- Z.pos m). change (Z.neg P) with (- Z.pos P).
      rewrite !Z.mul_opp_l.
      set (X := Z.pos m * 2 ^ (e' + 1074)) in *.
      set (Y := Z.pos P * 2 ^ (e + 1074)) in *.
      replace (- X - - Y) with (- (X - Y)) by lia.
      rewrite !Z.abs_opp, (Z.abs_eq X) by lia. exact Hb.
Qed.

Lemma units_finite (s : bool) (m : positive) (e u : Z) :
  Float.units (S754_finite s m e) = Some u ->
  -1074 <= e /\ u = cond_Zopp s (Z.pos m) * 2 ^ (e + 1074).
Proof.
  unfold Float.units. destruct (Z.leb_spec (-1074) e); [|discriminate].
  intros [= <-]. split; [assumption|reflexivity].
Qed.

Lemma aligned_units (s : bool) (m : positive) (e ez : Z) :
  -1074 <= ez <= e ->
  cond_Zopp s (Z.pos (shl_align m e ez).1) * 2 ^ (ez + 1074)
  = cond_Zopp s (Z.pos m) * 2 ^ (e + 1074).
Proof.
  intros H. rewrite shl_align_value by lia.
  replace (e + 1074) with ((e - ez) + (ez + 1074)) by lia.
  rewrite (Z.pow_add_r 2 (e - ez) (ez + 1074)), Z.mul_assoc by lia. f_equal.
  unfold cond_Zopp. destruct s; [rewrite Z.mul_opp_l|]; reflexivity.
Qed.

(** The sum of two finite numbers is infinite or within [2^-52] of its
    size of the exact sum. *)
Lemma add_tolerance (x y : Float.double) (a b : Z) :
  Float.units x = Some a -> Float.units y = Some b ->
  (exists s, Float.add x y = S754_infinity s)
  \/ exists u, Float.units (Float.add x y) = Some u
               /\ 2 ^ 52 * Z.abs (u - (a + b)) <= Z.abs u.
Proof.
  intros Hx Hy. unfold Float.add.
  destruct x as [sx|sx| |sx mx ex]; try discriminate Hx;
    destruct y as [sy|sy| |sy my ey]; try discriminate Hy.
  - injection Hx as <-. injection Hy as <-.
    right. exists 0. split; [destruct sx, sy; reflexivity|]. simpl. lia.
  - injection Hx as <-. right. exists b. split; [exact Hy|].
    replace (b - (0 + b)) with 0 by lia. simpl Z.abs. lia.
  - injection Hy as <-. right. exists a. split; [exact Hx|].
    replace (a - (a + 0)) with 0 by lia. simpl Z.abs. lia.
  - apply units_finite in Hx as [Hex ->]. apply units_finite in Hy as [Hey ->].
    simpl SFadd.
    rewrite <- (aligned_units sx mx ex (Z.min ex ey)) by lia.
    rewrite <- (aligned_units sy my ey (Z.min ex ey)) by lia.
    rewrite <- Z.mul_add_distr_r.
    apply normalize_tolerance. lia.
Qed.

Lemma sub_is_add_opp (x y : Float.double) :
  Float.sub x y = Float.add x (SFopp y).
Proof.
  unfold Float.sub, Float.add.
  destruct x as [sx|sx| |sx mx ex], y as [sy|sy| |sy my ey]; try reflexivity;
    destruct sx, sy; reflexivity.
Qed.

Lemma units_opp (y : Float.double) (b : Z) :
  Float.units y = Some b -> Float.units (SFopp y) = Some (- b).
Proof.
  destruct y as [sy|sy| |sy my ey]; try discriminate; simpl.
  - intros [= <-]. reflexivity.
  - destruct (-1074 <=? ey); [|discriminate].
    intros [= <-]. f_equal. destruct sy; simpl; lia.
Qed.

(** The difference of two finite numbers, likewise. *)
Lemma sub_tolerance (x y : Float.double) (a b : Z) :
  Float.units x = Some a -> Float.units y = Some b ->
  (exists s, Float.sub x y = S754_infinity s)
  \/ exists u, Float.units (Float.sub x y) = Some u
               /\ 2 ^ 52 * Z.abs (u - (a - b)) <= Z.abs u.
Proof.
  intros Hx Hy. rewrite sub_is_add_opp.
  apply (add_tolerance x (SFopp y) a (- b) Hx (units_opp y b Hy)).
Qed.

(** Adding a finite number to a finite number and subtracting it again:
    when the result is finite it is within [2^-52] of the sizes of the sum
    and of the result from the number one began with. *)
Lemma round_trip_tolerance (A P : Float.double) (a p : Z) :
  Float.units A = Some a -> Float.units P = Some p ->
  Float.is_finite (Float.sub (Float.add A P) P) = true ->
  exists a1 a2,
    Float.units (Float.add A P) = Some a1
    /\ Float.units (Float.sub (Float.add A P) P) = Some a2
    /\ 2 ^ 52 * Z.abs (a2 - a) <= Z.abs a1 + Z.abs a2.
Proof.
  intros HA HP Hfin.
  destruct (add_tolerance A P a p HA HP) as [[s Hs]|(a1 & H1 & Hb1)].
  { rewrite Hs in Hfin. destruct P as [sp|sp| |sp mp ep]; discriminate. }
  destruct (sub_tolerance (Float.add A P) P a1 p H1 HP) as [[s Hs]|(a2 & H2 & Hb2)].
  { rewrite Hs in Hfin. discriminate. }
  exists a1, a2. split; [exact H1|]. split; [exact H2|]. lia.
Qed.

End FloatFacts.

(** ** The outcome monad and the memory accesses *)

Module PoolFacts.
Import Particle.

Lemma gtb_true (a b : Z) : b < a -> (a >? b) = true.
Proof. apply Z.gtb_lt. Qed.
Lemma gtb_false (a b : Z) : a <= b -> (a >? b) = false.
Proof. rewrite Z.gtb_ltb. apply Z.ltb_ge. Qed.
Lemma geb_true (a b : Z) : b <= a -> (a >=? b) = true.
Proof. rewrite Z.geb_leb. apply Z.leb_le. Qed.
Lemma geb_false (a b : Z) : a < b -> (a >=? b) = false.
Proof. rewrite Z.geb_leb. apply Z.leb_gt. Qed.

Lemma bind_Done {A B} (r : Result A) (k : A -> Result B) (b : B) :
  r ≫= k = Done b -> exists a, r = Done a /\ k a = Done b.
Proof. destruct r as [a| |]; simpl; intros H; try discriminate. now exists a. Qed.

Lemma bind_Done_l {A B} (a : A) (k : A -> Result B) : Done a ≫= k = k a.
Proof. reflexivity. Qed.

Lemma finished_Done {A} (r : Result A) : finished r = true -> exists a, r = Done a.
Proof. destruct r as [a| |]; simpl; intros H; try discriminate. now exists a. Qed.

Lemma defined_Done {A} (o : option A) (a : A) : defined o = Done a -> o = Some a.
Proof. destruct o; simpl; congruence. Qed.

Lemma check_Done (c : bool) (e : Fatal) (u : unit) : check c e = Done u -> c = false.
Proof. destruct c; simpl; [discriminate|reflexivity]. Qed.

Lemma load_Some {A} (buf : list A) (i : Z) (x : A) :
  load buf i = Some x <-> 0 <= i /\ buf !! Z.to_nat i = Some x.
Proof.
  unfold load. destruct (Z.leb_spec 0 i); [tauto|].
  split; [discriminate|lia].
Qed.

Lemma load_in_range {A} (buf : list A) (i : Z) :
  0 <= i < Z.of_nat (length buf) -> exists x, load buf i = Some x.
Proof.
  intros Hi. destruct (lookup_lt_is_Some_2 buf (Z.to_nat i)) as [x Hx]; [lia|].
  exists x. apply load_Some. split; [lia|exact Hx].
Qed.

Lemma store_Some {A} (buf buf' : list A) (i : Z) (x : A) :
  store buf i x = Some buf' <->
  0 <= i < Z.of_nat (length buf) /\ buf' = <[Z.to_nat i := x]> buf.
Proof.
  unfold store.
  destruct (Z.leb_spec 0 i), (Z.ltb_spec i (Z.of_nat (length buf))); simpl;
    split; try discriminate; try lia; intros; try split; try lia; try congruence.
  - f_equal. symmetry. tauto.
Qed.

Lemma store_in_range {A} (buf : list A) (i : Z) (x : A) :
  0 <= i < Z.of_nat (length buf) -> store buf i x = Some (<[Z.to_nat i := x]> buf).
Proof. intros Hi. apply store_Some. split; [exact Hi|reflexivity]. Qed.

Lemma load_store {A} (buf buf' : list A) (i j : Z) (x : A) :
  store buf i x = Some buf' ->
  load buf' j = if bool_decide (j = i) then Some x else load buf j.
Proof.
  intros [Hi ->]%store_Some. unfold load.
  case_bool_decide as E.
  - subst j. replace (0 <=? i) with true by (symmetry; apply Z.leb_le; lia).
    apply list_lookup_insert_eq. lia.
  - destruct (Z.leb_spec 0 j); [|reflexivity].
    apply list_lookup_insert_ne. lia.
Qed.

Lemma length_realloc {A} (indet : nat -> A) (buf : list A) (n : Z) :
  length (realloc indet buf n) = Z.to_nat n.
Proof.
  unfold realloc. rewrite length_app, length_take, length_fmap, length_seq. lia.
Qed.

Lemma lookup_realloc {A} (indet : nat -> A) (buf : list A) (n : Z) (i : nat) :
  (i < length buf)%nat -> (i < Z.to_nat n)%nat -> realloc indet buf n !! i = buf !! i.
Proof.
  intros Hi Hn. unfold realloc.
  rewrite lookup_app_l by (rewrite length_take; lia).
  apply lookup_take_lt. exact Hn.
Qed.

Lemma load_realloc {A} (indet : nat -> A) (buf : list A) (n i : Z) :
  i < Z.of_nat (length buf) -> i < n -> load (realloc indet buf n) i = load buf i.
Proof.
  intros Hi Hn. unfold load. destruct (Z.leb_spec 0 i); [|reflexivity].
  apply lookup_realloc; lia.
Qed.

Lemma take_realloc {A} (indet : nat -> A) (buf : list A) (n : Z) (k : nat) :
  (k <= length buf)%nat -> (k <= Z.to_nat n)%nat ->
  take k (realloc indet buf n) = take k buf.
Proof.
  intros Hk Hn. unfold realloc.
  rewrite take_app_le by (rewrite length_take; lia).
  rewrite take_take. f_equal. lia.
Qed.

(** ** The loop that records the data of a new particle *)

Lemma record_Some (bufs bufs' : list (list Float.real)) (id : Z) (New : list Float.real) :
  record bufs id New = Some bufs' ->
  bufs' = zip_with (fun buf x => <[Z.to_nat id := x]> buf) bufs New
  /\ (length bufs <= length New)%nat
  /\ Forall (fun buf => 0 <= id < Z.of_nat (length buf)) bufs.
Proof.
  revert bufs' New. induction bufs as [|b bufs IH]; intros bufs' New H; simpl in H.
  - injection H as <-. split; [reflexivity|]. split; [simpl; lia|constructor].
  - destruct New as [|x New]; [discriminate|].
    destruct (store b id x) as [b'|] eqn:Eb; simpl in H; [|discriminate].
    destruct (record bufs id New) as [bs'|] eqn:Er; simpl in H; [|discriminate].
    injection H as <-. apply store_Some in Eb as [Hid ->].
    destruct (IH _ _ Er) as (-> & Hlen & Hall).
    split; [reflexivity|]. split; [simpl; lia|]. constructor; assumption.
Qed.

Lemma record_in_range (bufs : list (list Float.real)) (id : Z) (New : list Float.real) :
  Forall (fun buf => 0 <= id < Z.of_nat (length buf)) bufs ->
  (length bufs <= length New)%nat ->
  record bufs id New = Some (zip_with (fun buf x => <[Z.to_nat id := x]> buf) bufs New).
Proof.
  revert New. induction bufs as [|b bufs IH]; intros New Hall Hlen; simpl.
  - reflexivity.
  - destruct New as [|x New]; [simpl in Hlen; lia|].
    apply Forall_cons in Hall as [Hb Hall].
    rewrite store_in_range by exact Hb. simpl.
    rewrite IH by (try assumption; simpl in Hlen; lia). reflexivity.
Qed.

Lemma length_recorded (bufs : list (list Float.real)) (i : nat) (New : list Float.real) :
  (length bufs <= length New)%nat ->
  length (zip_with (fun buf x => <[i := x]> buf) bufs New) = length bufs.
Proof. intros H. rewrite length_zip_with. lia. Qed.

Lemma size_recorded (bufs : list (list Float.real)) (i : nat) (New : list Float.real) (n : Z) :
  Forall (fun buf => Z.of_nat (length buf) = n) bufs ->
  Forall (fun buf => Z.of_nat (length buf) = n)
         (zip_with (fun buf x => <[i := x]> buf) bufs New).
Proof.
  revert New. induction bufs as [|b bufs IH]; intros New Hall; simpl.
  - constructor.
  - destruct New as [|x New]; [constructor|].
    apply Forall_cons in Hall as [Hb Hall].
    constructor; [rewrite length_insert; exact Hb|apply IH; exact Hall].
Qed.

Lemma lookup_recorded (bufs : list (list Float.real)) (i : nat) (New : list Float.real) (v : nat) :
  (length bufs <= length New)%nat ->
  zip_with (fun buf x => <[i := x]> buf) bufs New !! v
  = buf ← bufs !! v; x ← New !! v; Some (<[i := x]> buf).
Proof.
  revert New v. induction bufs as [|b bufs IH]; intros New v Hlen.
  - reflexivity.
  - destruct New as [|x New]; [simpl in Hlen; lia|].
    destruct v as [|v]; [reflexivity|].
    simpl. apply IH. simpl in Hlen. lia.
Qed.

Lemma cell_recorded (bufs : list (list Float.real)) (id : Z) (New : list Float.real) (v : nat) (i : Z) :
  (length bufs <= length New)%nat ->
  Forall (fun buf => 0 <= id < Z.of_nat (length buf)) bufs ->
  cell (zip_with (fun buf x => <[Z.to_nat id := x]> buf) bufs New) v i
  = if bool_decide (i = id) then (_ ← bufs !! v; New !! v) else cell bufs v i.
Proof.
  intros Hlen Hall. unfold cell. rewrite lookup_recorded by exact Hlen.
  destruct (bufs !! v) as [buf|] eqn:Ebuf; simpl; [|now case_bool_decide].
  assert (Hid : 0 <= id < Z.of_nat (length buf)).
  { eapply (proj1 (Forall_lookup _ _) Hall). exact Ebuf. }
  destruct (New !! v) as [x|] eqn:Ex; simpl.
  - apply load_store. apply store_in_range. exact Hid.
  - apply lookup_ge_None in Ex. apply lookup_lt_Some in Ebuf. lia.
Qed.

Lemma mapM_load_recorded (bufs : list (list Float.real)) (id : Z) (New : list Float.real) :
  length bufs = length New ->
  Forall (fun buf => 0 <= id < Z.of_nat (length buf)) bufs ->
  mapM (fun buf => load buf id)
       (zip_with (fun buf x => <[Z.to_nat id := x]> buf) bufs New) = Some New.
Proof.
  revert New. induction bufs as [|b bufs IH]; intros New Hlen Hall.
  - destruct New; [reflexivity|discriminate].
  - destruct New as [|x New]; [discriminate|].
    apply Forall_cons in Hall as [Hb Hall]. simpl.
    rewrite (load_store b _ id id x) by (apply store_in_range; exact Hb).
    rewrite bool_decide_eq_true_2 by reflexivity. simpl.
    rewrite IH by (try assumption; simpl in Hlen; lia). reflexivity.
Qed.

(** ** The methods, step by step *)

Section Pool.

Variables DEBUG_PARTICLE STORE_PAR_ACC : bool.
Variables NPAR_PASSIVE NLEVEL : nat.
Variable indet_real : nat -> Float.real.
Variable indet_long : nat -> Z.

Local Abbreviation NPAR_VAR := (Particle.NPAR_VAR STORE_PAR_ACC).
Local Abbreviation debug_check := (Particle.debug_check DEBUG_PARTICLE).
Local Abbreviation InitVar := (Particle.InitVar indet_real indet_long).
Local Abbreviation AddOneParticle_target :=
  (Particle.AddOneParticle_target DEBUG_PARTICLE indet_real).
Local Abbreviation AddOneParticle :=
  (Particle.AddOneParticle DEBUG_PARTICLE NPAR_PASSIVE indet_real).
Local Abbreviation RemoveOneParticle :=
  (Particle.RemoveOneParticle DEBUG_PARTICLE indet_long).
Local Abbreviation call := (Particle.call DEBUG_PARTICLE NPAR_PASSIVE indet_real indet_long).
Local Abbreviation run := (Particle.run DEBUG_PARTICLE NPAR_PASSIVE indet_real indet_long).
Local Abbreviation wf := (Particle.wf STORE_PAR_ACC NPAR_PASSIVE NLEVEL).
Local Abbreviation new_data := (Particle.new_data STORE_PAR_ACC NPAR_PASSIVE).
Local Abbreviation level := (Particle.level NLEVEL).

Lemma debug_check_Done (c : bool) (e : Fatal) (u : unit) :
  debug_check c e = Done u -> DEBUG_PARTICLE = true -> c = false.
Proof. unfold Particle.debug_check. intros H ->. eapply check_Done, H. Qed.

Lemma debug_check_pass (c : bool) (e : Fatal) :
  (DEBUG_PARTICLE = true -> c = false) -> debug_check c e = Done tt.
Proof.
  unfold Particle.debug_check. destruct DEBUG_PARTICLE; [|reflexivity].
  intros ->; reflexivity.
Qed.

Lemma id_check (id n : Z) : (id <? 0) || (id >=? n) = false <-> 0 <= id < n.
Proof.
  destruct (Z.ltb_spec id 0), (Z.le_gt_cases n id); simpl;
    rewrite ?geb_true, ?geb_false by lia; split; intros; try lia; try discriminate;
    reflexivity.
Qed.

(** Step 1 of [AddOneParticle] in each of its three cases. *)
Lemma target_reuse (p : Particle_t) (id : Z) :
  0 < NPar_Inactive p ->
  load (InactiveParList p) (NPar_Inactive p - 1) = Some id ->
  (DEBUG_PARTICLE = true -> 0 <= id < NPar_AcPlusInac p) ->
  AddOneParticle_target p = Done (id, set_NPar_Inactive (NPar_Inactive p - 1) p).
Proof.
  intros Hn Hid Hdbg. unfold Particle.AddOneParticle_target.
  rewrite gtb_true by lia.
  rewrite Hid. simpl. rewrite debug_check_pass; [reflexivity|].
  intros H. apply id_check, Hdbg, H.
Qed.

Lemma target_grow (p : Particle_t) (size : Z) :
  NPar_Inactive p <= 0 ->
  ParListSize p <= NPar_AcPlusInac p ->
  Resize.grow (ParListSize p) = Some size ->
  AddOneParticle_target p
  = Done (NPar_AcPlusInac p,
          set_NPar_AcPlusInac (NPar_AcPlusInac p + 1)
            (set_Passive ((fun buf => realloc indet_real buf size) <$> Passive p)
               (set_ParVar ((fun buf => realloc indet_real buf size) <$> ParVar p)
                  (set_ParListSize size p)))).
Proof.
  intros Hn Hsz Hg. unfold Particle.AddOneParticle_target.
  rewrite gtb_false by lia.
  rewrite geb_true by lia.
  rewrite Hg. reflexivity.
Qed.

Lemma target_keep (p : Particle_t) :
  NPar_Inactive p <= 0 ->
  NPar_AcPlusInac p < ParListSize p ->
  AddOneParticle_target p
  = Done (NPar_AcPlusInac p, set_NPar_AcPlusInac (NPar_AcPlusInac p + 1) p).
Proof.
  intros Hn Hsz. unfold Particle.AddOneParticle_target.
  rewrite gtb_false by lia.
  rewrite geb_false by lia.
  reflexivity.
Qed.

Lemma target_Done (p p0 : Particle_t) (id : Z) :
  AddOneParticle_target p = Done (id, p0) ->
  (0 < NPar_Inactive p
   /\ load (InactiveParList p) (NPar_Inactive p - 1) = Some id
   /\ (DEBUG_PARTICLE = true -> 0 <= id < NPar_AcPlusInac p)
   /\ p0 = set_NPar_Inactive (NPar_Inactive p - 1) p)
  \/ (NPar_Inactive p <= 0 /\ id = NPar_AcPlusInac p
      /\ ParListSize p <= NPar_AcPlusInac p
      /\ exists size, Resize.grow (ParListSize p) = Some size
         /\ p0 = set_NPar_AcPlusInac (NPar_AcPlusInac p + 1)
                   (set_Passive ((fun buf => realloc indet_real buf size) <$> Passive p)
                      (set_ParVar ((fun buf => realloc indet_real buf size) <$> ParVar p)
                         (set_ParListSize size p))))
  \/ (NPar_Inactive p <= 0 /\ id = NPar_AcPlusInac p
      /\ NPar_AcPlusInac p < ParListSize p
      /\ p0 = set_NPar_AcPlusInac (NPar_AcPlusInac p + 1) p).
Proof.
  intros H.
  destruct (Z.lt_ge_cases 0 (NPar_Inactive p)) as [Hn|Hn].
  - left. unfold Particle.AddOneParticle_target in H.
    rewrite gtb_true in H by lia.
    apply bind_Done in H as (id' & Hid & H). apply defined_Done in Hid.
    apply bind_Done in H as (u & Hchk & H). simpl in H. injection H as -> <-.
    split; [exact Hn|]. split; [exact Hid|]. split; [|reflexivity].
    intros Hdbg. apply id_check. eapply debug_check_Done; eassumption.
  - right. destruct (Z.le_gt_cases (ParListSize p) (NPar_AcPlusInac p)) as [Hs|Hs].
    + left. destruct (Resize.grow (ParListSize p)) as [size|] eqn:Hg.
      * rewrite (target_grow p size) in H by assumption. injection H as <- <-.
        split; [exact Hn|]. split; [reflexivity|]. split; [exact Hs|]. now exists size.
      * unfold Particle.AddOneParticle_target in H.
        rewrite gtb_false, geb_true in H by lia.
        rewrite Hg in H. discriminate.
    + right. rewrite target_keep in H by assumption. injection H as <- <-. tauto.
Qed.

Lemma marker_check (Marker : Float.real) :
  negb (Float.eqb Marker Macro.PAR_INACTIVE_OUTSIDE)
  && negb (Float.eqb Marker Macro.PAR_INACTIVE_MPI) = false <-> marker Marker.
Proof.
  unfold marker. rewrite andb_false_iff, !negb_false_iff. tauto.
Qed.

(** What a call of [RemoveOneParticle] that returns has done, member by
    member. *)
Lemma Remove_Done (p p' : Particle_t) (ParID : Z) (Marker : Float.real) (lv : Z)
    (AveDens d' : option Float.double) (vol : Float.double) :
  RemoveOneParticle p ParID Marker lv AveDens vol = Done (p', d') ->
  (ParListSize p' = ParListSize p
   /\ NPar_Active_AllRank p' = NPar_Active_AllRank p
   /\ NPar_AcPlusInac p' = NPar_AcPlusInac p
   /\ Init p' = Init p /\ Interp p' = Interp p /\ Integ p' = Integ p
   /\ SyncDump p' = SyncDump p /\ ImproveAcc p' = ImproveAcc p
   /\ PredictPos p' = PredictPos p /\ RemoveCell p' = RemoveCell p
   /\ GhostSize p' = GhostSize p /\ Passive p' = Passive p)
  /\ NPar_Active p' = NPar_Active p - 1
  /\ NPar_Inactive p' = NPar_Inactive p + 1
  /\ (0 <= ParID < Z.of_nat (length (Mass p))
      /\ ParVar p' = <[Macro.PAR_MASS := <[Z.to_nat ParID := Marker]> (Mass p)]> (ParVar p))
  /\ (lv = Macro.NULL_INT /\ NPar_Lv p' = NPar_Lv p
      \/ lv <> Macro.NULL_INT
         /\ exists count, load (NPar_Lv p) lv = Some count
            /\ store (NPar_Lv p) lv (count - 1) = Some (NPar_Lv p'))
  /\ (NPar_Inactive p < InactiveParListSize p
      /\ InactiveParListSize p' = InactiveParListSize p
      /\ store (InactiveParList p) (NPar_Inactive p) ParID = Some (InactiveParList p')
      \/ InactiveParListSize p <= NPar_Inactive p
         /\ Resize.grow (InactiveParListSize p) = Some (InactiveParListSize p')
         /\ store (realloc indet_long (InactiveParList p) (InactiveParListSize p'))
                  (NPar_Inactive p) ParID = Some (InactiveParList p'))
  /\ match AveDens with
     | Some dens => exists mass, load (Mass p) ParID = Some mass
                                 /\ d' = Some (Float.sub dens (Float.mul mass vol))
     | None => d' = None
     end
  /\ (DEBUG_PARTICLE = true ->
      0 <= ParID < NPar_AcPlusInac p /\ marker Marker
      /\ NPar_Active p + NPar_Inactive p = NPar_AcPlusInac p).
Proof.
  unfold Particle.RemoveOneParticle. intros H.
  apply bind_Done in H as (u1 & Hc1 & H).
  apply bind_Done in H as (u2 & Hc2 & H).
  apply bind_Done in H as (p1 & Hroom & H).
  assert (Hp1 : ParListSize p1 = ParListSize p
    /\ NPar_Active_AllRank p1 = NPar_Active_AllRank p
    /\ NPar_AcPlusInac p1 = NPar_AcPlusInac p
    /\ Init p1 = Init p /\ Interp p1 = Interp p /\ Integ p1 = Integ p
    /\ SyncDump p1 = SyncDump p /\ ImproveAcc p1 = ImproveAcc p
    /\ PredictPos p1 = PredictPos p /\ RemoveCell p1 = RemoveCell p
    /\ GhostSize p1 = GhostSize p /\ Passive p1 = Passive p
    /\ ParVar p1 = ParVar p /\ NPar_Active p1 = NPar_Active p
    /\ NPar_Inactive p1 = NPar_Inactive p /\ NPar_Lv p1 = NPar_Lv p
    /\ (NPar_Inactive p < InactiveParListSize p
        /\ InactiveParListSize p1 = InactiveParListSize p
        /\ InactiveParList p1 = InactiveParList p
        \/ InactiveParListSize p <= NPar_Inactive p
           /\ Resize.grow (InactiveParListSize p) = Some (InactiveParListSize p1)
           /\ InactiveParList p1
              = realloc indet_long (InactiveParList p) (InactiveParListSize p1))).
  { destruct (Z.lt_ge_cases (NPar_Inactive p) (InactiveParListSize p)) as [Hn|Hn].
    - rewrite geb_false in Hroom by lia. injection Hroom as <-.
      repeat (split; [reflexivity|]). left. tauto.
    - rewrite geb_true in Hroom by lia.
      apply bind_Done in Hroom as (size & Hg & Hroom). apply defined_Done in Hg.
      injection Hroom as <-. simpl.
      repeat (split; [reflexivity|]). right. tauto. }
  destruct Hp1 as (E1 & E2 & E3 & E4 & E5 & E6 & E7 & E8 & E9 & E10 & E11 & E12
                   & EV & EA & EI & EL & Hlist).
  apply bind_Done in H as (ids & Hids & H). apply defined_Done in Hids.
  apply bind_Done in H as (dens & Hdens & H).
  apply bind_Done in H as (mass_buf & Hmass & H). apply defined_Done in Hmass.
  apply bind_Done in H as (p2 & Hlv & H).
  apply bind_Done in H as (u3 & Hc3 & H).
  injection H as <- <-.
  unfold Mass, attribute in Hmass, Hdens. simpl in Hmass, Hdens.
  rewrite EV in Hmass, Hdens. fold (attribute Macro.PAR_MASS p) in Hmass, Hdens.
  fold (Mass p) in Hmass, Hdens.
  apply store_Some in Hmass as [HParID ->].
  simpl in Hlv. rewrite EL, EA in Hlv. rewrite EI in Hids.
  assert (Hp2 : exists levels, p2 = set_NPar_Lv levels
      (set_NPar_Active (NPar_Active p - 1)
         (set_ParVar (<[Macro.PAR_MASS := <[Z.to_nat ParID := Marker]> (Mass p)]> (ParVar p1))
            (set_InactiveParList ids p1)))
    /\ (lv = Macro.NULL_INT /\ levels = NPar_Lv p
        \/ lv <> Macro.NULL_INT
           /\ exists count, load (NPar_Lv p) lv = Some count
              /\ store (NPar_Lv p) lv (count - 1) = Some levels)).
  { destruct (decide (lv ≠ Macro.NULL_INT)) as [Elv|Elv];
      [rewrite bool_decide_eq_true_2 in Hlv by exact Elv
      |rewrite bool_decide_eq_false_2 in Hlv by exact Elv].
    - apply bind_Done in Hlv as (count & Hcount & Hlv). apply defined_Done in Hcount.
      apply bind_Done in Hlv as (levels & Hlevels & Hlv). apply defined_Done in Hlevels.
      injection Hlv as <-. exists levels. split; [reflexivity|]. right.
      split; [exact Elv|]. now exists count.
    - injection Hlv as <-. exists (NPar_Lv p). split.
      + unfold set_NPar_Lv, set_NPar_Active, set_ParVar, set_InactiveParList. simpl.
        rewrite EL. reflexivity.
      + left. split; [|reflexivity]. destruct (decide (lv = Macro.NULL_INT)); tauto. }
  destruct Hp2 as (levels & -> & Hlevels). simpl in *.
  rewrite EV.
  split; [tauto|]. split; [reflexivity|]. split; [lia|]. split; [tauto|].
  split; [exact Hlevels|]. split.
  { destruct Hlist as [(? & -> & <-)|(? & ? & <-)]; [left|right]; tauto. }
  split.
  { destruct AveDens as [dens0|].
    - apply bind_Done in Hdens as (mass & Hm & Hdens). apply defined_Done in Hm.
      injection Hdens as <-. now exists mass.
    - injection Hdens as <-. reflexivity. }
  intros Hdbg.
  apply debug_check_Done in Hc1, Hc2, Hc3; try exact Hdbg.
  apply id_check in Hc1. apply marker_check in Hc2.
  apply bool_decide_eq_false in Hc3.
  split; [exact Hc1|]. split; [exact Hc2|].
  destruct (decide (NPar_Active p + NPar_Inactive p = NPar_AcPlusInac p)) as [|Hne]; [assumption|].
  exfalso. apply Hc3. rewrite EI, E3. lia.
Qed.

Lemma NPAR_VAR_pos : (Macro.PAR_TIME < NPAR_VAR)%nat.
Proof. unfold Particle.NPAR_VAR, Macro.PAR_TIME. destruct STORE_PAR_ACC; lia. Qed.

Lemma attribute_size (p : Particle_t) (v : nat) :
  wf p -> (v < NPAR_VAR)%nat -> Z.of_nat (length (attribute v p)) = ParListSize p.
Proof.
  intros Hwf Hv. unfold attribute.
  destruct (lookup_lt_is_Some_2 (ParVar p) v) as [buf Hbuf].
  { rewrite (wf_ParVar _ _ _ _ Hwf). exact Hv. }
  rewrite Hbuf. simpl.
  exact (proj1 (Forall_lookup _ _) (wf_ParVar_size _ _ _ _ Hwf) _ _ Hbuf).
Qed.

Lemma Mass_size (p : Particle_t) : wf p -> Z.of_nat (length (Mass p)) = ParListSize p.
Proof.
  intros Hwf. apply attribute_size; [exact Hwf|].
  pose proof NPAR_VAR_pos. unfold Macro.PAR_TIME, Macro.PAR_MASS in *. lia.
Qed.

(** A valid call of [RemoveOneParticle] returns. *)
Lemma Remove_total (p : Particle_t) (ParID : Z) (Marker : Float.real) (lv : Z)
    (AveDens : option Float.double) (vol : Float.double) :
  wf p -> 0 <= ParID < NPar_AcPlusInac p -> marker Marker ->
  lv = Macro.NULL_INT \/ level lv ->
  may_remove p ->
  exists p' d', RemoveOneParticle p ParID Marker lv AveDens vol = Done (p', d').
Proof.
  intros Hwf Hid Hmk Hlv Hlim.
  unfold may_remove in Hlim.
  pose proof (Mass_size p Hwf) as HM.
  pose proof (wf_slots _ _ _ _ Hwf) as Hslots.
  pose proof (wf_inactive _ _ _ _ Hwf) as Hin.
  pose proof (wf_list_size _ _ _ _ Hwf) as Hls.
  pose proof (wf_Lv _ _ _ _ Hwf) as HLv.
  pose proof (wf_count _ _ _ _ Hwf) as Hcount.
  cut (finished (RemoveOneParticle p ParID Marker lv AveDens vol) = true).
  { intros [[p' d'] E]%finished_Done. eauto. }
  unfold Particle.RemoveOneParticle.
  rewrite (debug_check_pass (_ || _)) by (intros _; apply id_check; exact Hid). simpl.
  rewrite (debug_check_pass (_ && _)) by (intros _; apply marker_check; exact Hmk). simpl.
  match goal with
  | |- context [if NPar_Inactive p >=? InactiveParListSize p then ?a else ?b] =>
      assert (Hroom : exists p1,
        (if NPar_Inactive p >=? InactiveParListSize p then a else b) = Done p1
        /\ ParVar p1 = ParVar p /\ NPar_Inactive p1 = NPar_Inactive p
        /\ NPar_Lv p1 = NPar_Lv p /\ NPar_Active p1 = NPar_Active p
        /\ NPar_AcPlusInac p1 = NPar_AcPlusInac p
        /\ NPar_Inactive p < Z.of_nat (length (InactiveParList p1)))
  end.
  { destruct (Z.lt_ge_cases (NPar_Inactive p) (InactiveParListSize p)) as [Hn|Hn].
    - rewrite geb_false by lia. exists p. repeat (split; [reflexivity|]). lia.
    - rewrite geb_true by lia.
      destruct (ResizeFacts.grow_bounds (InactiveParListSize p)) as (size & Hg & Hsize); [lia|].
      rewrite Hg. simpl. eexists. repeat (split; [reflexivity|]).
      simpl. rewrite length_realloc. lia. }
  destruct Hroom as (p1 & -> & EV & EI & EL & EA & ET & Hlen). simpl.
  rewrite EI, store_in_range by lia. simpl.
  unfold Mass, attribute. simpl. rewrite EV.
  fold (attribute Macro.PAR_MASS p). fold (Mass p).
  destruct (load_in_range (Mass p) ParID) as [mass Hmass]; [lia|].
  rewrite Hmass, store_in_range by lia. simpl.
  assert (Hdens : exists dens,
    match AveDens with
    | Some dens => Done (Some (Float.sub dens (Float.mul mass vol)))
    | None => Done None
    end = Done dens) by (destruct AveDens; eexists; reflexivity).
  destruct Hdens as [dens ->]. simpl.
  rewrite ?EL, ?EA, ?EI, ?ET.
  destruct (decide (lv ≠ Macro.NULL_INT)) as [Elv|Elv].
  - rewrite bool_decide_eq_true_2 by exact Elv.
    destruct Hlv as [?|Hlv]; [tauto|]. unfold Particle.level in Hlv.
    destruct (load_in_range (NPar_Lv p) lv) as [count Hc]; [lia|].
    rewrite Hc. simpl. rewrite store_in_range by lia. simpl.
    rewrite debug_check_pass; [reflexivity|].
    intros _. apply bool_decide_eq_false_2. simpl. lia.
  - rewrite bool_decide_eq_false_2 by exact Elv. simpl.
    rewrite debug_check_pass; [reflexivity|].
    intros _. apply bool_decide_eq_false_2. simpl. lia.
Qed.

(** [RemoveOneParticle] of a slot keeps the pool consistent. *)
Lemma Remove_wf (p p' : Particle_t) (ParID : Z) (Marker : Float.real) (lv : Z)
    (AveDens d' : option Float.double) (vol : Float.double) :
  wf p -> 0 <= ParID < NPar_AcPlusInac p ->
  may_remove p ->
  RemoveOneParticle p ParID Marker lv AveDens vol = Done (p', d') ->
  wf p'.
Proof.
  intros Hwf Hid Hlim H.
  unfold may_remove in Hlim.
  apply Remove_Done in H
    as ((E1 & _ & E3 & _ & _ & _ & _ & _ & _ & _ & _ & E12) & HA & HI
        & (HParID & HV) & HLv & Hlist & _ & _).
  pose proof (Mass_size p Hwf) as HM.
  pose proof (wf_inactive _ _ _ _ Hwf) as Hin.
  pose proof (wf_list_size _ _ _ _ Hwf) as Hls.
  split.
  - rewrite HV, length_insert. apply (wf_ParVar _ _ _ _ Hwf).
  - rewrite E12. apply (wf_Passive _ _ _ _ Hwf).
  - rewrite HV, E1. apply Forall_insert; [apply (wf_ParVar_size _ _ _ _ Hwf)|].
    rewrite length_insert. exact HM.
  - rewrite E12, E1. apply (wf_Passive_size _ _ _ _ Hwf).
  - destruct Hlist as [(_ & -> & [_ ->]%store_Some)|(Hge & Hg & [_ ->]%store_Some)];
      rewrite length_insert; [exact Hls|].
    rewrite length_realloc.
    destruct (ResizeFacts.grow_bounds (InactiveParListSize p)) as (size & Hg' & Hsize); [lia|].
    rewrite Hg in Hg'. injection Hg' as <-. lia.
  - destruct HLv as [[_ ->]|(_ & count & _ & [_ ->]%store_Some)];
      rewrite ?length_insert; apply (wf_Lv _ _ _ _ Hwf).
  - rewrite E3, E1. apply (wf_slots _ _ _ _ Hwf).
  - rewrite HI.
    destruct Hlist as [(? & -> & _)|(? & Hg & _)]; [lia|].
    destruct (ResizeFacts.grow_bounds (InactiveParListSize p)) as (size & Hg' & Hsize); [lia|].
    rewrite Hg in Hg'. injection Hg' as <-. lia.
  - rewrite HA, HI, E3. pose proof (wf_count _ _ _ _ Hwf). lia.
  - rewrite HI, E3.
    replace (Z.to_nat (NPar_Inactive p + 1)) with (S (Z.to_nat (NPar_Inactive p))) by lia.
    pose proof (wf_ids _ _ _ _ Hwf) as Hids.
    assert (Htake : take (S (Z.to_nat (NPar_Inactive p))) (InactiveParList p')
                    = take (Z.to_nat (NPar_Inactive p)) (InactiveParList p) ++ [ParID]).
    { destruct Hlist as [(? & _ & [Hr ->]%store_Some)|(? & Hg & [Hr ->]%store_Some)].
      - erewrite take_S_r by (apply list_lookup_insert_eq; lia).
        rewrite take_insert_ge by lia. reflexivity.
      - erewrite take_S_r by (apply list_lookup_insert_eq; lia).
        rewrite take_insert_ge by lia. rewrite length_realloc in Hr.
        rewrite take_realloc by lia. reflexivity. }
    rewrite Htake. apply Forall_app. split; [exact Hids|].
    constructor; [exact Hid|constructor].
Qed.

(** Step 1 of [AddOneParticle] on a consistent pool: it returns, the id it
    chooses denotes a slot, and the pool it leaves is consistent once the
    new particle is counted as active. *)
Lemma target_total (p : Particle_t) :
  wf p -> may_add p ->
  exists id p0, AddOneParticle_target p = Done (id, p0).
Proof.
  intros Hwf Hlim.
  unfold may_add in Hlim.
  pose proof (wf_inactive _ _ _ _ Hwf) as Hin.
  pose proof (wf_slots _ _ _ _ Hwf) as Hslots.
  destruct (Z.lt_ge_cases 0 (NPar_Inactive p)) as [Hn|Hn].
  - destruct (load_in_range (InactiveParList p) (NPar_Inactive p - 1)) as [id Hid].
    { rewrite (wf_list_size _ _ _ _ Hwf). lia. }
    exists id. eexists. apply target_reuse; [exact Hn|exact Hid|].
    intros _. apply load_Some in Hid as [H0 Hid].
    apply (proj1 (Forall_lookup _ _) (wf_ids _ _ _ _ Hwf) (Z.to_nat (NPar_Inactive p - 1))).
    rewrite lookup_take_lt by lia. exact Hid.
  - destruct (Z.le_gt_cases (ParListSize p) (NPar_AcPlusInac p)) as [Hs|Hs].
    + destruct (ResizeFacts.grow_bounds (ParListSize p)) as (size & Hg & _); [lia|].
      eexists _, _. apply target_grow; [lia|exact Hs|exact Hg].
    + eexists _, _. apply target_keep; [lia|exact Hs].
Qed.

Lemma Forall_realloc_size (bufs : list (list Float.real)) (size : Z) :
  0 <= size ->
  Forall (fun buf => Z.of_nat (length buf) = size)
         ((fun buf => realloc indet_real buf size) <$> bufs).
Proof.
  intros Hsize. apply Forall_fmap, Forall_forall. intros buf _. simpl.
  rewrite length_realloc. lia.
Qed.

Lemma target_wf (p p0 : Particle_t) (id : Z) :
  wf p -> may_add p ->
  AddOneParticle_target p = Done (id, p0) ->
  wf (set_NPar_Active (NPar_Active p0 + 1) p0) /\ 0 <= id < NPar_AcPlusInac p0.
Proof.
  intros Hwf Hlim H.
  unfold may_add in Hlim.
  pose proof (wf_inactive _ _ _ _ Hwf) as Hin.
  pose proof (wf_slots _ _ _ _ Hwf) as Hslots.
  pose proof (wf_count _ _ _ _ Hwf) as Hcount.
  pose proof (wf_ids _ _ _ _ Hwf) as Hids.
  apply target_Done in H
    as [(Hn & Hid & _ & ->)|[(Hn & -> & Hs & size & Hg & ->)|(Hn & -> & Hs & ->)]].
  - assert (Hrange : 0 <= id < NPar_AcPlusInac p).
    { apply load_Some in Hid as [H0 Hid].
      apply (proj1 (Forall_lookup _ _) Hids (Z.to_nat (NPar_Inactive p - 1))).
      rewrite lookup_take_lt by lia. exact Hid. }
    split; [|exact Hrange].
    destruct Hwf. split; simpl; try assumption; try lia.
    replace (Z.to_nat (NPar_Inactive p)) with (S (Z.to_nat (NPar_Inactive p - 1))) in Hids by lia.
    replace (Z.to_nat (NPar_Inactive p - 1))
      with (Z.to_nat (NPar_Inactive p - 1) `min` S (Z.to_nat (NPar_Inactive p - 1)))%nat by lia.
    rewrite <- take_take. apply Forall_take. exact Hids.
  - destruct (ResizeFacts.grow_bounds (ParListSize p)) as (size' & Hg' & Hsize); [lia|].
    rewrite Hg in Hg'. injection Hg' as <-.
    split; [|simpl; lia].
    destruct Hwf. split; simpl; try assumption; try lia.
    + rewrite length_fmap. assumption.
    + rewrite length_fmap. assumption.
    + apply Forall_realloc_size. lia.
    + apply Forall_realloc_size. lia.
    + eapply Forall_impl; [exact Hids|]. simpl. lia.
  - split; [|simpl; lia].
    destruct Hwf. split; simpl; try assumption; try lia.
    eapply Forall_impl; [exact Hids|]. simpl. lia.
Qed.

(** What a call of [AddOneParticle] that returns has done, member by
    member, from the pool [p0] that step 1 leaves. *)
Lemma Add_Done (p p' : Particle_t) (NewVar NewPassive : option (list Float.real)) (lv : Z)
    (AveDens d' : option Float.double) (vol : Float.double) :
  AddOneParticle p NewVar NewPassive lv AveDens vol = Done (p', d') ->
  exists id p0 mass dens count,
    AddOneParticle_target p = Done (id, p0)
    /\ (ParListSize p' = ParListSize p0
        /\ InactiveParListSize p' = InactiveParListSize p0
        /\ NPar_Active_AllRank p' = NPar_Active_AllRank p0
        /\ NPar_AcPlusInac p' = NPar_AcPlusInac p0
        /\ NPar_Inactive p' = NPar_Inactive p0
        /\ Init p' = Init p0 /\ Interp p' = Interp p0 /\ Integ p' = Integ p0
        /\ SyncDump p' = SyncDump p0 /\ ImproveAcc p' = ImproveAcc p0
        /\ PredictPos p' = PredictPos p0 /\ RemoveCell p' = RemoveCell p0
        /\ GhostSize p' = GhostSize p0
        /\ InactiveParList p' = InactiveParList p0)
    /\ NPar_Active p' = NPar_Active p0 + 1
    /\ record (ParVar p0) id (default [] NewVar) = Some (ParVar p')
    /\ record (Passive p0) id (default [] NewPassive) = Some (Passive p')
    /\ load (Mass p') id = Some mass
    /\ AveDens = Some dens /\ d' = Some (Float.add dens (Float.mul mass vol))
    /\ load (NPar_Lv p0) lv = Some count
    /\ store (NPar_Lv p0) lv (count + 1) = Some (NPar_Lv p').
Proof.
  unfold Particle.AddOneParticle. intros H.
  apply bind_Done in H as (u1 & Hc1 & H).
  apply bind_Done in H as (u2 & Hc2 & H).
  apply bind_Done in H as (u3 & Hc3 & H).
  apply bind_Done in H as (u4 & Hc4 & H).
  apply bind_Done in H as ([id p0] & Htarget & H).
  apply bind_Done in H as (vars & Hvars & H). apply defined_Done in Hvars.
  apply bind_Done in H as (passive & Hpassive & H). apply defined_Done in Hpassive.
  apply bind_Done in H as (mass & Hmass & H). apply defined_Done in Hmass.
  apply bind_Done in H as (dens & Hdens & H). apply defined_Done in Hdens.
  apply bind_Done in H as (count & Hcount & H). apply defined_Done in Hcount.
  apply bind_Done in H as (levels & Hlevels & H). apply defined_Done in Hlevels.
  injection H as <- <-.
  exists id, p0, mass, dens, count. simpl in *.
  split; [exact Htarget|]. split; [tauto|]. split; [reflexivity|].
  split; [exact Hvars|]. split; [exact Hpassive|]. split; [exact Hmass|].
  split; [exact Hdens|]. split; [reflexivity|]. split; [exact Hcount|exact Hlevels].
Qed.

Lemma Mass_recorded (bufs : list (list Float.real)) (id : Z) (New : list Float.real) (m : Float.real) :
  (length bufs <= length New)%nat -> (0 < length bufs)%nat ->
  Forall (fun buf => 0 <= id < Z.of_nat (length buf)) bufs ->
  New !! Macro.PAR_MASS = Some m ->
  cell (zip_with (fun buf x => <[Z.to_nat id := x]> buf) bufs New) Macro.PAR_MASS id
  = Some m.
Proof.
  intros Hlen Hpos Hall Hm. rewrite cell_recorded by assumption.
  rewrite bool_decide_eq_true_2 by reflexivity.
  destruct (lookup_lt_is_Some_2 bufs Macro.PAR_MASS) as [buf ->]; [exact Hpos|].
  exact Hm.
Qed.

Lemma load_attribute (p : Particle_t) (v : nat) (i : Z) :
  load (attribute v p) i = cell (ParVar p) v i.
Proof.
  unfold attribute, cell. destruct (ParVar p !! v) as [buf|]; simpl; [reflexivity|].
  unfold load. destruct (0 <=? i); reflexivity.
Qed.

(** A valid call of [AddOneParticle] returns; it adds the mass of the new
    particle, times [_BoxVolume], to the accumulator. *)
Lemma Add_total (p : Particle_t) (NewVar NewPassive : list Float.real) (lv : Z)
    (dens vol : Float.double) :
  wf p -> new_data NewVar NewPassive -> level lv ->
  may_add p ->
  exists p' mass,
    NewVar !! Macro.PAR_MASS = Some mass
    /\ AddOneParticle p (Some NewVar) (Some NewPassive) lv (Some dens) vol
       = Done (p', Some (Float.add dens (Float.mul mass vol))).
Proof.
  intros Hwf [HNV HNP] Hlv Hlim.
  unfold may_add in Hlim.
  destruct (target_total p Hwf Hlim) as (id & p0 & Htarget).
  destruct (target_wf p p0 id Hwf Hlim Htarget) as [Hwf0 Hid].
  pose proof (wf_ParVar _ _ _ _ Hwf0) as HV. simpl in HV.
  pose proof (wf_Passive _ _ _ _ Hwf0) as HP. simpl in HP.
  pose proof (wf_ParVar_size _ _ _ _ Hwf0) as HVs. simpl in HVs.
  pose proof (wf_Passive_size _ _ _ _ Hwf0) as HPs. simpl in HPs.
  pose proof (wf_slots _ _ _ _ Hwf0) as Hslots. simpl in Hslots.
  pose proof (wf_Lv _ _ _ _ Hwf0) as HLv. simpl in HLv.
  pose proof NPAR_VAR_pos as Hpos. unfold Macro.PAR_TIME in Hpos.
  destruct (lookup_lt_is_Some_2 NewVar Macro.PAR_MASS) as [mass Hmass].
  { rewrite HNV. unfold Macro.PAR_MASS. lia. }
  assert (HVr : Forall (fun buf => 0 <= id < Z.of_nat (length buf)) (ParVar p0)).
  { eapply Forall_impl; [exact HVs|]. simpl. intros buf ->. lia. }
  assert (HPr : Forall (fun buf => 0 <= id < Z.of_nat (length buf)) (Passive p0)).
  { eapply Forall_impl; [exact HPs|]. simpl. intros buf ->. lia. }
  exists (set_NPar_Lv (<[Z.to_nat lv := default 0 (NPar_Lv p0 !! Z.to_nat lv) + 1]> (NPar_Lv p0))
            (set_NPar_Active (NPar_Active p0 + 1)
               (set_Passive (zip_with (fun buf x => <[Z.to_nat id := x]> buf)
                                      (Passive p0) NewPassive)
                  (set_ParVar (zip_with (fun buf x => <[Z.to_nat id := x]> buf)
                                        (ParVar p0) NewVar) p0)))), mass.
  split; [exact Hmass|].
  unfold Particle.AddOneParticle.
  rewrite (debug_check_pass (_ <? _)), bind_Done_l
    by (intros _; apply Z.ltb_ge; apply (wf_slots _ _ _ _ Hwf)).
  rewrite (debug_check_pass (bool_decide _)), bind_Done_l
    by (intros _; apply bool_decide_eq_false_2; discriminate).
  rewrite (debug_check_pass (_ && _)), bind_Done_l
    by (intros _; apply andb_false_iff; right; apply bool_decide_eq_false_2; discriminate).
  rewrite (debug_check_pass (bool_decide _)), bind_Done_l
    by (intros _; apply bool_decide_eq_false_2; discriminate).
  simpl. rewrite Htarget. simpl.
  rewrite record_in_range by (try assumption; lia). simpl.
  rewrite record_in_range by (try assumption; lia). simpl.
  unfold Mass. rewrite load_attribute. simpl.
  rewrite (Mass_recorded _ _ _ mass) by (try assumption; lia). simpl.
  unfold Particle.level in Hlv.
  destruct (load_in_range (NPar_Lv p0) lv) as [count Hc]; [lia|].
  rewrite Hc. simpl. rewrite store_in_range by lia. simpl.
  apply load_Some in Hc as [_ ->]. reflexivity.
Qed.

(** [AddOneParticle] keeps the pool consistent. *)
Lemma Add_wf (p p' : Particle_t) (NewVar NewPassive : option (list Float.real)) (lv : Z)
    (AveDens d' : option Float.double) (vol : Float.double) :
  wf p -> may_add p ->
  AddOneParticle p NewVar NewPassive lv AveDens vol = Done (p', d') ->
  wf p'.
Proof.
  intros Hwf Hlim H.
  unfold may_add in Hlim.
  apply Add_Done in H
    as (id & p0 & mass & dens & count & Htarget
        & (E1 & E2 & _ & E4 & E5 & _ & _ & _ & _ & _ & _ & _ & _ & E14)
        & HA & HV & HP & _ & _ & _ & _ & HL).
  destruct (target_wf p p0 id Hwf Hlim Htarget) as [Hwf0 Hid].
  apply record_Some in HV as (HV & HVl & _).
  apply record_Some in HP as (HP & HPl & _).
  apply store_Some in HL as [_ HL].
  destruct Hwf0; simpl in *.
  split.
  - rewrite HV, length_recorded; assumption.
  - rewrite HP, length_recorded; assumption.
  - rewrite HV, E1. apply size_recorded. assumption.
  - rewrite HP, E1. apply size_recorded. assumption.
  - rewrite E14, E2. assumption.
  - rewrite HL, length_insert. assumption.
  - rewrite E4, E1. assumption.
  - rewrite E5, E2. assumption.
  - rewrite HA, E5, E4. assumption.
  - rewrite E5, E14, E4. assumption.
Qed.

(** ** [InitVar] *)

Lemma InitVar_Done (p0 p : Particle_t) :
  InitVar p0 = Done p ->
  0 <= NPar_AcPlusInac p0 /\ supported (Interp p0)
  /\ NPar_AcPlusInac p = NPar_AcPlusInac p0
  /\ NPar_Active p = NPar_AcPlusInac p0
  /\ NPar_Inactive p = 0
  /\ ParListSize p = NPar_AcPlusInac p0
  /\ InactiveParListSize p = Macro.MAX 1 (NPar_AcPlusInac p0 `quot` 100)
  /\ NPar_Lv p = NPar_Lv p0
  /\ GhostSize p = match Interp p0 with PAR_INTERP_NGP => 0 | _ => 1 end
  /\ ParVar p = (fun _ => malloc indet_real (NPar_AcPlusInac p0)) <$> ParVar p0
  /\ Passive p = (fun _ => malloc indet_real (NPar_AcPlusInac p0)) <$> Passive p0
  /\ InactiveParList p
     = malloc indet_long (Macro.MAX 1 (NPar_AcPlusInac p0 `quot` 100)).
Proof.
  unfold Particle.InitVar. intros H.
  apply bind_Done in H as (u1 & Hc1 & H). apply check_Done, Z.ltb_ge in Hc1.
  apply bind_Done in H as (u2 & Hc2 & H). apply check_Done in Hc2.
  apply bind_Done in H as (p1 & Hghost & H). injection H as <-.
  simpl in Hghost. unfold supported.
  destruct (Interp p0); try discriminate; injection Hghost as <-; simpl;
    (split; [exact Hc1|]); (split; [tauto|]); repeat (split; [reflexivity|]);
    reflexivity.
Qed.

Lemma InitVar_total (p0 : Particle_t) :
  0 <= NPar_AcPlusInac p0 -> supported (Interp p0) -> exists p, InitVar p0 = Done p.
Proof.
  intros Hn Hi. unfold Particle.InitVar.
  replace (NPar_AcPlusInac p0 <? 0) with false by (symmetry; apply Z.ltb_ge; exact Hn).
  simpl. destruct Hi as [E|[E|E]]; rewrite E; simpl; eexists; reflexivity.
Qed.

Lemma MAX_1_pos (z : Z) : 1 <= Macro.MAX 1 z.
Proof. unfold Macro.MAX. destruct (Z.gtb_spec 1 z); lia. Qed.

Lemma Forall_malloc_size (bufs : list (list Float.real)) (n : Z) :
  0 <= n ->
  Forall (fun buf => Z.of_nat (length buf) = n)
         ((fun _ => malloc indet_real n) <$> bufs).
Proof.
  intros Hn. apply Forall_fmap, Forall_forall. intros buf _. simpl.
  unfold malloc. rewrite length_realloc. lia.
Qed.

(** [InitVar] makes a consistent pool of a pool whose arrays have their
    declared sizes, as the constructor leaves them. *)
Lemma InitVar_wf (p0 p : Particle_t) :
  length (ParVar p0) = NPAR_VAR -> length (Passive p0) = NPAR_PASSIVE ->
  length (NPar_Lv p0) = NLEVEL ->
  InitVar p0 = Done p -> wf p.
Proof.
  intros HV HP HL H.
  apply InitVar_Done in H
    as (Hn & _ & ET & EA & EI & ES & EIS & EL & _ & EV & EP & EIL).
  pose proof (MAX_1_pos (NPar_AcPlusInac p0 `quot` 100)) as Hmax.
  split.
  - rewrite EV, length_fmap. exact HV.
  - rewrite EP, length_fmap. exact HP.
  - rewrite EV, ES. apply Forall_malloc_size. exact Hn.
  - rewrite EP, ES. apply Forall_malloc_size. exact Hn.
  - rewrite EIL, EIS. unfold malloc. rewrite length_realloc. lia.
  - rewrite EL. exact HL.
  - rewrite ET, ES. lia.
  - rewrite EI, EIS. lia.
  - rewrite EA, EI, ET. lia.
  - rewrite EI. constructor.
Qed.

(** ** The counters along a run *)

Lemma total_insert (l : list Z) (i : nat) (c x : Z) :
  l !! i = Some c -> foldr Z.add 0 (<[i := x]> l) = foldr Z.add 0 l - c + x.
Proof.
  revert i. induction l as [|y l IH]; intros i Hi; [discriminate|].
  destruct i as [|i]; simpl in *.
  - injection Hi as ->. lia.
  - rewrite (IH i Hi). lia.
Qed.

Lemma total_store (l l' : list Z) (i c x : Z) :
  load l i = Some c -> store l i x = Some l' ->
  foldr Z.add 0 l' = foldr Z.add 0 l - c + x.
Proof.
  intros [_ Hc]%load_Some [_ ->]%store_Some. apply total_insert, Hc.
Qed.

Lemma target_counters (p p0 : Particle_t) (id : Z) :
  AddOneParticle_target p = Done (id, p0) ->
  NPar_Active p0 = NPar_Active p /\ NPar_Lv p0 = NPar_Lv p
  /\ NPar_Inactive p0 - NPar_AcPlusInac p0 + 1 = NPar_Inactive p - NPar_AcPlusInac p.
Proof.
  intros [(_ & _ & _ & ->)|[(_ & _ & _ & size & _ & ->)|(_ & _ & _ & ->)]]%target_Done;
    simpl; repeat split; lia.
Qed.

Lemma Add_counters (p p' : Particle_t) (NewVar NewPassive : option (list Float.real)) (lv : Z)
    (AveDens d' : option Float.double) (vol : Float.double) :
  AddOneParticle p NewVar NewPassive lv AveDens vol = Done (p', d') ->
  NPar_Active p' + NPar_Inactive p' - NPar_AcPlusInac p'
  = NPar_Active p + NPar_Inactive p - NPar_AcPlusInac p
  /\ total_Lv p' - NPar_Active p' = total_Lv p - NPar_Active p.
Proof.
  intros H. apply Add_Done in H
    as (id & p0 & mass & dens & count & Htarget
        & (_ & _ & _ & E4 & E5 & _) & HA & _ & _ & _ & _ & _ & Hc & HL).
  apply target_counters in Htarget as (EA & EL & Hdiff).
  unfold total_Lv. rewrite (total_store _ _ _ _ _ Hc HL), <- EL. lia.
Qed.

Lemma Remove_counters (p p' : Particle_t) (ParID : Z) (Marker : Float.real) (lv : Z)
    (AveDens d' : option Float.double) (vol : Float.double) :
  RemoveOneParticle p ParID Marker lv AveDens vol = Done (p', d') ->
  NPar_Active p' + NPar_Inactive p' - NPar_AcPlusInac p'
  = NPar_Active p + NPar_Inactive p - NPar_AcPlusInac p
  /\ total_Lv p' - NPar_Active p'
     = total_Lv p - NPar_Active p
       + (if bool_decide (lv = Macro.NULL_INT) then 1 else 0).
Proof.
  intros H. apply Remove_Done in H
    as ((_ & _ & E3 & _) & HA & HI & _ & HL & _).
  split; [lia|]. unfold total_Lv.
  destruct HL as [[-> ->]|(Hlv & count & Hc & HL)].
  - rewrite bool_decide_eq_true_2 by reflexivity. lia.
  - rewrite bool_decide_eq_false_2 by exact Hlv.
    rewrite (total_store _ _ _ _ _ Hc HL). lia.
Qed.

Lemma call_counters (c : Call) (s s' : Particle_t * Float.double) :
  call c s = Done s' ->
  NPar_Active s'.1 + NPar_Inactive s'.1 - NPar_AcPlusInac s'.1
  = NPar_Active s.1 + NPar_Inactive s.1 - NPar_AcPlusInac s.1
  /\ total_Lv s'.1 - NPar_Active s'.1 = total_Lv s.1 - NPar_Active s.1 + untracked c.
Proof.
  destruct c as [NV NP lv dens vol|id mk lv dens vol]; simpl; intros H;
    apply bind_Done in H as ([p' d'] & Hcall & H); injection H as <-; simpl.
  - apply Add_counters in Hcall. lia.
  - apply Remove_counters in Hcall. exact Hcall.
Qed.

Lemma run_counters (cs : list Call) (s s' : Particle_t * Float.double) :
  run cs s = Done s' ->
  NPar_Active s'.1 + NPar_Inactive s'.1 - NPar_AcPlusInac s'.1
  = NPar_Active s.1 + NPar_Inactive s.1 - NPar_AcPlusInac s.1
  /\ total_Lv s'.1 - NPar_Active s'.1
     = total_Lv s.1 - NPar_Active s.1 + count_untracked cs.
Proof.
  revert s. induction cs as [|c cs IH]; intros s H; simpl in H.
  - injection H as <-. simpl. lia.
  - apply bind_Done in H as (s1 & Hcall & H).
    apply call_counters in Hcall. apply IH in H. simpl. lia.
Qed.

(** Every part of a run that returns has returned. *)
Lemma run_app (cs1 cs2 : list Call) (s s' : Particle_t * Float.double) :
  run (cs1 ++ cs2) s = Done s' ->
  exists s1, run cs1 s = Done s1 /\ run cs2 s1 = Done s'.
Proof.
  revert s. induction cs1 as [|c cs1 IH]; intros s H; simpl in *.
  - now exists s.
  - apply bind_Done in H as (s1 & Hcall & H). rewrite Hcall. simpl. apply IH, H.
Qed.

(** ** The properties of the design document *)

(** C1.  [InitVar] sets [NPar_Active] to [NPar_AcPlusInac] and
    [NPar_Inactive] to 0, and after every call of every run of
    [AddOneParticle] and [RemoveOneParticle] that starts in the pool
    [InitVar] leaves, [NPar_Active + NPar_Inactive == NPar_AcPlusInac]:
    the equation holds in the pool after each part [cs1] of a run
    [cs1 ++ cs2].  The calls are arbitrary, [RemoveOneParticle] with level
    [NULL_INT] and the removal of an inactive slot included. *)
Theorem counts_add_up (p0 p : Particle_t) (cs1 cs2 : list Call) (A : Float.double)
    (s' : Particle_t * Float.double) :
  InitVar p0 = Done p ->
  run (cs1 ++ cs2) (p, A) = Done s' ->
  (NPar_Active p = NPar_AcPlusInac p /\ NPar_Inactive p = 0)
  /\ exists s1, run cs1 (p, A) = Done s1
                /\ NPar_Active s1.1 + NPar_Inactive s1.1 = NPar_AcPlusInac s1.1.
Proof.
  intros Hinit Hrun.
  apply InitVar_Done in Hinit as (_ & _ & ET & EA & EI & _).
  split; [split; congruence|].
  apply run_app in Hrun as (s1 & Hrun1 & _). exists s1. split; [exact Hrun1|].
  apply run_counters in Hrun1 as [Hsum _]. simpl in Hsum. lia.
Qed.

(** C2, amended.  [InitVar] does not touch [NPar_Lv], and
    [RemoveOneParticle] with level [NULL_INT] decrements [NPar_Active]
    alone.  When the sum of [NPar_Lv] over the levels is
    [NPar_AcPlusInac] as [InitVar] is called, then after each part [cs1]
    of a run the sum is [NPar_Active] plus the number of calls of
    [RemoveOneParticle] with level [NULL_INT] in [cs1]; the sum is
    [NPar_Active] as long as no such call is made. *)
Theorem level_sum_tracks_active (p0 p : Particle_t) (cs1 cs2 : list Call) (A : Float.double)
    (s' : Particle_t * Float.double) :
  InitVar p0 = Done p ->
  total_Lv p0 = NPar_AcPlusInac p0 ->
  run (cs1 ++ cs2) (p, A) = Done s' ->
  exists s1, run cs1 (p, A) = Done s1
             /\ total_Lv s1.1 = NPar_Active s1.1 + count_untracked cs1
             /\ (count_untracked cs1 = 0 -> total_Lv s1.1 = NPar_Active s1.1).
Proof.
  intros Hinit Hsum Hrun.
  apply InitVar_Done in Hinit as (_ & _ & _ & EA & _ & _ & _ & EL & _).
  apply run_app in Hrun as (s1 & Hrun1 & _). exists s1. split; [exact Hrun1|].
  apply run_counters in Hrun1 as [_ Hlv]. simpl in Hlv.
  unfold total_Lv in *. rewrite EL, EA in Hlv. lia.
Qed.


(** The accumulator has no part in what [RemoveOneParticle] does to the
    pool. *)
Lemma Remove_without_accumulator (p p' : Particle_t) (ParID : Z) (Marker : Float.real) (lv : Z)
    (AveDens d' : option Float.double) (vol : Float.double) :
  RemoveOneParticle p ParID Marker lv AveDens vol = Done (p', d') ->
  RemoveOneParticle p ParID Marker lv None vol = Done (p', None).
Proof.
  unfold Particle.RemoveOneParticle. intros H.
  apply bind_Done in H as (u1 & -> & H). rewrite bind_Done_l.
  apply bind_Done in H as (u2 & -> & H). rewrite bind_Done_l.
  apply bind_Done in H as (p1 & -> & H). rewrite bind_Done_l.
  apply bind_Done in H as (ids & -> & H). rewrite bind_Done_l.
  apply bind_Done in H as (dens & _ & H). rewrite bind_Done_l.
  apply bind_Done in H as (mass_buf & -> & H). rewrite bind_Done_l.
  apply bind_Done in H as (p2 & -> & H). rewrite bind_Done_l.
  apply bind_Done in H as (u3 & -> & H). rewrite bind_Done_l.
  injection H as <- _. reflexivity.
Qed.

(** C3, amended.  [RemoveOneParticle] called without accumulator
    ([AveDens == NULL]) skips the density update and does to the pool what
    it does when an accumulator is passed; with an accumulator it
    subtracts [Mass[ParID] * _BoxVolume], the mass read before it is
    overwritten.  [AddOneParticle] with an accumulator adds the mass of
    the new particle times [_BoxVolume].  [AddOneParticle] has no guard:
    without accumulator it does not return; the checked build aborts with
    "AveDens == NULL", the other dereferences the null pointer. *)
Theorem density_update (p : Particle_t) (NewVar NewPassive : list Float.real) (lvA : Z)
    (ParID : Z) (Marker : Float.real) (lv : Z) (dens vol : Float.double) :
  wf p -> may_add p -> may_remove p ->
  new_data NewVar NewPassive -> level lvA ->
  0 <= ParID < NPar_AcPlusInac p -> marker Marker ->
  lv = Macro.NULL_INT \/ level lv ->
  (exists p' mass,
      RemoveOneParticle p ParID Marker lv None vol = Done (p', None)
      /\ load (Mass p) ParID = Some mass
      /\ RemoveOneParticle p ParID Marker lv (Some dens) vol
         = Done (p', Some (Float.sub dens (Float.mul mass vol)))
      /\ load (Mass p') ParID = Some Marker)
  /\ (exists p' mass,
         NewVar !! Macro.PAR_MASS = Some mass
         /\ AddOneParticle p (Some NewVar) (Some NewPassive) lvA (Some dens) vol
            = Done (p', Some (Float.add dens (Float.mul mass vol))))
  /\ AddOneParticle p (Some NewVar) (Some NewPassive) lvA None vol
     = if DEBUG_PARTICLE then Abort AveDens_NULL else Undef.
Proof.
  intros Hwf Hadd Hrem Hnew HlvA Hid Hmk Hlv.
  split; [|split].
  - destruct (Remove_total p ParID Marker lv (Some dens) vol) as (p' & d' & Hr);
      try assumption.
    pose proof (Remove_without_accumulator _ _ _ _ _ _ _ _ Hr) as Hnone.
    apply Remove_Done in Hr as Hd.
    destruct Hd as (_ & _ & _ & (HParID & HV) & _ & _ & (mass & Hmass & ->) & _).
    exists p', mass. split; [exact Hnone|]. split; [exact Hmass|]. split; [exact Hr|].
    unfold Mass at 1. rewrite load_attribute, HV. unfold cell.
    rewrite list_lookup_insert_eq.
    + simpl. erewrite load_store by (apply store_in_range; exact HParID).
      rewrite bool_decide_eq_true_2; reflexivity.
    + rewrite (wf_ParVar _ _ _ _ Hwf). pose proof NPAR_VAR_pos.
      unfold Macro.PAR_MASS, Macro.PAR_TIME in *. lia.
  - apply Add_total; assumption.
  - destruct (Add_total p NewVar NewPassive lvA dens vol) as (p' & mass & _ & Ha);
      try assumption.
    unfold Particle.AddOneParticle in *.
    apply bind_Done in Ha as (u1 & -> & Ha). rewrite bind_Done_l.
    apply bind_Done in Ha as (u2 & -> & Ha). rewrite bind_Done_l.
    apply bind_Done in Ha as (u3 & -> & Ha). rewrite bind_Done_l.
    apply bind_Done in Ha as (u4 & _ & Ha).
    unfold Particle.debug_check at 1. destruct DEBUG_PARTICLE; [reflexivity|].
    rewrite bind_Done_l.
    apply bind_Done in Ha as ([id p0] & -> & Ha). rewrite bind_Done_l.
    apply bind_Done in Ha as (vars & -> & Ha). rewrite bind_Done_l.
    apply bind_Done in Ha as (passive & -> & Ha). rewrite bind_Done_l.
    apply bind_Done in Ha as (m & -> & Ha). rewrite bind_Done_l.
    reflexivity.
Qed.

(** A valid call of [AddOneParticle], in full: the slot that step 1
    chooses holds the new data, the other cells of the buffers are those
    step 1 left, and the pool stays consistent. *)
Lemma Add_spec (p : Particle_t) (NewVar NewPassive : list Float.real) (lv : Z) (dens vol : Float.double) :
  wf p -> may_add p -> new_data NewVar NewPassive -> level lv ->
  exists id p0 p' mass,
    AddOneParticle_target p = Done (id, p0)
    /\ NewVar !! Macro.PAR_MASS = Some mass
    /\ AddOneParticle p (Some NewVar) (Some NewPassive) lv (Some dens) vol
       = Done (p', Some (Float.add dens (Float.mul mass vol)))
    /\ wf p' /\ 0 <= id < NPar_AcPlusInac p'
    /\ ParListSize p' = ParListSize p0
    /\ NPar_AcPlusInac p' = NPar_AcPlusInac p0
    /\ NPar_Inactive p' = NPar_Inactive p0
    /\ InactiveParListSize p' = InactiveParListSize p
    /\ InactiveParList p' = InactiveParList p
    /\ slot p' id = Some (NewVar, NewPassive)
    /\ (forall v i, i <> id ->
          cell (ParVar p') v i = cell (ParVar p0) v i
          /\ cell (Passive p') v i = cell (Passive p0) v i).
Proof.
  intros Hwf Hlim Hnew Hlv.
  destruct (Add_total p NewVar NewPassive lv dens vol Hwf Hnew Hlv Hlim)
    as (p' & mass & Hmass & Hadd).
  pose proof (Add_wf _ _ _ _ _ _ _ _ Hwf Hlim Hadd) as Hwf'.
  apply Add_Done in Hadd as Hd.
  destruct Hd as (id & p0 & mass' & dens' & count & Htarget
                  & (E1 & E2 & _ & E4 & E5 & _ & _ & _ & _ & _ & _ & _ & _ & E14)
                  & HA & HV & HP & _ & _ & _ & _ & HL).
  destruct (target_wf p p0 id Hwf Hlim Htarget) as [Hwf0 Hid].
  exists id, p0, p', mass.
  split; [exact Htarget|]. split; [exact Hmass|]. split; [exact Hadd|].
  split; [exact Hwf'|]. split; [rewrite E4; exact Hid|].
  split; [exact E1|]. split; [exact E4|]. split; [exact E5|].
  assert (E0 : InactiveParListSize p0 = InactiveParListSize p
               /\ InactiveParList p0 = InactiveParList p).
  { apply target_Done in Htarget
      as [(_ & _ & _ & ->)|[(_ & _ & _ & size & _ & ->)|(_ & _ & _ & ->)]];
      split; reflexivity. }
  destruct E0 as [E0 E0'].
  split; [congruence|]. split; [congruence|].
  simpl in HV, HP. destruct Hnew as [HNV HNP].
  apply record_Some in HV as (HV & HVl & HVr).
  apply record_Some in HP as (HP & HPl & HPr).
  pose proof (wf_ParVar _ _ _ _ Hwf0) as HVn. simpl in HVn.
  pose proof (wf_Passive _ _ _ _ Hwf0) as HPn. simpl in HPn.
  split.
  - unfold slot. rewrite HV, HP.
    rewrite !mapM_load_recorded by (try assumption; congruence). reflexivity.
  - intros v i Hi. rewrite HV, HP, !cell_recorded by assumption.
    rewrite !bool_decide_eq_false_2 by exact Hi. split; reflexivity.
Qed.

Lemma cell_realloc (bufs : list (list Float.real)) (size : Z) (n : Z) (v : nat) (i : Z) :
  Forall (fun buf => Z.of_nat (length buf) = n) bufs ->
  i < n -> i < size ->
  cell ((fun buf => realloc indet_real buf size) <$> bufs) v i = cell bufs v i.
Proof.
  intros Hall Hn Hsize. unfold cell. rewrite list_lookup_fmap.
  destruct (bufs !! v) as [buf|] eqn:Ebuf; simpl; [|reflexivity].
  apply load_realloc; [|exact Hsize].
  rewrite (proj1 (Forall_lookup _ _) Hall _ _ Ebuf). exact Hn.
Qed.

(** C4.  Slot reuse is LIFO.  With [NPar_Inactive > 0], [AddOneParticle]
    gives the new particle the id on top of [InactiveParList], the one at
    index [NPar_Inactive - 1], and decrements [NPar_Inactive]; and for a
    valid id, [RemoveOneParticle] of that id followed at once by
    [AddOneParticle] puts the new particle in the slot of that id. *)
Theorem slot_reuse_is_LIFO (p : Particle_t) (NewVar NewPassive : list Float.real) (lvA : Z)
    (dens vol : Float.double) :
  wf p -> new_data NewVar NewPassive -> level lvA ->
  (0 < NPar_Inactive p ->
   exists top p0 p' d',
     load (InactiveParList p) (NPar_Inactive p - 1) = Some top
     /\ AddOneParticle_target p = Done (top, p0)
     /\ AddOneParticle p (Some NewVar) (Some NewPassive) lvA (Some dens) vol
        = Done (p', d')
     /\ slot p' top = Some (NewVar, NewPassive)
     /\ NPar_Inactive p' = NPar_Inactive p - 1)
  /\ (forall (ParID : Z) (Marker : Float.real) (lv : Z) (AveDens : option Float.double) (volR : Float.double),
        0 <= ParID < NPar_AcPlusInac p -> marker Marker ->
        lv = Macro.NULL_INT \/ level lv -> may_remove p ->
        exists p1 d1 p0 p2 d2,
          RemoveOneParticle p ParID Marker lv AveDens volR = Done (p1, d1)
          /\ AddOneParticle_target p1 = Done (ParID, p0)
          /\ AddOneParticle p1 (Some NewVar) (Some NewPassive) lvA (Some dens) vol
             = Done (p2, d2)
          /\ slot p2 ParID = Some (NewVar, NewPassive)
          /\ NPar_Inactive p2 = NPar_Inactive p).
Proof.
  intros Hwf Hnew HlvA. split.
  - intros Hn.
    destruct (Add_spec p NewVar NewPassive lvA dens vol) as
      (id & p0 & p' & mass & Htarget & _ & Hadd & _ & _ & _ & _ & EI & _ & _ & Hslot & _);
      try assumption.
    { left. exact Hn. }
    apply target_Done in Htarget as Ht.
    destruct Ht as [(_ & Htop & _ & ->)|[(? & _)|(? & _)]]; try lia.
    exists id, (set_NPar_Inactive (NPar_Inactive p - 1) p), p'. eexists.
    split; [exact Htop|]. split; [exact Htarget|]. split; [exact Hadd|].
    split; [exact Hslot|]. exact EI.
  - intros ParID Marker lv AveDens volR Hid Hmk Hlv Hrem.
    destruct (Remove_total p ParID Marker lv AveDens volR) as (p1 & d1 & Hr);
      try assumption.
    pose proof (Remove_wf _ _ _ _ _ _ _ _ Hwf Hid Hrem Hr) as Hwf1.
    apply Remove_Done in Hr as Hd.
    destruct Hd as (_ & _ & HI & _ & _ & Hlist & _).
    pose proof (wf_inactive _ _ _ _ Hwf) as Hin.
    assert (Htop : load (InactiveParList p1) (NPar_Inactive p1 - 1) = Some ParID).
    { rewrite HI. replace (NPar_Inactive p + 1 - 1) with (NPar_Inactive p) by lia.
      destruct Hlist as [(_ & _ & Hs)|(_ & _ & Hs)];
        rewrite (load_store _ _ _ _ _ Hs), bool_decide_eq_true_2; reflexivity. }
    destruct (Add_spec p1 NewVar NewPassive lvA dens vol) as
      (id & p0 & p2 & mass & Htarget & _ & Hadd & _ & _ & _ & _ & EI & _ & _ & Hslot & _);
      try assumption.
    { left. lia. }
    apply target_Done in Htarget as Ht.
    destruct Ht as [(_ & Htop' & _ & ->)|[(? & _)|(? & _)]]; try lia.
    rewrite Htop in Htop'. injection Htop' as <-.
    exists p1, d1, (set_NPar_Inactive (NPar_Inactive p1 - 1) p1), p2. eexists.
    split; [exact Hr|]. split; [exact Htarget|]. split; [exact Hadd|].
    split; [exact Hslot|]. rewrite EI. simpl. lia.
Qed.

(** C5.  [AddOneParticle] called with an empty free list.  When
    [NPar_AcPlusInac == ParListSize] and [ParListSize < 1952257860], every
    buffer of [ParVar] and [Passive] is resized to the new [ParListSize],
    which is [(int)ceil( 1.1*(ParListSize+1) )] as binary64 evaluates it:
    the ceiling of [11*(ParListSize+1)/10] when [ParListSize+1] is not a
    multiple of 10, and that value or one more when it is; the cells of
    the old buffers keep their values; the new particle gets the id
    [NPar_AcPlusInac], and [NPar_AcPlusInac] grows by one.  From
    [ParListSize = 1952257860] on the cast to [int] is undefined, and so is
    the call.  When [NPar_AcPlusInac < ParListSize] the sizes do not
    change. *)
Theorem capacity_growth (p : Particle_t) (NewVar NewPassive : list Float.real) (lv : Z)
    (dens vol : Float.double) :
  wf p -> new_data NewVar NewPassive -> level lv ->
  NPar_Inactive p = 0 ->
  (NPar_AcPlusInac p = ParListSize p -> ParListSize p < Resize.limit ->
   exists p0 p' d',
     AddOneParticle p (Some NewVar) (Some NewPassive) lv (Some dens) vol = Done (p', d')
     /\ Resize.grow (ParListSize p) = Some (ParListSize p')
     /\ 11 * (ParListSize p + 1) <= 10 * ParListSize p'
        <= 11 * (ParListSize p + 1) + 10
     /\ ((ParListSize p + 1) mod 10 <> 0 ->
         ParListSize p' = (11 * (ParListSize p + 1) + 9) / 10)
     /\ ParListSize p < ParListSize p'
     /\ Forall (fun buf => Z.of_nat (length buf) = ParListSize p')
               (ParVar p' ++ Passive p')
     /\ (forall v i, 0 <= i < ParListSize p ->
           cell (ParVar p') v i = cell (ParVar p) v i
           /\ cell (Passive p') v i = cell (Passive p) v i)
     /\ AddOneParticle_target p = Done (NPar_AcPlusInac p, p0)
     /\ slot p' (NPar_AcPlusInac p) = Some (NewVar, NewPassive)
     /\ NPar_AcPlusInac p' = NPar_AcPlusInac p + 1)
  /\ (NPar_AcPlusInac p = ParListSize p -> Resize.limit <= ParListSize p ->
      AddOneParticle p (Some NewVar) (Some NewPassive) lv (Some dens) vol = Undef)
  /\ (NPar_AcPlusInac p < ParListSize p ->
      exists p0 p' d',
        AddOneParticle p (Some NewVar) (Some NewPassive) lv (Some dens) vol = Done (p', d')
        /\ ParListSize p' = ParListSize p
        /\ Forall (fun buf => Z.of_nat (length buf) = ParListSize p)
                  (ParVar p' ++ Passive p')
        /\ (forall v i, i <> NPar_AcPlusInac p ->
              cell (ParVar p') v i = cell (ParVar p) v i
              /\ cell (Passive p') v i = cell (Passive p) v i)
        /\ AddOneParticle_target p = Done (NPar_AcPlusInac p, p0)
        /\ slot p' (NPar_AcPlusInac p) = Some (NewVar, NewPassive)
        /\ NPar_AcPlusInac p' = NPar_AcPlusInac p + 1).
Proof.
  intros Hwf Hnew Hlv Hn.
  pose proof (wf_ParVar_size _ _ _ _ Hwf) as HVs.
  pose proof (wf_Passive_size _ _ _ _ Hwf) as HPs.
  pose proof (wf_slots _ _ _ _ Hwf) as Hslots.
  split; [|split].
  2:{ intros Hfull Hlim. unfold Particle.AddOneParticle.
      rewrite (debug_check_pass (_ <? _)), bind_Done_l
        by (intros _; apply Z.ltb_ge; lia).
      rewrite (debug_check_pass (bool_decide (Some NewVar = None))), bind_Done_l
        by (intros _; apply bool_decide_eq_false_2; discriminate).
      rewrite (debug_check_pass (_ && _)), bind_Done_l
        by (intros _; apply andb_false_iff; right; apply bool_decide_eq_false_2;
            discriminate).
      rewrite (debug_check_pass (bool_decide _)), bind_Done_l
        by (intros _; apply bool_decide_eq_false_2; discriminate).
      unfold Particle.AddOneParticle_target.
      rewrite gtb_false, geb_true by lia.
      rewrite ResizeFacts.grow_overflows by lia. reflexivity. }
  - intros Hfull Hlim.
    destruct (Add_spec p NewVar NewPassive lv dens vol) as
      (id & p0 & p' & mass & Htarget & _ & Hadd & Hwf' & _ & ES & ET & _ & _ & _
       & Hslot & Hcells); try assumption.
    { right. right. exact Hlim. }
    apply target_Done in Htarget as Ht.
    destruct Ht as [(? & _)|[(_ & -> & _ & size & Hg & ->)|(_ & _ & ? & _)]]; try lia.
    simpl in ES, ET, Hcells.
    destruct (ResizeFacts.grow_bounds (ParListSize p)) as (size' & Hg' & Hsize).
    { pose proof (wf_slots _ _ _ _ Hwf). lia. }
    rewrite Hg in Hg'. injection Hg' as <-.
    pose proof (ResizeFacts.grow_rounding (ParListSize p) size ltac:(lia) Hg) as Hround.
    eexists _, p', _. split; [exact Hadd|]. rewrite ES.
    split; [exact Hg|]. split; [exact Hround|]. split.
    { apply ResizeFacts.grow_exact_ceiling; [lia|exact Hg]. }
    split; [lia|]. split.
    { rewrite <- ES. apply Forall_app. split;
        [apply (wf_ParVar_size _ _ _ _ Hwf')|apply (wf_Passive_size _ _ _ _ Hwf')]. }
    split.
    { intros v i Hi. destruct (Hcells v i) as [-> ->]; [lia|].
      split; apply (cell_realloc _ _ (ParListSize p)); try assumption; lia. }
    split; [exact Htarget|]. split; [exact Hslot|]. exact ET.
  - intros Hroom.
    destruct (Add_spec p NewVar NewPassive lv dens vol) as
      (id & p0 & p' & mass & Htarget & _ & Hadd & Hwf' & _ & ES & ET & _ & _ & _
       & Hslot & Hcells); try assumption.
    { right. left. exact Hroom. }
    apply target_Done in Htarget as Ht.
    destruct Ht as [(? & _)|[(_ & _ & ? & _)|(_ & -> & _ & ->)]]; try lia.
    simpl in ES, ET, Hcells.
    eexists _, p', _. split; [exact Hadd|]. split; [exact ES|]. split.
    { rewrite <- ES. apply Forall_app. split;
        [apply (wf_ParVar_size _ _ _ _ Hwf')|apply (wf_Passive_size _ _ _ _ Hwf')]. }
    split; [exact Hcells|]. split; [exact Htarget|]. split; [exact Hslot|]. exact ET.
Qed.

(** C6.  [RemoveOneParticle] does not check that the slot is active.
    For every id in [[0, NPar_AcPlusInac)], whatever the mass of the slot,
    the call returns, pushes the id on [InactiveParList], decrements
    [NPar_Active] and increments [NPar_Inactive]; removing the same id
    again, when its mass is already the marker, returns and does the
    same once more. *)
Theorem double_removal_is_unguarded (p : Particle_t) (ParID : Z) (Marker : Float.real) (lv : Z)
    (AveDens AveDens2 : option Float.double) (vol : Float.double) :
  wf p -> 0 <= ParID < NPar_AcPlusInac p -> marker Marker ->
  lv = Macro.NULL_INT \/ level lv -> InactiveParListSize p < Resize.limit ->
  exists p1 d1 p2 d2,
    RemoveOneParticle p ParID Marker lv AveDens vol = Done (p1, d1)
    /\ load (InactiveParList p1) (NPar_Inactive p) = Some ParID
    /\ NPar_Active p1 = NPar_Active p - 1
    /\ NPar_Inactive p1 = NPar_Inactive p + 1
    /\ load (Mass p1) ParID = Some Marker
    /\ RemoveOneParticle p1 ParID Marker lv AveDens2 vol = Done (p2, d2)
    /\ load (InactiveParList p2) (NPar_Inactive p) = Some ParID
    /\ load (InactiveParList p2) (NPar_Inactive p + 1) = Some ParID
    /\ NPar_Active p2 = NPar_Active p - 2
    /\ NPar_Inactive p2 = NPar_Inactive p + 2.
Proof.
  intros Hwf Hid Hmk Hlv Hlim.
  assert (Hrem : may_remove p) by (right; exact Hlim).
  destruct (Remove_total p ParID Marker lv AveDens vol) as (p1 & d1 & Hr1);
    try assumption.
  pose proof (Remove_wf _ _ _ _ _ _ _ _ Hwf Hid Hrem Hr1) as Hwf1.
  apply Remove_Done in Hr1 as Hd1.
  destruct Hd1 as ((_ & _ & ET & _) & HA & HI & (HParID & HV) & _ & Hlist & _).
  pose proof (wf_inactive _ _ _ _ Hwf) as Hin.
  pose proof (wf_list_size _ _ _ _ Hwf) as Hls.
  assert (Hpush : load (InactiveParList p1) (NPar_Inactive p) = Some ParID).
  { destruct Hlist as [(_ & _ & Hs)|(_ & _ & Hs)];
      rewrite (load_store _ _ _ _ _ Hs), bool_decide_eq_true_2; reflexivity. }
  assert (Hrem1 : may_remove p1).
  { unfold may_remove. rewrite HI.
    destruct Hlist as [(_ & -> & _)|(Hge & Hg & _)]; [right; exact Hlim|left].
    destruct (ResizeFacts.grow_bounds (InactiveParListSize p)) as (size & Hg' & Hsize);
      [lia|].
    rewrite Hg in Hg'. injection Hg' as <-. lia. }
  assert (Hmass : load (Mass p1) ParID = Some Marker).
  { unfold Mass at 1. rewrite load_attribute, HV. unfold cell.
    rewrite list_lookup_insert_eq.
    - simpl. erewrite load_store by (apply store_in_range; exact HParID).
      rewrite bool_decide_eq_true_2; reflexivity.
    - rewrite (wf_ParVar _ _ _ _ Hwf). pose proof NPAR_VAR_pos.
      unfold Macro.PAR_MASS, Macro.PAR_TIME in *. lia. }
  destruct (Remove_total p1 ParID Marker lv AveDens2 vol) as (p2 & d2 & Hr2);
    try assumption; [lia|].
  apply Remove_Done in Hr2 as Hd2.
  destruct Hd2 as (_ & HA2 & HI2 & _ & _ & Hlist2 & _).
  exists p1, d1, p2, d2.
  split; [exact Hr1|]. split; [exact Hpush|]. split; [exact HA|]. split; [exact HI|].
  split; [exact Hmass|]. split; [exact Hr2|].
  pose proof (wf_list_size _ _ _ _ Hwf1) as Hls1.
  pose proof (wf_inactive _ _ _ _ Hwf1) as Hin1.
  split; [|split; [|split; lia]].
  - destruct Hlist2 as [(_ & _ & Hs)|(_ & _ & Hs)];
      rewrite (load_store _ _ _ _ _ Hs), bool_decide_eq_false_2 by lia;
      [exact Hpush|].
    rewrite load_realloc; [exact Hpush|lia|].
    apply store_Some in Hs as [Hs _]. rewrite length_realloc in Hs. lia.
  - rewrite <- HI.
    destruct Hlist2 as [(_ & _ & Hs)|(_ & _ & Hs)];
      rewrite (load_store _ _ _ _ _ Hs), bool_decide_eq_true_2; reflexivity.
Qed.

(** C8.  In the checked build ([DEBUG_PARTICLE] defined), on a consistent
    pool, [RemoveOneParticle] aborts exactly when a precondition is
    violated: with "Wrong ParID" when [ParID < 0] or
    [ParID >= NPar_AcPlusInac]; with "Unsupported Marker" when the id is in
    range and [Marker] is neither [PAR_INACTIVE_OUTSIDE] nor
    [PAR_INACTIVE_MPI]; for an id in range with one of the two markers the
    checks pass and the removal is made. *)
Theorem Remove_checks_its_arguments (p : Particle_t) (ParID : Z) (Marker : Float.real) (lv : Z)
    (AveDens : option Float.double) (vol : Float.double) :
  DEBUG_PARTICLE = true ->
  wf p -> lv = Macro.NULL_INT \/ level lv -> may_remove p ->
  (~ 0 <= ParID < NPar_AcPlusInac p ->
   RemoveOneParticle p ParID Marker lv AveDens vol = Abort Wrong_ParID)
  /\ (0 <= ParID < NPar_AcPlusInac p -> ~ marker Marker ->
      RemoveOneParticle p ParID Marker lv AveDens vol = Abort Unsupported_Marker)
  /\ (0 <= ParID < NPar_AcPlusInac p -> marker Marker ->
      exists p' d',
        RemoveOneParticle p ParID Marker lv AveDens vol = Done (p', d')
        /\ load (Mass p') ParID = Some Marker
        /\ load (InactiveParList p') (NPar_Inactive p) = Some ParID)
  /\ ((exists e, RemoveOneParticle p ParID Marker lv AveDens vol = Abort e)
      <-> ~ 0 <= ParID < NPar_AcPlusInac p \/ ~ marker Marker).
Proof.
  intros Hdbg Hwf Hlv Hrem.
  assert (Hwrong : ~ 0 <= ParID < NPar_AcPlusInac p ->
            RemoveOneParticle p ParID Marker lv AveDens vol = Abort Wrong_ParID).
  { intros Hid. unfold Particle.RemoveOneParticle, Particle.debug_check.
    rewrite Hdbg.
    destruct ((ParID <? 0) || (ParID >=? NPar_AcPlusInac p)) eqn:E; [reflexivity|].
    apply id_check in E. tauto. }
  assert (Hmarker : 0 <= ParID < NPar_AcPlusInac p -> ~ marker Marker ->
            RemoveOneParticle p ParID Marker lv AveDens vol = Abort Unsupported_Marker).
  { intros Hid Hmk. unfold Particle.RemoveOneParticle, Particle.debug_check.
    rewrite Hdbg. apply id_check in Hid. rewrite Hid. simpl.
    destruct (negb (Float.eqb Marker Macro.PAR_INACTIVE_OUTSIDE)
              && negb (Float.eqb Marker Macro.PAR_INACTIVE_MPI)) eqn:E; [reflexivity|].
    apply marker_check in E. tauto. }
  assert (Hpass : 0 <= ParID < NPar_AcPlusInac p -> marker Marker ->
            exists p' d',
              RemoveOneParticle p ParID Marker lv AveDens vol = Done (p', d')
              /\ load (Mass p') ParID = Some Marker
              /\ load (InactiveParList p') (NPar_Inactive p) = Some ParID).
  { intros Hid Hmk.
    destruct (Remove_total p ParID Marker lv AveDens vol) as (p' & d' & Hr);
      try assumption.
    exists p', d'. split; [exact Hr|].
    apply Remove_Done in Hr as (_ & _ & _ & (HParID & HV) & _ & Hlist & _).
    split.
    - unfold Mass at 1. rewrite load_attribute, HV. unfold cell.
      rewrite list_lookup_insert_eq.
      + simpl. erewrite load_store by (apply store_in_range; exact HParID).
        rewrite bool_decide_eq_true_2; reflexivity.
      + rewrite (wf_ParVar _ _ _ _ Hwf). pose proof NPAR_VAR_pos.
        unfold Macro.PAR_MASS, Macro.PAR_TIME in *. lia.
    - destruct Hlist as [(_ & _ & Hs)|(_ & _ & Hs)];
        rewrite (load_store _ _ _ _ _ Hs), bool_decide_eq_true_2; reflexivity. }
  split; [exact Hwrong|]. split; [exact Hmarker|]. split; [exact Hpass|].
  split.
  - intros [e He].
    destruct (decide (0 <= ParID < NPar_AcPlusInac p)) as [Hid|Hid]; [|now left].
    right. intros Hmk. destruct (Hpass Hid Hmk) as (p' & d' & Hr & _).
    rewrite Hr in He. discriminate.
  - intros [Hid|Hmk].
    + eexists. apply Hwrong, Hid.
    + destruct (decide (0 <= ParID < NPar_AcPlusInac p)) as [Hid|Hid].
      * eexists. apply Hmarker; assumption.
      * eexists. apply Hwrong, Hid.
Qed.

(** C9.  [AddOneParticle] of a particle of mass [m] followed by
    [RemoveOneParticle] of the slot it was given, with the same accumulator
    and factor.  Both calls compute the same product [P = m * _BoxVolume],
    since the removal reads the mass before it overwrites it with the
    marker, and the accumulator [A] becomes [A + P], then [(A + P) - P],
    each operation rounded to [double].  When [A] and [P] are finite and so
    is that value, it differs from [A] by at most [2^-52] times the sizes
    of [A + P] and of itself (all in units of [2^-1074]); it is [A] when
    [A] is [+0.0] and [P] is finite, and when [P] is a zero and [A] a
    finite number that is not a zero. *)
Theorem density_round_trip (p : Particle_t) (NewVar NewPassive : list Float.real) (lvA : Z)
    (A vol : Float.double) (Marker : Float.real) (lv : Z) :
  wf p -> may_add p -> may_remove p ->
  new_data NewVar NewPassive -> level lvA ->
  marker Marker -> lv = Macro.NULL_INT \/ level lv ->
  exists id p0 m p1 p2,
    AddOneParticle_target p = Done (id, p0)
    /\ NewVar !! Macro.PAR_MASS = Some m
    /\ let P := Float.mul m vol in
       let A1 := Float.add A P in
       let A2 := Float.sub A1 P in
       AddOneParticle p (Some NewVar) (Some NewPassive) lvA (Some A) vol
       = Done (p1, Some A1)
       /\ RemoveOneParticle p1 id Marker lv (Some A1) vol = Done (p2, Some A2)
       /\ load (Mass p2) id = Some Marker
       /\ (forall a q,
             Float.units A = Some a -> Float.units P = Some q ->
             Float.is_finite A2 = true ->
             exists a1 a2,
               Float.units A1 = Some a1 /\ Float.units A2 = Some a2
               /\ 2 ^ 52 * Z.abs (a2 - a) <= Z.abs a1 + Z.abs a2)
       /\ (A = S754_zero false -> Float.is_finite P = true -> A2 = A)
       /\ (forall sP s mA eA,
             P = S754_zero sP -> A = S754_finite s mA eA -> A2 = A).
Proof.
  intros Hwf Hadd Hrem Hnew HlvA Hmk Hlv.
  destruct (Add_spec p NewVar NewPassive lvA A vol) as
    (id & p0 & p1 & m & Htarget & Hm & Ha & Hwf1 & Hid & _ & _ & EI & EIS & _
     & Hslot & _); try assumption.
  assert (Hrem1 : may_remove p1).
  { unfold may_remove in *. rewrite EI, EIS.
    apply target_Done in Htarget
      as [(_ & _ & _ & ->)|[(_ & _ & _ & size & _ & ->)|(_ & _ & _ & ->)]];
      simpl; lia. }
  destruct (Remove_total p1 id Marker lv (Some (Float.add A (Float.mul m vol))) vol)
    as (p2 & d2 & Hr); try assumption.
  apply Remove_Done in Hr as Hd.
  destruct Hd as (_ & _ & _ & (HParID & HV) & _ & _ & (mass & Hmass & ->) & _).
  assert (Em : mass = m).
  { unfold slot in Hslot.
    destruct (mapM (fun buf => load buf id) (ParVar p1)) as [vars|] eqn:Evars;
      [|discriminate].
    destruct (mapM (fun buf => load buf id) (Passive p1)) as [passive|];
      [|discriminate].
    injection Hslot as -> _.
    apply mapM_Some_1 in Evars.
    unfold Mass in Hmass. rewrite load_attribute in Hmass. unfold cell in Hmass.
    destruct (ParVar p1 !! Macro.PAR_MASS) as [buf|] eqn:Ebuf; [|discriminate].
    simpl in Hmass.
    destruct (Forall2_lookup_l _ _ _ _ _ Evars Ebuf) as (m' & Hm' & Hload).
    unfold Float.real, Float.double in *. congruence. }
  subst mass.
  exists id, p0, m, p1, p2.
  split; [exact Htarget|]. split; [exact Hm|]. cbv zeta.
  split; [exact Ha|]. split; [exact Hr|]. split.
  { unfold Mass at 1. rewrite load_attribute, HV. unfold cell.
    rewrite list_lookup_insert_eq.
    - simpl. erewrite load_store by (apply store_in_range; exact HParID).
      rewrite bool_decide_eq_true_2; reflexivity.
    - rewrite (wf_ParVar _ _ _ _ Hwf1). pose proof NPAR_VAR_pos.
      unfold Macro.PAR_MASS, Macro.PAR_TIME in *. lia. }
  split; [|split].
  - intros a q. apply FloatFacts.round_trip_tolerance.
  - intros -> HP. apply FloatFacts.sub_add_zero. exact HP.
  - intros sP s mA eA -> ->. reflexivity.
Qed.

(** C10, amended.  A call of [RemoveOneParticle] that returns leaves
    every cell of every buffer of [ParVar] and [Passive] as it was, except
    [Mass[ParID]], which holds [Marker]: position, velocity, time and
    passive data of the removed slot are not cleared.  Of the other
    members it changes [NPar_Active], [NPar_Inactive], [NPar_Lv[lv]] (when
    [lv] is not [NULL_INT]), the entry [InactiveParList[NPar_Inactive]]
    and, when the free list is full ([NPar_Inactive >=
    InactiveParListSize]), [InactiveParListSize], which becomes
    [(int)ceil( 1.1*(InactiveParListSize+1) )] while the list is
    reallocated with its entries kept.  Outside the pool it writes the
    accumulator [*AveDens], when one is passed. *)
Theorem Remove_frame (p p' : Particle_t) (ParID : Z) (Marker : Float.real) (lv : Z)
    (AveDens d' : option Float.double) (vol : Float.double) :
  RemoveOneParticle p ParID Marker lv AveDens vol = Done (p', d') ->
  (forall v i, (v, i) <> (Macro.PAR_MASS, ParID) ->
               cell (ParVar p') v i = cell (ParVar p) v i)
  /\ cell (ParVar p') Macro.PAR_MASS ParID = Some Marker
  /\ Passive p' = Passive p
  /\ (ParListSize p' = ParListSize p
      /\ NPar_Active_AllRank p' = NPar_Active_AllRank p
      /\ NPar_AcPlusInac p' = NPar_AcPlusInac p
      /\ Init p' = Init p /\ Interp p' = Interp p /\ Integ p' = Integ p
      /\ SyncDump p' = SyncDump p /\ ImproveAcc p' = ImproveAcc p
      /\ PredictPos p' = PredictPos p /\ RemoveCell p' = RemoveCell p
      /\ GhostSize p' = GhostSize p)
  /\ NPar_Active p' = NPar_Active p - 1
  /\ NPar_Inactive p' = NPar_Inactive p + 1
  /\ (forall l, l <> lv \/ lv = Macro.NULL_INT ->
                load (NPar_Lv p') l = load (NPar_Lv p) l)
  /\ (lv <> Macro.NULL_INT ->
      exists count, load (NPar_Lv p) lv = Some count
                    /\ load (NPar_Lv p') lv = Some (count - 1))
  /\ load (InactiveParList p') (NPar_Inactive p) = Some ParID
  /\ (forall i, i < Z.of_nat (length (InactiveParList p)) ->
                i < Z.of_nat (length (InactiveParList p')) -> i <> NPar_Inactive p ->
                load (InactiveParList p') i = load (InactiveParList p) i)
  /\ (NPar_Inactive p < InactiveParListSize p ->
      InactiveParListSize p' = InactiveParListSize p
      /\ length (InactiveParList p') = length (InactiveParList p))
  /\ (InactiveParListSize p <= NPar_Inactive p ->
      Resize.grow (InactiveParListSize p) = Some (InactiveParListSize p')
      /\ Z.of_nat (length (InactiveParList p')) = Z.max 0 (InactiveParListSize p'))
  /\ match AveDens with
     | Some dens => exists mass, load (Mass p) ParID = Some mass
                                 /\ d' = Some (Float.sub dens (Float.mul mass vol))
     | None => d' = None
     end.
Proof.
  intros H. apply Remove_Done in H
    as (Hsame & HA & HI & (HParID & HV) & HLv & Hlist & Hdens & _).
  split.
  { intros v i Hne. rewrite HV. unfold cell.
    destruct (decide (v = Macro.PAR_MASS)) as [->|Hv].
    - destruct (ParVar p !! Macro.PAR_MASS) as [buf|] eqn:Ebuf.
      + rewrite list_lookup_insert_eq by (eapply lookup_lt_Some; exact Ebuf).
        simpl. unfold Mass, attribute. rewrite Ebuf. simpl.
        erewrite load_store; [|apply store_in_range].
        * rewrite bool_decide_eq_false_2; [reflexivity|congruence].
        * unfold Mass, attribute in HParID. rewrite Ebuf in HParID. exact HParID.
      + rewrite list_insert_ge by (apply lookup_ge_None; exact Ebuf).
        rewrite Ebuf. reflexivity.
    - rewrite list_lookup_insert_ne by congruence. reflexivity. }
  split.
  { rewrite HV. unfold cell.
    destruct (ParVar p !! Macro.PAR_MASS) as [buf|] eqn:Ebuf.
    - rewrite list_lookup_insert_eq by (eapply lookup_lt_Some; exact Ebuf).
      simpl. erewrite load_store by (apply store_in_range; exact HParID).
      rewrite bool_decide_eq_true_2; reflexivity.
    - unfold Mass, attribute in HParID. rewrite Ebuf in HParID. simpl in HParID. lia. }
  split; [tauto|]. split; [tauto|]. split; [exact HA|]. split; [exact HI|].
  split.
  { intros l Hl. destruct HLv as [[_ ->]|(Hlv & count & _ & Hs)]; [reflexivity|].
    rewrite (load_store _ _ _ _ _ Hs), bool_decide_eq_false_2; [reflexivity|tauto]. }
  split.
  { intros Hlv. destruct HLv as [[? _]|(_ & count & Hc & Hs)]; [tauto|].
    exists count. split; [exact Hc|].
    rewrite (load_store _ _ _ _ _ Hs), bool_decide_eq_true_2; reflexivity. }
  split.
  { destruct Hlist as [(_ & _ & Hs)|(_ & _ & Hs)];
      rewrite (load_store _ _ _ _ _ Hs), bool_decide_eq_true_2; reflexivity. }
  split.
  { intros i Hi Hi' Hne.
    destruct Hlist as [(_ & _ & Hs)|(_ & _ & Hs)];
      rewrite (load_store _ _ _ _ _ Hs), bool_decide_eq_false_2 by exact Hne;
      [reflexivity|].
    apply store_Some in Hs as [_ Hs]. rewrite Hs, length_insert, length_realloc in Hi'.
    destruct (Z.lt_ge_cases i 0) as [Hneg|Hpos].
    - unfold load. replace (0 <=? i) with false by (symmetry; apply Z.leb_gt; exact Hneg).
      reflexivity.
    - apply load_realloc; lia. }
  split.
  { intros Hlt. destruct Hlist as [(_ & E & Hs)|(? & _)]; [|lia].
    split; [exact E|]. apply store_Some in Hs as [_ ->]. apply length_insert. }
  split; [|exact Hdens].
  intros Hge. destruct Hlist as [(? & _)|(_ & Hg & Hs)]; [lia|].
  split; [exact Hg|]. apply store_Some in Hs as [_ ->].
  rewrite length_insert, length_realloc. lia.
Qed.

(** ** Further properties of the methods *)

(** A call that returns had room: the resize rule, where the call went
    through it, had a value. *)
Lemma Remove_Done_room (p p' : Particle_t) (ParID : Z) (Marker : Float.real) (lv : Z)
    (AveDens d' : option Float.double) (vol : Float.double) :
  RemoveOneParticle p ParID Marker lv AveDens vol = Done (p', d') -> may_remove p.
Proof.
  intros H. apply Remove_Done in H as (_ & _ & _ & _ & _ & Hlist & _).
  unfold may_remove.
  destruct Hlist as [(Hlt & _)|(_ & Hg & _)]; [left; exact Hlt|right].
  eapply ResizeFacts.grow_Some_below, Hg.
Qed.

Lemma Add_Done_room (p p' : Particle_t) (NewVar NewPassive : option (list Float.real)) (lv : Z)
    (AveDens d' : option Float.double) (vol : Float.double) :
  AddOneParticle p NewVar NewPassive lv AveDens vol = Done (p', d') -> may_add p.
Proof.
  intros H. apply Add_Done in H as (id & p0 & mass & dens & count & Ht & _).
  unfold may_add.
  apply target_Done in Ht
    as [(Hn & _)|[(_ & _ & _ & size & Hg & _)|(_ & _ & Hs & _)]].
  - left. exact Hn.
  - right. right. eapply ResizeFacts.grow_Some_below, Hg.
  - right. left. exact Hs.
Qed.

Lemma call_wf (c : Call) (s s' : Particle_t * Float.double) :
  DEBUG_PARTICLE = true -> wf s.1 -> call c s = Done s' -> wf s'.1.
Proof.
  intros Hdbg Hwf.
  destruct c as [NV NP lv dens vol|id mk lv dens vol]; simpl; intros H;
    apply bind_Done in H as ([p' d'] & Hcall & H); injection H as <-; simpl.
  - eapply Add_wf; [exact Hwf| |exact Hcall]. eapply Add_Done_room, Hcall.
  - eapply Remove_wf; [exact Hwf| | |exact Hcall].
    + apply Remove_Done in Hcall as (_ & _ & _ & _ & _ & _ & _ & Hchk).
      apply Hchk, Hdbg.
    + eapply Remove_Done_room, Hcall.
Qed.

(** X4.  In the build with [DEBUG_PARTICLE], consistency is an invariant of
    the pool: whatever the calls and their arguments, a run that starts in a
    consistent pool and returns leaves a consistent pool, and so does every
    part of it.  No assumption on the sizes: a call that has to resize a
    list the resize rule has no value for does not return. *)
Theorem checked_run_keeps_wf (cs1 cs2 : list Call) (s s' : Particle_t * Float.double) :
  DEBUG_PARTICLE = true -> wf s.1 ->
  run (cs1 ++ cs2) s = Done s' ->
  wf s'.1 /\ exists s1, run cs1 s = Done s1 /\ wf s1.1.
Proof.
  intros Hdbg.
  assert (Hrun : forall cs t t', wf t.1 -> run cs t = Done t' -> wf t'.1).
  { induction cs as [|c cs IH]; intros t t' Hwf H; simpl in H.
    - injection H as <-. exact Hwf.
    - apply bind_Done in H as (t1 & Hcall & H).
      eapply IH; [|exact H]. eapply call_wf; eassumption. }
  intros Hwf H. split; [eapply Hrun; eassumption|].
  apply run_app in H as (s1 & H1 & _). exists s1. split; [exact H1|].
  eapply Hrun; eassumption.
Qed.

Lemma call_sizes (c : Call) (s s' : Particle_t * Float.double) :
  call c s = Done s' ->
  (0 <= ParListSize s.1 -> ParListSize s.1 <= ParListSize s'.1)
  /\ (0 <= InactiveParListSize s.1 ->
      InactiveParListSize s.1 <= InactiveParListSize s'.1)
  /\ NPar_AcPlusInac s.1 <= NPar_AcPlusInac s'.1 <= NPar_AcPlusInac s.1 + View.adds [c]
  /\ NPar_Active s'.1 = NPar_Active s.1 + View.net [c].
Proof.
  destruct c as [NV NP lv dens vol|id mk lv dens vol]; simpl; intros H;
    apply bind_Done in H as ([p' d'] & Hcall & H); injection H as <-; simpl.
  - apply Add_Done in Hcall
      as (id & p0 & mass & dens0 & count & Ht
          & (E1 & E2 & _ & E4 & _) & EA & _).
    pose proof (target_counters _ _ _ Ht) as (EA0 & _ & _).
    rewrite E1, E2, E4, EA, EA0.
    apply target_Done in Ht
      as [(_ & _ & _ & ->)|[(_ & _ & _ & size & Hg & ->)|(_ & _ & _ & ->)]]; simpl.
    + lia.
    + split; [|lia]. intros H0.
      pose proof (ResizeFacts.grow_Some_bounds _ _ H0 Hg). lia.
    + lia.
  - apply Remove_Done in Hcall
      as ((E1 & _ & E3 & _) & EA & _ & _ & _ & Hlist & _).
    rewrite E1, E3, EA.
    split; [lia|]. split; [|lia]. intros H0.
    destruct Hlist as [(_ & -> & _)|(_ & Hg & _)]; [lia|].
    pose proof (ResizeFacts.grow_Some_bounds _ _ H0 Hg). lia.
Qed.

(** X5.  The lists of a pool never shrink.  Along every run, in either
    build, [ParListSize] and [InactiveParListSize] do not decrease (the
    header defines [PARLIST_REDUCE_FACTOR], no method uses it), and ids are
    never given back: [NPar_AcPlusInac] does not decrease and grows by at
    most one per call of [AddOneParticle]. *)
Theorem run_never_shrinks (cs : list Call) (s s' : Particle_t * Float.double) :
  0 <= ParListSize s.1 -> 0 <= InactiveParListSize s.1 ->
  run cs s = Done s' ->
  ParListSize s.1 <= ParListSize s'.1
  /\ InactiveParListSize s.1 <= InactiveParListSize s'.1
  /\ NPar_AcPlusInac s.1 <= NPar_AcPlusInac s'.1 <= NPar_AcPlusInac s.1 + View.adds cs.
Proof.
  revert s. induction cs as [|c cs IH]; intros s HP HI H; simpl in H.
  - injection H as <-. simpl. lia.
  - apply bind_Done in H as (s1 & Hcall & H).
    apply call_sizes in Hcall as (H1 & H2 & H3 & _).
    specialize (H1 HP). specialize (H2 HI).
    apply IH in H; [|lia..]. simpl in *. lia.
Qed.

(** X6.  [NPar_Active] is pure bookkeeping of the calls: after a run that
    returns it has changed by the number of calls of [AddOneParticle]
    minus the number of calls of [RemoveOneParticle], whatever slots the
    removals named (a slot removed twice is counted twice). *)
Theorem active_count_is_net (cs : list Call) (s s' : Particle_t * Float.double) :
  run cs s = Done s' -> NPar_Active s'.1 = NPar_Active s.1 + View.net cs.
Proof.
  revert s. induction cs as [|c cs IH]; intros s H; simpl in H.
  - injection H as <-. simpl. lia.
  - apply bind_Done in H as (s1 & Hcall & H).
    apply call_sizes in Hcall as (_ & _ & _ & H1).
    apply IH in H. simpl in *. lia.
Qed.

(** X7.  The free list is a stack.  On a consistent pool a call of
    [RemoveOneParticle] that returns pushes its id on the ids waiting for
    reuse and leaves the others in place; a call of [AddOneParticle] that
    returns pops the id it uses, or finds no id waiting and takes the id
    [NPar_AcPlusInac]. *)
Theorem free_list_is_a_stack (p : Particle_t) :
  wf p ->
  (forall ParID Marker lv AveDens vol p' d',
      RemoveOneParticle p ParID Marker lv AveDens vol = Done (p', d') ->
      View.free_list p' = View.free_list p ++ [ParID])
  /\ (forall NewVar NewPassive lv AveDens vol p' d',
        AddOneParticle p NewVar NewPassive lv AveDens vol = Done (p', d') ->
        exists id p0,
          AddOneParticle_target p = Done (id, p0)
          /\ (View.free_list p = View.free_list p' ++ [id]
              \/ View.free_list p = [] /\ View.free_list p' = []
                 /\ id = NPar_AcPlusInac p)).
Proof.
  intros Hwf.
  pose proof (wf_inactive _ _ _ _ Hwf) as Hin.
  pose proof (wf_list_size _ _ _ _ Hwf) as Hls.
  unfold View.free_list. split.
  - intros ParID Marker lv AveDens vol p' d' H.
    apply Remove_Done in H as (_ & _ & HI & _ & _ & Hlist & _).
    rewrite HI.
    replace (Z.to_nat (NPar_Inactive p + 1)) with (S (Z.to_nat (NPar_Inactive p))) by lia.
    destruct Hlist as [(? & _ & [Hr ->]%store_Some)|(? & Hg & [Hr ->]%store_Some)].
    + erewrite take_S_r by (apply list_lookup_insert_eq; lia).
      rewrite take_insert_ge by lia. reflexivity.
    + erewrite take_S_r by (apply list_lookup_insert_eq; lia).
      rewrite take_insert_ge by lia. rewrite length_realloc in Hr.
      rewrite take_realloc by lia. reflexivity.
  - intros NewVar NewPassive lv AveDens vol p' d' H.
    apply Add_Done in H
      as (id & p0 & mass & dens & count & Ht
          & (_ & _ & _ & _ & E5 & _ & _ & _ & _ & _ & _ & _ & _ & E14) & _).
    exists id, p0. split; [exact Ht|]. rewrite E5, E14.
    apply target_Done in Ht
      as [(Hn & Hid & _ & ->)|[(Hn & -> & _ & size & _ & ->)|(Hn & -> & _ & ->)]];
      simpl.
    + left. apply load_Some in Hid as [H0 Hid].
      replace (Z.to_nat (NPar_Inactive p)) with (S (Z.to_nat (NPar_Inactive p - 1)))
        by lia.
      erewrite take_S_r by exact Hid. reflexivity.
    + right. replace (Z.to_nat (NPar_Inactive p)) with 0%nat by lia. tauto.
    + right. replace (Z.to_nat (NPar_Inactive p)) with 0%nat by lia. tauto.
Qed.

(** X8.  What a call of [AddOneParticle] that returns on a consistent pool
    has touched: the slot of the id it chose, which holds the data passed
    in every buffer; the count of the level; [NPar_Active].  Every other
    slot of every buffer, reallocated or not, holds what it held; the free
    list and the settings of the pool are the ones before the call. *)
Theorem Add_frame (p p' : Particle_t) (NewVar NewPassive : option (list Float.real)) (lv : Z)
    (AveDens d' : option Float.double) (vol : Float.double) :
  wf p ->
  AddOneParticle p NewVar NewPassive lv AveDens vol = Done (p', d') ->
  exists id p0,
    AddOneParticle_target p = Done (id, p0)
    /\ 0 <= id < NPar_AcPlusInac p'
    /\ (forall v i, i <> id -> i < ParListSize p ->
          cell (ParVar p') v i = cell (ParVar p) v i
          /\ cell (Passive p') v i = cell (Passive p) v i)
    /\ (forall v, (v < NPAR_VAR)%nat ->
          is_Some (default [] NewVar !! v)
          /\ cell (ParVar p') v id = default [] NewVar !! v)
    /\ (forall v, (v < NPAR_PASSIVE)%nat ->
          is_Some (default [] NewPassive !! v)
          /\ cell (Passive p') v id = default [] NewPassive !! v)
    /\ (InactiveParListSize p' = InactiveParListSize p
        /\ InactiveParList p' = InactiveParList p
        /\ NPar_Active_AllRank p' = NPar_Active_AllRank p
        /\ Init p' = Init p /\ Interp p' = Interp p /\ Integ p' = Integ p
        /\ SyncDump p' = SyncDump p /\ ImproveAcc p' = ImproveAcc p
        /\ PredictPos p' = PredictPos p /\ RemoveCell p' = RemoveCell p
        /\ GhostSize p' = GhostSize p)
    /\ NPar_Active p' = NPar_Active p + 1
    /\ (forall l, l <> lv -> load (NPar_Lv p') l = load (NPar_Lv p) l)
    /\ (exists count, load (NPar_Lv p) lv = Some count
                      /\ load (NPar_Lv p') lv = Some (count + 1)).
Proof.
  intros Hwf H.
  pose proof (Add_Done_room _ _ _ _ _ _ _ _ H) as Hroom.
  apply Add_Done in H
    as (id & p0 & mass & dens & count & Ht
        & (E1 & E2 & E3 & E4 & E5 & E6 & E7 & E8 & E9 & E10 & E11 & E12 & E13 & E14)
        & HA & HV & HP & _ & _ & _ & Hc & HL).
  destruct (target_wf p p0 id Hwf Hroom Ht) as [Hwf0 Hid].
  pose proof (target_counters _ _ _ Ht) as (EA0 & EL0 & _).
  exists id, p0. split; [exact Ht|]. split; [rewrite E4; exact Hid|].
  apply record_Some in HV as (HV & HVl & HVr).
  apply record_Some in HP as (HP & HPl & HPr).
  pose proof (wf_ParVar _ _ _ _ Hwf0) as HVn. simpl in HVn.
  pose proof (wf_Passive _ _ _ _ Hwf0) as HPn. simpl in HPn.
  pose proof (wf_slots _ _ _ _ Hwf) as Hslots.
  assert (Hold : forall v i, i < ParListSize p ->
            cell (ParVar p0) v i = cell (ParVar p) v i
            /\ cell (Passive p0) v i = cell (Passive p) v i
            /\ InactiveParListSize p0 = InactiveParListSize p
            /\ InactiveParList p0 = InactiveParList p
            /\ NPar_Active_AllRank p0 = NPar_Active_AllRank p
            /\ Init p0 = Init p /\ Interp p0 = Interp p /\ Integ p0 = Integ p
            /\ SyncDump p0 = SyncDump p /\ ImproveAcc p0 = ImproveAcc p
            /\ PredictPos p0 = PredictPos p /\ RemoveCell p0 = RemoveCell p
            /\ GhostSize p0 = GhostSize p).
  { intros v i Hi.
    apply target_Done in Ht
      as [(_ & _ & _ & ->)|[(_ & _ & _ & size & Hg & ->)|(_ & _ & _ & ->)]];
      simpl; try (repeat split; reflexivity).
    pose proof (ResizeFacts.grow_Some_bounds (ParListSize p) size ltac:(lia) Hg)
      as Hsize.
    rewrite (cell_realloc (ParVar p) size (ParListSize p))
      by (try apply (wf_ParVar_size _ _ _ _ Hwf); lia).
    rewrite (cell_realloc (Passive p) size (ParListSize p))
      by (try apply (wf_Passive_size _ _ _ _ Hwf); lia).
    repeat split; reflexivity. }
  split.
  { intros v i Hne Hi. rewrite HV, HP, !cell_recorded by assumption.
    rewrite !bool_decide_eq_false_2 by exact Hne.
    destruct (Hold v i Hi) as (-> & -> & _). split; reflexivity. }
  split.
  { intros v Hv. rewrite HV, cell_recorded by assumption.
    rewrite bool_decide_eq_true_2 by reflexivity.
    destruct (lookup_lt_is_Some_2 (ParVar p0) v) as [buf ->]; [lia|]. simpl.
    split; [|reflexivity]. apply lookup_lt_is_Some_2. lia. }
  split.
  { intros v Hv. rewrite HP, cell_recorded by assumption.
    rewrite bool_decide_eq_true_2 by reflexivity.
    destruct (lookup_lt_is_Some_2 (Passive p0) v) as [buf ->]; [lia|]. simpl.
    split; [|reflexivity]. apply lookup_lt_is_Some_2. lia. }
  destruct (Hold 0%nat (-1) ltac:(lia))
    as (_ & _ & F1 & F2 & F3 & F4 & F5 & F6 & F7 & F8 & F9 & F10 & F11).
  split; [repeat split; congruence|].
  split; [lia|].
  rewrite EL0 in Hc, HL.
  split.
  - intros l Hl. rewrite (load_store _ _ _ _ _ HL), bool_decide_eq_false_2 by exact Hl.
    reflexivity.
  - exists count. split; [exact Hc|].
    rewrite (load_store _ _ _ _ _ HL), bool_decide_eq_true_2; reflexivity.
Qed.

(** [RemoveOneParticle] returns as soon as its checks pass and the slot, the
    level and the free list are there; the id need not denote a particle. *)
Lemma Remove_returns (p : Particle_t) (ParID : Z) (Marker : Float.real) (lv : Z)
    (AveDens : option Float.double) (vol : Float.double) :
  wf p ->
  (DEBUG_PARTICLE = true -> 0 <= ParID < NPar_AcPlusInac p /\ marker Marker) ->
  0 <= ParID < ParListSize p ->
  lv = Macro.NULL_INT \/ level lv ->
  may_remove p ->
  exists p' d', RemoveOneParticle p ParID Marker lv AveDens vol = Done (p', d').
Proof.
  intros Hwf Hchk Hid Hlv Hlim.
  unfold may_remove in Hlim.
  pose proof (Mass_size p Hwf) as HM.
  pose proof (wf_inactive _ _ _ _ Hwf) as Hin.
  pose proof (wf_list_size _ _ _ _ Hwf) as Hls.
  pose proof (wf_Lv _ _ _ _ Hwf) as HLv.
  pose proof (wf_count _ _ _ _ Hwf) as Hcount.
  cut (finished (RemoveOneParticle p ParID Marker lv AveDens vol) = true).
  { intros [[p' d'] E]%finished_Done. eauto. }
  unfold Particle.RemoveOneParticle.
  rewrite (debug_check_pass (_ || _))
    by (intros Hd; apply id_check; apply (Hchk Hd)). simpl.
  rewrite (debug_check_pass (_ && _))
    by (intros Hd; apply marker_check; apply (Hchk Hd)). simpl.
  match goal with
  | |- context [if NPar_Inactive p >=? InactiveParListSize p then ?a else ?b] =>
      assert (Hroom : exists p1,
        (if NPar_Inactive p >=? InactiveParListSize p then a else b) = Done p1
        /\ ParVar p1 = ParVar p /\ NPar_Inactive p1 = NPar_Inactive p
        /\ NPar_Lv p1 = NPar_Lv p /\ NPar_Active p1 = NPar_Active p
        /\ NPar_AcPlusInac p1 = NPar_AcPlusInac p
        /\ NPar_Inactive p < Z.of_nat (length (InactiveParList p1)))
  end.
  { destruct (Z.lt_ge_cases (NPar_Inactive p) (InactiveParListSize p)) as [Hn|Hn].
    - rewrite geb_false by lia. exists p. repeat (split; [reflexivity|]). lia.
    - rewrite geb_true by lia.
      destruct (ResizeFacts.grow_bounds (InactiveParListSize p)) as (size & Hg & Hsize); [lia|].
      rewrite Hg. simpl. eexists. repeat (split; [reflexivity|]).
      simpl. rewrite length_realloc. lia. }
  destruct Hroom as (p1 & -> & EV & EI & EL & EA & ET & Hlen). simpl.
  rewrite EI, store_in_range by lia. simpl.
  unfold Mass, attribute. simpl. rewrite EV.
  fold (attribute Macro.PAR_MASS p). fold (Mass p).
  destruct (load_in_range (Mass p) ParID) as [mass Hmass]; [lia|].
  rewrite Hmass, store_in_range by lia. simpl.
  assert (Hdens : exists dens,
    match AveDens with
    | Some dens => Done (Some (Float.sub dens (Float.mul mass vol)))
    | None => Done None
    end = Done dens) by (destruct AveDens; eexists; reflexivity).
  destruct Hdens as [dens ->]. simpl.
  rewrite ?EL, ?EA, ?EI, ?ET.
  destruct (decide (lv ≠ Macro.NULL_INT)) as [Elv|Elv].
  - rewrite bool_decide_eq_true_2 by exact Elv.
    destruct Hlv as [?|Hlv]; [tauto|]. unfold Particle.level in Hlv.
    destruct (load_in_range (NPar_Lv p) lv) as [count Hc]; [lia|].
    rewrite Hc. simpl. rewrite store_in_range by lia. simpl.
    rewrite debug_check_pass; [reflexivity|].
    intros _. apply bool_decide_eq_false_2. simpl. lia.
  - rewrite bool_decide_eq_false_2 by exact Elv. simpl.
    rewrite debug_check_pass; [reflexivity|].
    intros _. apply bool_decide_eq_false_2. simpl. lia.
Qed.

(** The calls the checks of [RemoveOneParticle] stop. *)
Lemma Remove_aborts (p : Particle_t) (ParID : Z) (Marker : Float.real) (lv : Z)
    (AveDens : option Float.double) (vol : Float.double) :
  DEBUG_PARTICLE = true ->
  ~ (0 <= ParID < NPar_AcPlusInac p /\ marker Marker) ->
  RemoveOneParticle p ParID Marker lv AveDens vol
  = Abort (if decide (0 <= ParID < NPar_AcPlusInac p)
           then Unsupported_Marker else Wrong_ParID).
Proof.
  intros Hdbg Hbad. unfold Particle.RemoveOneParticle, Particle.debug_check.
  rewrite Hdbg.
  destruct (decide (0 <= ParID < NPar_AcPlusInac p)) as [Hid|Hid].
  - replace ((ParID <? 0) || (ParID >=? NPar_AcPlusInac p)) with false
      by (symmetry; apply id_check; exact Hid).
    simpl.
    destruct (negb (Float.eqb Marker Macro.PAR_INACTIVE_OUTSIDE)
              && negb (Float.eqb Marker Macro.PAR_INACTIVE_MPI)) eqn:Em;
      [reflexivity|].
    apply marker_check in Em. tauto.
  - destruct ((ParID <? 0) || (ParID >=? NPar_AcPlusInac p)) eqn:Ec;
      [reflexivity|].
    apply id_check in Ec. tauto.
Qed.

(** X9.  The three outcomes of [RemoveOneParticle] on a consistent pool.
    It returns exactly when its checks pass (they are compiled only with
    [DEBUG_PARTICLE]), [ParID] is an index of the buffers, the level is
    [NULL_INT] or a level, and the free list has room or can be resized.
    It reports an error exactly when a check fails.  In every other case
    its behaviour is undefined: so without [DEBUG_PARTICLE] a call with
    any marker and any id below [ParListSize] returns, and a call with an
    id outside the buffers is undefined. *)
Theorem Remove_outcome (p : Particle_t) (ParID : Z) (Marker : Float.real) (lv : Z)
    (AveDens : option Float.double) (vol : Float.double) :
  wf p ->
  let checks :=
    DEBUG_PARTICLE = true -> 0 <= ParID < NPar_AcPlusInac p /\ marker Marker in
  let storage :=
    0 <= ParID < ParListSize p /\ (lv = Macro.NULL_INT \/ level lv) /\ may_remove p in
  ((exists p' d', RemoveOneParticle p ParID Marker lv AveDens vol = Done (p', d'))
   <-> checks /\ storage)
  /\ ((exists e, RemoveOneParticle p ParID Marker lv AveDens vol = Abort e)
      <-> ~ checks)
  /\ (RemoveOneParticle p ParID Marker lv AveDens vol = Undef
      <-> checks /\ ~ storage).
Proof.
  intros Hwf checks storage.
  assert (HD : (exists p' d', RemoveOneParticle p ParID Marker lv AveDens vol
                              = Done (p', d')) <-> checks /\ storage).
  { split.
    - intros (p' & d' & H).
      pose proof (Remove_Done_room _ _ _ _ _ _ _ _ H) as Hroom.
      apply Remove_Done in H as (_ & _ & _ & (HParID & _) & HLv & _ & _ & Hchk).
      rewrite (Mass_size p Hwf) in HParID.
      split; [intros Hd; destruct (Hchk Hd) as (? & ? & _); tauto|].
      split; [exact HParID|]. split; [|exact Hroom].
      destruct HLv as [[-> _]|(_ & count & Hc & _)]; [left; reflexivity|right].
      apply load_Some in Hc as [H0 Hc]. apply lookup_lt_Some in Hc.
      rewrite (wf_Lv _ _ _ _ Hwf) in Hc. unfold Particle.level. lia.
    - intros (Hchk & Hid & Hlv & Hroom). apply Remove_returns; assumption. }
  assert (Hdec : checks \/ ~ checks).
  { unfold checks. destruct DEBUG_PARTICLE; [|left; discriminate].
    destruct (decide (0 <= ParID < NPar_AcPlusInac p /\ marker Marker)) as [H|H];
      [left; intros _; exact H|right; intros H'; apply H, H'; reflexivity]. }
    assert (HA : (exists e, RemoveOneParticle p ParID Marker lv AveDens vol = Abort e)
               <-> ~ checks).
  { split.
    - intros [e He] Hchk.
      pose proof (wf_count _ _ _ _ Hwf) as Hcount.
      unfold Particle.RemoveOneParticle in He.
      rewrite (debug_check_pass (_ || _)) in He
        by (intros Hd; apply id_check; apply (Hchk Hd)).
      rewrite (debug_check_pass (_ && _)) in He
        by (intros Hd; apply marker_check; apply (Hchk Hd)).
      rewrite !bind_Done_l in He.
      destruct AveDens;
        repeat match type of He with
        | context [defined ?o] => destruct o; simpl in He; try discriminate He
        | context [if ?c then _ else _] => destruct c; simpl in He
        end;
        try discriminate He;
        rewrite debug_check_pass in He
          by (intros _; apply bool_decide_eq_false_2; simpl; lia);
      discriminate He.
    - intros Hbad. unfold checks in Hbad.
      destruct (decide (DEBUG_PARTICLE = true)) as [Hd|Hd];
        [|exfalso; apply Hbad; intros Hd'; destruct (Hd Hd')].
      eexists. apply Remove_aborts; [exact Hd|].
      intros H. apply Hbad. intros _. exact H. }
  split; [exact HD|]. split; [exact HA|].
  destruct (RemoveOneParticle p ParID Marker lv AveDens vol) as [[p' d']|e|] eqn:E.
  - split; [discriminate|]. intros [_ Hs]. exfalso. apply Hs.
    apply HD. eauto.
  - split; [discriminate|]. intros [Hc _]. exfalso.
    apply (proj1 HA); eauto.
  - split; [|reflexivity]. intros _. split.
    + destruct Hdec as [Hc|Hc]; [exact Hc|].
      apply HA in Hc as [e He]. discriminate.
    + intros Hs. destruct Hdec as [Hc|Hc].
      * destruct (proj2 HD (conj Hc Hs)) as (p' & d' & H). discriminate.
      * apply HA in Hc as [e He]. discriminate.
Qed.

(** [AddOneParticle] returns as soon as the data passed has a value for
    every buffer, an accumulator is passed, the level is a level and the
    buffers have room or can be resized. *)
Lemma Add_returns (p : Particle_t) (NewVar NewPassive : option (list Float.real)) (lv : Z)
    (dens vol : Float.double) :
  wf p ->
  (NPAR_VAR <= length (default [] NewVar))%nat ->
  (NPAR_PASSIVE <= length (default [] NewPassive))%nat ->
  level lv -> may_add p ->
  exists p' mass,
    default [] NewVar !! Macro.PAR_MASS = Some mass
    /\ AddOneParticle p NewVar NewPassive lv (Some dens) vol
       = Done (p', Some (Float.add dens (Float.mul mass vol))).
Proof.
  intros Hwf HNV HNP Hlv Hlim.
  destruct (target_total p Hwf Hlim) as (id & p0 & Htarget).
  destruct (target_wf p p0 id Hwf Hlim Htarget) as [Hwf0 Hid].
  pose proof (wf_ParVar _ _ _ _ Hwf0) as HV. simpl in HV.
  pose proof (wf_Passive _ _ _ _ Hwf0) as HP. simpl in HP.
  pose proof (wf_ParVar_size _ _ _ _ Hwf0) as HVs. simpl in HVs.
  pose proof (wf_Passive_size _ _ _ _ Hwf0) as HPs. simpl in HPs.
  pose proof (wf_slots _ _ _ _ Hwf0) as Hslots. simpl in Hslots.
  pose proof (wf_Lv _ _ _ _ Hwf0) as HLv. simpl in HLv.
  pose proof NPAR_VAR_pos as Hpos. unfold Macro.PAR_TIME in Hpos.
  destruct (lookup_lt_is_Some_2 (default [] NewVar) Macro.PAR_MASS) as [mass Hmass].
  { unfold Macro.PAR_MASS. lia. }
  assert (HVr : Forall (fun buf => 0 <= id < Z.of_nat (length buf)) (ParVar p0)).
  { eapply Forall_impl; [exact HVs|]. simpl. intros buf ->. lia. }
  assert (HPr : Forall (fun buf => 0 <= id < Z.of_nat (length buf)) (Passive p0)).
  { eapply Forall_impl; [exact HPs|]. simpl. intros buf ->. lia. }
  cut (exists p', AddOneParticle p NewVar NewPassive lv (Some dens) vol
                  = Done (p', Some (Float.add dens (Float.mul mass vol)))).
  { intros [p' H]. exists p', mass. split; [exact Hmass|exact H]. }
  unfold Particle.AddOneParticle.
  rewrite (debug_check_pass (_ <? _)), bind_Done_l
    by (intros _; apply Z.ltb_ge; apply (wf_slots _ _ _ _ Hwf)).
  rewrite (debug_check_pass (bool_decide (NewVar = None))), bind_Done_l
    by (intros _; apply bool_decide_eq_false_2; intros ->; simpl in HNV; lia).
  rewrite (debug_check_pass (_ && _)), bind_Done_l
    by (intros _; apply andb_false_iff;
        destruct (decide (0 < NPAR_PASSIVE)%nat) as [H0|H0];
        [right; apply bool_decide_eq_false_2; intros ->; simpl in HNP; lia
        |left; apply bool_decide_eq_false_2; exact H0]).
  rewrite (debug_check_pass (bool_decide _)), bind_Done_l
    by (intros _; apply bool_decide_eq_false_2; discriminate).
  simpl. rewrite Htarget. simpl.
  rewrite record_in_range by (try assumption; lia). simpl.
  rewrite record_in_range by (try assumption; lia). simpl.
  unfold Mass. rewrite load_attribute. simpl.
  rewrite (Mass_recorded _ _ _ mass) by (try assumption; lia). simpl.
  unfold Particle.level in Hlv.
  destruct (load_in_range (NPar_Lv p0) lv) as [count Hc]; [lia|].
  rewrite Hc. simpl. rewrite store_in_range by lia. simpl.
  eexists. reflexivity.
Qed.

(** Step 1 of [AddOneParticle] reports no error on a consistent pool. *)
Lemma target_no_abort (p : Particle_t) (e : Fatal) :
  wf p -> AddOneParticle_target p <> Abort e.
Proof.
  intros Hwf.
  pose proof (wf_inactive _ _ _ _ Hwf) as Hin.
  destruct (Z.lt_ge_cases 0 (NPar_Inactive p)) as [Hn|Hn].
  - destruct (load_in_range (InactiveParList p) (NPar_Inactive p - 1)) as [id Hid].
    { rewrite (wf_list_size _ _ _ _ Hwf). lia. }
    rewrite (target_reuse p id Hn Hid); [discriminate|].
    intros _. apply load_Some in Hid as [H0 Hid].
    apply (proj1 (Forall_lookup _ _) (wf_ids _ _ _ _ Hwf) (Z.to_nat (NPar_Inactive p - 1))).
    rewrite lookup_take_lt by lia. exact Hid.
  - unfold Particle.AddOneParticle_target. rewrite gtb_false by lia.
    destruct (NPar_AcPlusInac p >=? ParListSize p); [|discriminate].
    destruct (Resize.grow (ParListSize p)); discriminate.
Qed.

(** The calls the checks of [AddOneParticle] stop, and the error each
    reports: the checks are made in the order of the parameters. *)
Lemma Add_aborts (p : Particle_t) (NewVar NewPassive : option (list Float.real)) (lv : Z)
    (AveDens : option Float.double) (vol : Float.double) :
  DEBUG_PARTICLE = true -> 0 <= NPar_AcPlusInac p ->
  ~ (NewVar <> None /\ ((0 < NPAR_PASSIVE)%nat -> NewPassive <> None)
     /\ AveDens <> None) ->
  AddOneParticle p NewVar NewPassive lv AveDens vol
  = Abort (if decide (NewVar = None) then NewVar_NULL
           else if decide ((0 < NPAR_PASSIVE)%nat /\ NewPassive = None)
                then NewPassive_NULL else AveDens_NULL).
Proof.
  intros Hdbg Hn Hbad. unfold Particle.AddOneParticle, Particle.debug_check.
  rewrite Hdbg.
  replace (NPar_AcPlusInac p <? 0) with false by (symmetry; apply Z.ltb_ge; exact Hn).
  simpl.
  destruct (decide (NewVar = None)) as [HV|HV].
  { rewrite (bool_decide_eq_true_2 _ HV). reflexivity. }
  rewrite (bool_decide_eq_false_2 _ HV). simpl.
  destruct (decide ((0 < NPAR_PASSIVE)%nat /\ NewPassive = None)) as [HP|HP].
  { destruct HP as [HP1 HP2].
    rewrite (bool_decide_eq_true_2 _ HP1), (bool_decide_eq_true_2 _ HP2). reflexivity. }
  replace (bool_decide (0 < NPAR_PASSIVE)%nat && bool_decide (NewPassive = None))
    with false.
  2:{ symmetry. apply andb_false_iff.
      destruct (decide (0 < NPAR_PASSIVE)%nat) as [H0|H0];
        [right|left]; apply bool_decide_eq_false_2; tauto. }
  simpl.
  destruct (decide (AveDens = None)) as [HD|HD].
  { rewrite (bool_decide_eq_true_2 _ HD). reflexivity. }
  exfalso. apply Hbad. split; [exact HV|]. split; [|exact HD].
  intros H0 HN. apply HP. split; assumption.
Qed.

(** X10.  The three outcomes of [AddOneParticle] on a consistent pool.
    It returns exactly when [NewVar] and [NewPassive] point to a value
    for every buffer ([NPAR_VAR] and [NPAR_PASSIVE] values at least), an
    accumulator is passed, [lv] is a level and the buffers have room or can
    be resized; these conditions are the same in both builds.  With
    [DEBUG_PARTICLE] it reports an error exactly when [NewVar], a needed
    [NewPassive] or [AveDens] is null, the first of them in this order; so
    every call the checks stop is undefined without them, and a null
    [NewPassive] passes when there is no passive attribute. *)
Theorem Add_outcome (p : Particle_t) (NewVar NewPassive : option (list Float.real)) (lv : Z)
    (AveDens : option Float.double) (vol : Float.double) :
  wf p ->
  let checks :=
    DEBUG_PARTICLE = true ->
    NewVar <> None /\ ((0 < NPAR_PASSIVE)%nat -> NewPassive <> None)
    /\ AveDens <> None in
  let storage :=
    (NPAR_VAR <= length (default [] NewVar))%nat
    /\ (NPAR_PASSIVE <= length (default [] NewPassive))%nat
    /\ AveDens <> None /\ level lv /\ may_add p in
  ((exists p' d', AddOneParticle p NewVar NewPassive lv AveDens vol = Done (p', d'))
   <-> storage)
  /\ ((exists e, AddOneParticle p NewVar NewPassive lv AveDens vol = Abort e)
      <-> ~ checks)
  /\ (~ checks ->
      AddOneParticle p NewVar NewPassive lv AveDens vol
      = Abort (if decide (NewVar = None) then NewVar_NULL
               else if decide ((0 < NPAR_PASSIVE)%nat /\ NewPassive = None)
                    then NewPassive_NULL else AveDens_NULL))
  /\ (AddOneParticle p NewVar NewPassive lv AveDens vol = Undef
      <-> checks /\ ~ storage)
  /\ (storage -> checks).
Proof.
  intros Hwf checks storage.
  pose proof (wf_slots _ _ _ _ Hwf) as Hslots.
  pose proof NPAR_VAR_pos as Hpos. unfold Macro.PAR_TIME in Hpos.
  assert (HSC : storage -> checks).
  { intros (HNV & HNP & HD & _) _. split; [|split; [|exact HD]].
    - intros ->. simpl in HNV. lia.
    - intros H0 ->. simpl in HNP. lia. }
  assert (HD : (exists p' d', AddOneParticle p NewVar NewPassive lv AveDens vol
                              = Done (p', d')) <-> storage).
  { split.
    - intros (p' & d' & H).
      pose proof (Add_Done_room _ _ _ _ _ _ _ _ H) as Hroom.
      apply Add_Done in H
        as (id & p0 & mass & dens & count & Ht & _ & _ & HV & HP & _ & HAD & _
            & Hc & _).
      destruct (target_wf p p0 id Hwf Hroom Ht) as [Hwf0 _].
      pose proof (wf_ParVar _ _ _ _ Hwf0) as HVn. simpl in HVn.
      pose proof (wf_Passive _ _ _ _ Hwf0) as HPn. simpl in HPn.
      pose proof (wf_Lv _ _ _ _ Hwf0) as HLn. simpl in HLn.
      apply record_Some in HV as (_ & HVl & _).
      apply record_Some in HP as (_ & HPl & _).
      split; [lia|]. split; [lia|]. split; [congruence|]. split; [|exact Hroom].
      apply load_Some in Hc as [H0 Hc]. apply lookup_lt_Some in Hc.
      unfold Particle.level. lia.
    - intros (HNV & HNP & HAD & Hlv & Hroom).
      destruct AveDens as [dens|]; [|congruence].
      destruct (Add_returns p NewVar NewPassive lv dens vol Hwf HNV HNP Hlv Hroom)
        as (p' & mass & _ & H).
      eauto. }
  assert (Hdec : checks \/ ~ checks).
  { unfold checks.
    destruct (decide (NewVar <> None /\ ((0 < NPAR_PASSIVE)%nat -> NewPassive <> None)
                      /\ AveDens <> None)) as [H|H]; [left; intros _; exact H|].
    destruct (decide (DEBUG_PARTICLE = true)) as [Hd|Hd];
      [right; intros H'; apply H, H'; exact Hd|left; intros Hd'; destruct (Hd Hd')]. }
  assert (HB : ~ checks ->
               AddOneParticle p NewVar NewPassive lv AveDens vol
               = Abort (if decide (NewVar = None) then NewVar_NULL
                        else if decide ((0 < NPAR_PASSIVE)%nat /\ NewPassive = None)
                             then NewPassive_NULL else AveDens_NULL)).
  { intros Hbad. unfold checks in Hbad.
    destruct (decide (DEBUG_PARTICLE = true)) as [Hd|Hd];
      [|exfalso; apply Hbad; intros Hd'; destruct (Hd Hd')].
    apply Add_aborts; [exact Hd|lia|].
    intros H. apply Hbad. intros _. exact H. }
  assert (HA : (exists e, AddOneParticle p NewVar NewPassive lv AveDens vol = Abort e)
               <-> ~ checks).
  { split; [|intros Hbad; eexists; apply HB, Hbad].
    intros [e He] Hchk.
    unfold Particle.AddOneParticle in He.
    rewrite (debug_check_pass (_ <? _)), bind_Done_l in He
      by (intros _; apply Z.ltb_ge; lia).
    rewrite (debug_check_pass (bool_decide (NewVar = None))), bind_Done_l in He
      by (intros Hd; apply bool_decide_eq_false_2; apply (Hchk Hd)).
    rewrite (debug_check_pass (_ && _)), bind_Done_l in He.
    2:{ intros Hd. apply andb_false_iff.
        destruct (decide (0 < NPAR_PASSIVE)%nat) as [H0|H0];
          [right; apply bool_decide_eq_false_2; apply (Hchk Hd), H0
          |left; apply bool_decide_eq_false_2; exact H0]. }
    rewrite (debug_check_pass (bool_decide _)), bind_Done_l in He
      by (intros Hd; apply bool_decide_eq_false_2; apply (Hchk Hd)).
    pose proof (target_no_abort p e Hwf) as Hno.
    destruct (AddOneParticle_target p) as [[id p0]|e'|]; simpl in He;
      [|congruence|discriminate He].
    repeat match type of He with
    | context [defined ?o] => destruct o; simpl in He; try discriminate He
    end. }
  split; [exact HD|]. split; [exact HA|]. split; [exact HB|]. split; [|exact HSC].
  destruct (AddOneParticle p NewVar NewPassive lv AveDens vol) as [[p' d']|e|] eqn:E.
  - split; [discriminate|]. intros [_ Hs]. exfalso. apply Hs.
    apply HD. eauto.
  - split; [discriminate|]. intros [Hc _]. exfalso.
    apply (proj1 HA); eauto.
  - split; [|reflexivity]. intros _. split.
    + destruct Hdec as [Hc|Hc]; [exact Hc|].
      apply HA in Hc as [e He]. discriminate.
    + intros Hs. destruct (proj2 HD Hs) as (p' & d' & H). discriminate.
Qed.

(** X11.  The two outcomes of [InitVar].  It dereferences no pointer, so it
    returns or reports an error (allocation is taken to succeed): it
    returns exactly when [NPar_AcPlusInac >= 0] and [Interp] is NGP, CIC or
    TSC; otherwise it reports the first of: a negative [NPar_AcPlusInac],
    [Interp == PAR_INTERP_NONE], an [Interp] that is no scheme at all (the
    [default] branch). *)
Theorem InitVar_outcome (p0 : Particle_t) :
  InitVar p0 <> Undef
  /\ ((exists p, InitVar p0 = Done p)
      <-> 0 <= NPar_AcPlusInac p0 /\ supported (Interp p0))
  /\ (NPar_AcPlusInac p0 < 0 -> InitVar p0 = Abort NPar_AcPlusInac_negative)
  /\ (0 <= NPar_AcPlusInac p0 -> Interp p0 = PAR_INTERP_NONE ->
      InitVar p0 = Abort Interp_NONE)
  /\ (0 <= NPar_AcPlusInac p0 -> Interp p0 <> PAR_INTERP_NONE ->
      ~ supported (Interp p0) -> InitVar p0 = Abort Unsupported_Interp).
Proof.
  assert (Hneg : NPar_AcPlusInac p0 < 0 -> InitVar p0 = Abort NPar_AcPlusInac_negative).
  { intros Hn. unfold Particle.InitVar.
    replace (NPar_AcPlusInac p0 <? 0) with true by (symmetry; apply Z.ltb_lt; exact Hn).
    reflexivity. }
  assert (Hpos : 0 <= NPar_AcPlusInac p0 ->
            InitVar p0
            = match Interp p0 with
              | PAR_INTERP_NONE => Abort Interp_NONE
              | PAR_INTERP_OTHER _ => Abort Unsupported_Interp
              | _ => InitVar p0
              end).
  { intros Hn. unfold Particle.InitVar.
    replace (NPar_AcPlusInac p0 <? 0) with false by (symmetry; apply Z.ltb_ge; exact Hn).
    simpl. destruct (Interp p0); reflexivity. }
  split.
  { destruct (Z.lt_ge_cases (NPar_AcPlusInac p0) 0) as [Hn|Hn].
    - rewrite Hneg by exact Hn. discriminate.
    - destruct (decide (supported (Interp p0))) as [Hi|Hi].
      + destruct (InitVar_total p0 Hn Hi) as [p ->]. discriminate.
      + rewrite Hpos by exact Hn. unfold supported in Hi.
        destruct (Interp p0); try discriminate; tauto. }
  split.
  { split.
    - intros [p H]. apply InitVar_Done in H. tauto.
    - intros [Hn Hi]. apply InitVar_total; assumption. }
  split; [exact Hneg|]. split.
  - intros Hn Hi. rewrite Hpos, Hi by exact Hn. reflexivity.
  - intros Hn Hnone Hi. rewrite Hpos by exact Hn. unfold supported in Hi.
    destruct (Interp p0); try reflexivity; tauto.
Qed.


(** X13.  The first calls after [InitVar].  [InitVar] allocates exactly
    [NPar_AcPlusInac] slots, so the pool it leaves is full: the first
    [AddOneParticle] always resizes.  It returns with [ParListSize] the
    value of the resize rule and the new particle in slot
    [NPar_AcPlusInac] when [NPar_AcPlusInac < 1952257860], and is
    undefined otherwise.  The free list has [MAX( 1, ParListSize/100 )]
    cells, so the first [RemoveOneParticle] never resizes it. *)
Theorem first_calls_after_InitVar (p0 p : Particle_t) (NewVar NewPassive : list Float.real)
    (lv : Z) (dens vol : Float.double) :
  length (ParVar p0) = NPAR_VAR -> length (Passive p0) = NPAR_PASSIVE ->
  length (NPar_Lv p0) = NLEVEL ->
  InitVar p0 = Done p ->
  new_data NewVar NewPassive -> level lv ->
  (NPar_AcPlusInac p0 < Resize.limit ->
   exists p' d',
     AddOneParticle p (Some NewVar) (Some NewPassive) lv (Some dens) vol = Done (p', d')
     /\ Resize.grow (NPar_AcPlusInac p0) = Some (ParListSize p')
     /\ slot p' (NPar_AcPlusInac p0) = Some (NewVar, NewPassive)
     /\ NPar_AcPlusInac p' = NPar_AcPlusInac p0 + 1)
  /\ (Resize.limit <= NPar_AcPlusInac p0 ->
      AddOneParticle p (Some NewVar) (Some NewPassive) lv (Some dens) vol = Undef)
  /\ (forall ParID Marker lvR AveDens volR p' d',
        RemoveOneParticle p ParID Marker lvR AveDens volR = Done (p', d') ->
        InactiveParListSize p' = InactiveParListSize p
        /\ InactiveParListSize p = Macro.MAX 1 (NPar_AcPlusInac p0 `quot` 100)).
Proof.
  intros HV HP HL Hinit Hnew Hlv.
  pose proof (InitVar_wf p0 p HV HP HL Hinit) as Hwf.
  apply InitVar_Done in Hinit
    as (Hn & _ & ET & EA & EI & ES & EIS & _).
  pose proof (MAX_1_pos (NPar_AcPlusInac p0 `quot` 100)) as Hmax.
  split; [|split].
  - intros Hlim.
    assert (Hroom : may_add p) by (unfold may_add; right; right; lia).
    destruct (Add_spec p NewVar NewPassive lv dens vol Hwf Hroom Hnew Hlv)
      as (id & q0 & p' & mass & Ht & _ & Hadd & _ & _ & E1 & E4 & _ & _ & _ & Hslot & _).
    exists p', (Some (Float.add dens (Float.mul mass vol))). split; [exact Hadd|].
    destruct (ResizeFacts.grow_bounds (ParListSize p)) as (size & Hg & _); [lia|].
    rewrite (target_grow p size) in Ht by (try exact Hg; lia).
    injection Ht as <- <-. simpl in E1, E4.
    rewrite ES in Hg. rewrite ET in Hslot, E4. rewrite E1.
    split; [exact Hg|]. split; [exact Hslot|exact E4].
  - intros Hlim. destruct Hnew as [HNV HNP].
    pose proof NPAR_VAR_pos as Hpos. unfold Macro.PAR_TIME in Hpos.
    unfold Particle.AddOneParticle.
    rewrite (debug_check_pass (_ <? _)), bind_Done_l
      by (intros _; apply Z.ltb_ge; lia).
    rewrite (debug_check_pass (bool_decide (Some NewVar = None))), bind_Done_l
      by (intros _; apply bool_decide_eq_false_2; discriminate).
    rewrite (debug_check_pass (_ && _)), bind_Done_l
      by (intros _; apply andb_false_iff; right; apply bool_decide_eq_false_2;
          discriminate).
    rewrite (debug_check_pass (bool_decide _)), bind_Done_l
      by (intros _; apply bool_decide_eq_false_2; discriminate).
    unfold Particle.AddOneParticle_target.
    rewrite gtb_false, geb_true by lia.
    rewrite ResizeFacts.grow_overflows by lia. reflexivity.
  - intros ParID Marker lvR AveDens volR p' d' H.
    apply Remove_Done in H as (_ & _ & _ & _ & _ & Hlist & _).
    destruct Hlist as [(_ & E & _)|(Hge & _)]; [|lia].
    split; [exact E|exact EIS].
Qed.

(** X18.  A removed slot still has a mass: its marker.  After a valid
    removal of [ParID] with marker [m1], a second removal of the same id
    passes every check and subtracts the product [m1 * _BoxVolume] from
    the accumulator, in [double]: the marker is read as a mass. *)
Theorem second_removal_reads_marker_as_mass (p : Particle_t) (ParID : Z) (m1 m2 : Float.real)
    (lv1 lv2 : Z) (AveDens : option Float.double) (A vol1 vol2 : Float.double) :
  wf p -> 0 <= ParID < NPar_AcPlusInac p -> marker m1 -> marker m2 ->
  lv1 = Macro.NULL_INT \/ level lv1 -> lv2 = Macro.NULL_INT \/ level lv2 ->
  InactiveParListSize p < Resize.limit ->
  exists p1 d1 p2,
    RemoveOneParticle p ParID m1 lv1 AveDens vol1 = Done (p1, d1)
    /\ RemoveOneParticle p1 ParID m2 lv2 (Some A) vol2
       = Done (p2, Some (Float.sub A (Float.mul m1 vol2))).
Proof.
  intros Hwf Hid Hmk1 Hmk2 Hlv1 Hlv2 Hlim.
  assert (Hrem : may_remove p) by (right; exact Hlim).
  destruct (Remove_total p ParID m1 lv1 AveDens vol1) as (p1 & d1 & Hr1);
    try assumption.
  pose proof (Remove_wf _ _ _ _ _ _ _ _ Hwf Hid Hrem Hr1) as Hwf1.
  apply Remove_Done in Hr1 as Hd1.
  destruct Hd1 as ((_ & _ & ET & _) & HA & HI & (HParID & HV) & _ & Hlist & _).
  pose proof (wf_inactive _ _ _ _ Hwf) as Hin.
  assert (Hrem1 : may_remove p1).
  { unfold may_remove. rewrite HI.
    destruct Hlist as [(_ & -> & _)|(Hge & Hg & _)]; [right; exact Hlim|left].
    pose proof (ResizeFacts.grow_Some_bounds (InactiveParListSize p)
                  (InactiveParListSize p1) ltac:(lia) Hg).
    lia. }
  assert (Hmass : load (Mass p1) ParID = Some m1).
  { unfold Mass at 1. rewrite load_attribute, HV. unfold cell.
    rewrite list_lookup_insert_eq.
    - simpl. erewrite load_store by (apply store_in_range; exact HParID).
      rewrite bool_decide_eq_true_2; reflexivity.
    - rewrite (wf_ParVar _ _ _ _ Hwf). pose proof NPAR_VAR_pos.
      unfold Macro.PAR_MASS, Macro.PAR_TIME in *. lia. }
  destruct (Remove_total p1 ParID m2 lv2 (Some A) vol2) as (p2 & d2 & Hr2);
    try assumption; [lia|].
  apply Remove_Done in Hr2 as Hd2.
  destruct Hd2 as (_ & _ & _ & _ & _ & _ & (mass & Hm & ->) & _).
  rewrite Hmass in Hm. injection Hm as <-.
  exists p1, d1, p2. split; [exact Hr1|exact Hr2].
Qed.

End Pool.

(** ** The two builds *)

Section Builds.

Variable NPAR_PASSIVE : nat.
Variable indet_real : nat -> Float.real.
Variable indet_long : nat -> Z.

Lemma bind_no_abort {A B} (r : Result A) (k : A -> Result B) (e : Fatal) :
  r <> Abort e -> (forall a, k a <> Abort e) -> r ≫= k <> Abort e.
Proof.
  intros Hr Hk. destruct r as [a|e'|]; simpl; [apply Hk| |discriminate].
  intros H. apply Hr. congruence.
Qed.

Lemma defined_no_abort {A} (o : option A) (e : Fatal) : defined o <> Abort e.
Proof. destruct o; discriminate. Qed.

(** The calls of [Aux_Error] of the two methods are inside
    [#ifdef DEBUG_PARTICLE]. *)
Ltac no_abort :=
  repeat (cbv zeta;
          lazymatch goal with
          | |- forall _, _ => intros ?
          | |- defined _ <> Abort _ => apply defined_no_abort
          | |- Done _ <> Abort _ => discriminate
          | |- mbind _ _ <> Abort _ => apply bind_no_abort
          | |- (if ?c then _ else _) <> Abort _ => destruct c
          | |- (match ?x with _ => _ end) <> Abort _ => destruct x
          end).

Lemma Add_no_abort (p : Particle_t) (NewVar NewPassive : option (list Float.real)) (lv : Z)
    (AveDens : option Float.double) (vol : Float.double) (e : Fatal) :
  AddOneParticle false NPAR_PASSIVE indet_real p NewVar NewPassive lv AveDens vol
  <> Abort e.
Proof.
  unfold AddOneParticle, AddOneParticle_target, debug_check.
  rewrite !bind_Done_l. no_abort.
Qed.

Lemma Remove_no_abort (p : Particle_t) (ParID : Z) (Marker : Float.real) (lv : Z)
    (AveDens : option Float.double) (vol : Float.double) (e : Fatal) :
  RemoveOneParticle false indet_long p ParID Marker lv AveDens vol <> Abort e.
Proof.
  unfold RemoveOneParticle, debug_check.
  rewrite !bind_Done_l. no_abort.
Qed.

(** X14.  Without [DEBUG_PARTICLE] no run of [AddOneParticle] and
    [RemoveOneParticle] reports an error: whatever the pool and the
    arguments, it returns or its behaviour is undefined. *)
Theorem unchecked_run_never_aborts (cs : list Call) (s : Particle_t * Float.double) (e : Fatal) :
  run false NPAR_PASSIVE indet_real indet_long cs s <> Abort e.
Proof.
  revert s. induction cs as [|c cs IH]; intros s; simpl; [discriminate|].
  apply bind_no_abort; [|exact IH].
  destruct c as [NV NP lv dens vol|id mk lv dens vol]; simpl;
    (apply bind_no_abort; [|intros [p d]; discriminate]).
  - apply Add_no_abort.
  - apply Remove_no_abort.
Qed.

Lemma bind_mono {A B} (r r' : Result A) (k k' : A -> Result B) (b : B) :
  (forall a, r = Done a -> r' = Done a) ->
  (forall a, k a = Done b -> k' a = Done b) ->
  r ≫= k = Done b -> r' ≫= k' = Done b.
Proof.
  intros Hr Hk H. apply bind_Done in H as (a & Ha & H).
  rewrite (Hr a Ha). simpl. apply Hk, H.
Qed.

Lemma debug_check_mono (c : bool) (e : Fatal) (u : unit) :
  debug_check true c e = Done u -> debug_check false c e = Done u.
Proof. destruct u. reflexivity. Qed.

(** A call that passes the checks does what the same call does without
    them. *)
Ltac mono :=
  repeat (cbv zeta;
          lazymatch goal with
          | |- debug_check true _ _ = Done _ -> _ => apply debug_check_mono
          | |- ?a = Done _ -> ?a = Done _ => exact (fun H => H)
          | |- mbind _ _ = Done _ -> mbind _ _ = Done _ => apply bind_mono
          | |- (if ?c then _ else _) = Done _ -> _ => destruct c
          | |- (match ?x with _ => _ end) = Done _ -> _ => destruct x
          | |- forall _, _ => intros ?
          end).

Lemma Add_mono (p : Particle_t) (NewVar NewPassive : option (list Float.real)) (lv : Z)
    (AveDens : option Float.double) (vol : Float.double) (r : Particle_t * option Float.double) :
  AddOneParticle true NPAR_PASSIVE indet_real p NewVar NewPassive lv AveDens vol
  = Done r ->
  AddOneParticle false NPAR_PASSIVE indet_real p NewVar NewPassive lv AveDens vol
  = Done r.
Proof. unfold AddOneParticle, AddOneParticle_target. mono. Qed.

Lemma Remove_mono (p : Particle_t) (ParID : Z) (Marker : Float.real) (lv : Z)
    (AveDens : option Float.double) (vol : Float.double) (r : Particle_t * option Float.double) :
  RemoveOneParticle true indet_long p ParID Marker lv AveDens vol = Done r ->
  RemoveOneParticle false indet_long p ParID Marker lv AveDens vol = Done r.
Proof. unfold RemoveOneParticle. mono. Qed.

(** X15.  The checks only stop calls: a run that returns with
    [DEBUG_PARTICLE] returns the same pool and the same accumulator
    without it. *)
Theorem checked_run_is_unchecked_run (cs : list Call) (s s' : Particle_t * Float.double) :
  run true NPAR_PASSIVE indet_real indet_long cs s = Done s' ->
  run false NPAR_PASSIVE indet_real indet_long cs s = Done s'.
Proof.
  revert s. induction cs as [|c cs IH]; intros s; simpl; [exact (fun H => H)|].
  apply bind_mono; [|exact IH].
  intros s1. destruct c as [NV NP lv dens vol|id mk lv dens vol]; simpl;
    (apply bind_mono; [|intros a H; exact H]); intros r.
  - apply Add_mono.
  - apply Remove_mono.
Qed.

End Builds.

(** ** The properties on the sample pools *)

Import Sample.

Local Abbreviation run_debug := (run true NPAR_PASSIVE indet_real indet_long).
Local Abbreviation run_fast := (run false NPAR_PASSIVE indet_real indet_long).
Local Abbreviation new m := (Some (particle m)).
Local Abbreviation OUTSIDE := Macro.PAR_INACTIVE_OUTSIDE.
Local Abbreviation MPI := Macro.PAR_INACTIVE_MPI.

(** The hypotheses of the theorems on a sample pool, by evaluation. *)
Ltac decided :=
  lazymatch goal with
  | |- _ /\ _ => split; decided
  | |- _ \/ _ => first [left; solve [decided] | right; solve [decided]]
  | |- Forall _ _ => constructor; decided
  | |- _ -> False => let H := fresh in intros H; discriminate H
  | |- _ => reflexivity
  end.
Ltac evaluated := vm_compute; decided.
Ltac sample_wf := split; evaluated.

(** The pool [InitVar] makes is consistent, by decision. *)
Example ready_is_wf :
  bool_decide (wf STORE_PAR_ACC NPAR_PASSIVE NLEVEL (ready 2)) = true.
Proof. vm_compute. reflexivity. Qed.

(** C1 on a run with a removal at level [NULL_INT] and the removal of an
    inactive slot, in the checked build. *)
Lemma counts_add_up_witness :
  (NPar_Active (ready 2) = NPar_AcPlusInac (ready 2) /\ NPar_Inactive (ready 2) = 0)
  /\ exists s1,
       run_debug [Add (new 3) (Some tracer) 1 true one;
                  Remove 0 OUTSIDE Macro.NULL_INT true one;
                  Remove 0 MPI 2 false one] (ready 2, zero) = Done s1
       /\ NPar_Active s1.1 + NPar_Inactive s1.1 = NPar_AcPlusInac s1.1.
Proof.
  eapply (counts_add_up true NPAR_PASSIVE indet_real indet_long (fresh 2) (ready 2)
            _ [Add (new 5) (Some tracer) 0 true one] zero).
  - vm_compute. reflexivity.
  - vm_compute. reflexivity.
Defined.

(** C2 fails: after [InitVar] for three slots the levels sum to 0 and
    three particles are active; after adding a particle at level 0 to an
    empty pool and removing it with level [NULL_INT], the levels sum to 1
    and no particle is active. *)
Lemma level_sum_counterexample :
  on_done (fun p => (total_Lv p, NPar_Active p))
          (InitVar indet_real indet_long (fresh 3)) = Some (0, 3)
  /\ on_done (fun s => (total_Lv s.1, NPar_Active s.1))
             (run_fast [Add (new 3) (Some tracer) 0 true one;
                        Remove 0 OUTSIDE Macro.NULL_INT true one] (ready 0, zero))
     = Some (1, 0).
Proof. split; vm_compute; reflexivity. Qed.

(** C2 as amended, on a run with one removal at level [NULL_INT]. *)
Lemma level_sum_tracks_active_witness :
  exists s1,
    run_fast [Add (new 3) (Some tracer) 1 true one;
              Add (new 4) (Some tracer) 2 true one;
              Remove 0 OUTSIDE 1 true one;
              Add (new 5) (Some tracer) 0 true one;
              Remove 1 MPI Macro.NULL_INT true one] (ready 0, zero) = Done s1
    /\ total_Lv s1.1
       = NPar_Active s1.1
         + count_untracked [Add (new 3) (Some tracer) 1 true one;
                            Add (new 4) (Some tracer) 2 true one;
                            Remove 0 OUTSIDE 1 true one;
                            Add (new 5) (Some tracer) 0 true one;
                            Remove 1 MPI Macro.NULL_INT true one]
    /\ (count_untracked [Add (new 3) (Some tracer) 1 true one;
                         Add (new 4) (Some tracer) 2 true one;
                         Remove 0 OUTSIDE 1 true one;
                         Add (new 5) (Some tracer) 0 true one;
                         Remove 1 MPI Macro.NULL_INT true one] = 0
        -> total_Lv s1.1 = NPar_Active s1.1).
Proof.
  eapply (level_sum_tracks_active false NPAR_PASSIVE indet_real indet_long
            (fresh 0) (ready 0) _ [] zero).
  - vm_compute. reflexivity.
  - vm_compute. reflexivity.
  - vm_compute. reflexivity.
Defined.


(** C3 fails for [AddOneParticle]: called without accumulator on the
    pool [InitVar] leaves, it aborts in the checked build and is undefined
    in the other. *)
Lemma density_update_counterexample :
  AddOneParticle true NPAR_PASSIVE indet_real (ready 0)
    (Some (particle 3)) (Some tracer) 0 None one = Abort AveDens_NULL
  /\ AddOneParticle false NPAR_PASSIVE indet_real (ready 0)
       (Some (particle 3)) (Some tracer) 0 None one = Undef.
Proof. split; vm_compute; reflexivity. Qed.

(** C3 as amended, on the pool that holds one particle of mass 3: the
    removal takes [3 * (1/2)] off the accumulator 5, an addition of mass 4
    puts [4 * (1/2)] on it. *)
Lemma density_update_witness :
  let p := after false [Add (new 3) (Some tracer) 1 true one] (ready 0) in
  (exists p' mass,
      RemoveOneParticle false indet_long p 0 OUTSIDE 1 None half = Done (p', None)
      /\ load (Mass p) 0 = Some mass
      /\ RemoveOneParticle false indet_long p 0 OUTSIDE 1 (Some five) half
         = Done (p', Some (Float.sub five (Float.mul mass half)))
      /\ load (Mass p') 0 = Some OUTSIDE)
  /\ (exists p' mass,
         particle 4 !! Macro.PAR_MASS = Some mass
         /\ AddOneParticle false NPAR_PASSIVE indet_real p
              (Some (particle 4)) (Some tracer) 2 (Some five) half
            = Done (p', Some (Float.add five (Float.mul mass half))))
  /\ AddOneParticle false NPAR_PASSIVE indet_real p
       (Some (particle 4)) (Some tracer) 2 None half
     = Undef.
Proof.
  intros p.
  apply (density_update false STORE_PAR_ACC NPAR_PASSIVE NLEVEL indet_real indet_long
           p (particle 4) tracer 2 0 OUTSIDE 1 five half).
  - sample_wf.
  - evaluated.
  - evaluated.
  - evaluated.
  - evaluated.
  - evaluated.
  - evaluated.
  - evaluated.
Defined.

(** C4 on the pool with two particles, the first of which was removed:
    the free list holds the id 0. *)
Lemma slot_reuse_is_LIFO_witness :
  let p := after false [Add (new 3) (Some tracer) 1 true one;
                        Add (new 4) (Some tracer) 2 true one;
                        Remove 0 OUTSIDE 1 true one] (ready 0) in
  (0 < NPar_Inactive p ->
   exists top p0 p' d',
     load (InactiveParList p) (NPar_Inactive p - 1) = Some top
     /\ AddOneParticle_target false indet_real p = Done (top, p0)
     /\ AddOneParticle false NPAR_PASSIVE indet_real p
          (Some (particle 5)) (Some tracer) 0 (Some zero) one = Done (p', d')
     /\ slot p' top = Some (particle 5, tracer)
     /\ NPar_Inactive p' = NPar_Inactive p - 1)
  /\ (forall (ParID : Z) (Marker : Float.real) (lv : Z) (AveDens : option Float.double) (volR : Float.double),
        0 <= ParID < NPar_AcPlusInac p -> marker Marker ->
        lv = Macro.NULL_INT \/ level NLEVEL lv -> may_remove p ->
        exists p1 d1 p0 p2 d2,
          RemoveOneParticle false indet_long p ParID Marker lv AveDens volR
          = Done (p1, d1)
          /\ AddOneParticle_target false indet_real p1 = Done (ParID, p0)
          /\ AddOneParticle false NPAR_PASSIVE indet_real p1
               (Some (particle 5)) (Some tracer) 0 (Some zero) one = Done (p2, d2)
          /\ slot p2 ParID = Some (particle 5, tracer)
          /\ NPar_Inactive p2 = NPar_Inactive p).
Proof.
  intros p.
  apply (slot_reuse_is_LIFO false STORE_PAR_ACC NPAR_PASSIVE NLEVEL indet_real indet_long
           p (particle 5) tracer 0 zero one).
  - sample_wf.
  - evaluated.
  - evaluated.
Defined.

(** C5 fails as stated: the pool [InitVar] makes for 49 slots is full, and
    the next particle resizes the buffers to 56 slots, where the ceiling of
    [1.1*50] is 55 (the [double] nearest to 1.1 is above 11/10, and so is
    its product with 50); and the rule has no value for 1952257860
    slots. *)
Lemma capacity_growth_counterexample :
  on_done (fun r => ParListSize r.1)
          (AddOneParticle false NPAR_PASSIVE indet_real (ready 49)
             (Some (particle 5)) (Some tracer) 0 (Some zero) one)
  = Some 56
  /\ (11 * (49 + 1) + 9) / 10 = 55
  /\ Resize.grow 1952257860 = None.
Proof. vm_compute. repeat split. Qed.

(** C5 as amended, on the pool [InitVar] makes for two slots: it is full,
    and the third particle resizes the buffers from 2 to [ceil( 1.1*3 )]
    = 4. *)
Lemma capacity_growth_witness :
  let p := ready 2 in
  (NPar_AcPlusInac p = ParListSize p -> ParListSize p < Resize.limit ->
   exists p0 p' d',
     AddOneParticle false NPAR_PASSIVE indet_real p
       (Some (particle 5)) (Some tracer) 0 (Some zero) one = Done (p', d')
     /\ Resize.grow (ParListSize p) = Some (ParListSize p')
     /\ 11 * (ParListSize p + 1) <= 10 * ParListSize p'
        <= 11 * (ParListSize p + 1) + 10
     /\ ((ParListSize p + 1) mod 10 <> 0 ->
         ParListSize p' = (11 * (ParListSize p + 1) + 9) / 10)
     /\ ParListSize p < ParListSize p'
     /\ Forall (fun buf => Z.of_nat (length buf) = ParListSize p')
               (ParVar p' ++ Passive p')
     /\ (forall v i, 0 <= i < ParListSize p ->
           cell (ParVar p') v i = cell (ParVar p) v i
           /\ cell (Passive p') v i = cell (Passive p) v i)
     /\ AddOneParticle_target false indet_real p = Done (NPar_AcPlusInac p, p0)
     /\ slot p' (NPar_AcPlusInac p) = Some (particle 5, tracer)
     /\ NPar_AcPlusInac p' = NPar_AcPlusInac p + 1)
  /\ (NPar_AcPlusInac p = ParListSize p -> Resize.limit <= ParListSize p ->
      AddOneParticle false NPAR_PASSIVE indet_real p
        (Some (particle 5)) (Some tracer) 0 (Some zero) one = Undef)
  /\ (NPar_AcPlusInac p < ParListSize p ->
      exists p0 p' d',
        AddOneParticle false NPAR_PASSIVE indet_real p
          (Some (particle 5)) (Some tracer) 0 (Some zero) one = Done (p', d')
        /\ ParListSize p' = ParListSize p
        /\ Forall (fun buf => Z.of_nat (length buf) = ParListSize p)
                  (ParVar p' ++ Passive p')
        /\ (forall v i, i <> NPar_AcPlusInac p ->
              cell (ParVar p') v i = cell (ParVar p) v i
              /\ cell (Passive p') v i = cell (Passive p) v i)
        /\ AddOneParticle_target false indet_real p = Done (NPar_AcPlusInac p, p0)
        /\ slot p' (NPar_AcPlusInac p) = Some (particle 5, tracer)
        /\ NPar_AcPlusInac p' = NPar_AcPlusInac p + 1).
Proof.
  intros p.
  apply (capacity_growth false STORE_PAR_ACC NPAR_PASSIVE NLEVEL indet_real
           p (particle 5) tracer 0 zero one).
  - sample_wf.
  - evaluated.
  - evaluated.
  - evaluated.
Defined.

(** The resized pool of the witness, evaluated. *)
Example capacity_growth_sample :
  on_done (fun r => (ParListSize r.1, NPar_AcPlusInac r.1, slot r.1 2))
          (AddOneParticle false NPAR_PASSIVE indet_real (ready 2)
             (Some (particle 5)) (Some tracer) 0 (Some zero) one)
  = Some (4, 3, Some (particle 5, tracer)).
Proof. vm_compute. reflexivity. Qed.

(** C6 on the pool that holds one particle: the particle is removed
    twice. *)
Lemma double_removal_is_unguarded_witness :
  let p := after false [Add (new 3) (Some tracer) 1 true one] (ready 0) in
  exists p1 d1 p2 d2,
    RemoveOneParticle false indet_long p 0 OUTSIDE 1 (Some five) one = Done (p1, d1)
    /\ load (InactiveParList p1) (NPar_Inactive p) = Some 0
    /\ NPar_Active p1 = NPar_Active p - 1
    /\ NPar_Inactive p1 = NPar_Inactive p + 1
    /\ load (Mass p1) 0 = Some OUTSIDE
    /\ RemoveOneParticle false indet_long p1 0 OUTSIDE 1 None one = Done (p2, d2)
    /\ load (InactiveParList p2) (NPar_Inactive p) = Some 0
    /\ load (InactiveParList p2) (NPar_Inactive p + 1) = Some 0
    /\ NPar_Active p2 = NPar_Active p - 2
    /\ NPar_Inactive p2 = NPar_Inactive p + 2.
Proof.
  intros p.
  apply (double_removal_is_unguarded false STORE_PAR_ACC NPAR_PASSIVE NLEVEL indet_long
           p 0 OUTSIDE 1 (Some five) None one).
  - sample_wf.
  - evaluated.
  - evaluated.
  - evaluated.
  - evaluated.
Defined.

(** The counters after the two removals, in the checked build: one
    particle was added, [NPar_Active] is -1 and [NPar_Inactive] is 2. *)
Example double_removal_sample :
  on_done (fun s => (NPar_Active s.1, NPar_Inactive s.1, NPar_AcPlusInac s.1))
          (run_debug [Add (new 3) (Some tracer) 1 true one;
                      Remove 0 OUTSIDE 1 true one;
                      Remove 0 OUTSIDE 1 true one] (ready 0, zero))
  = Some (-1, 2, 1).
Proof. vm_compute. reflexivity. Qed.

(** C8 on the pool that holds one particle. *)
Lemma Remove_checks_its_arguments_witness :
  let p := after true [Add (new 3) (Some tracer) 1 true one] (ready 0) in
  (~ 0 <= 0 < NPar_AcPlusInac p ->
   RemoveOneParticle true indet_long p 0 OUTSIDE 1 None one = Abort Wrong_ParID)
  /\ (0 <= 0 < NPar_AcPlusInac p -> ~ marker OUTSIDE ->
      RemoveOneParticle true indet_long p 0 OUTSIDE 1 None one = Abort Unsupported_Marker)
  /\ (0 <= 0 < NPar_AcPlusInac p -> marker OUTSIDE ->
      exists p' d',
        RemoveOneParticle true indet_long p 0 OUTSIDE 1 None one = Done (p', d')
        /\ load (Mass p') 0 = Some OUTSIDE
        /\ load (InactiveParList p') (NPar_Inactive p) = Some 0)
  /\ ((exists e, RemoveOneParticle true indet_long p 0 OUTSIDE 1 None one = Abort e)
      <-> ~ 0 <= 0 < NPar_AcPlusInac p \/ ~ marker OUTSIDE).
Proof.
  intros p.
  apply (Remove_checks_its_arguments true STORE_PAR_ACC NPAR_PASSIVE NLEVEL indet_long
           p 0 OUTSIDE 1 None one).
  - reflexivity.
  - sample_wf.
  - evaluated.
  - evaluated.
Defined.

(** The three outcomes of the checks, evaluated. *)
Example Remove_checks_sample :
  let p := after true [Add (new 3) (Some tracer) 1 true one] (ready 0) in
  RemoveOneParticle true indet_long p 1 OUTSIDE 1 None one = Abort Wrong_ParID
  /\ RemoveOneParticle true indet_long p (-1) OUTSIDE 1 None one = Abort Wrong_ParID
  /\ RemoveOneParticle true indet_long p 0 (dbl (-3) 0) 1 None one = Abort Unsupported_Marker
  /\ RemoveOneParticle true indet_long p 0 zero 1 None one = Abort Unsupported_Marker
  /\ finished (RemoveOneParticle true indet_long p 0 MPI 1 None one) = true.
Proof. vm_compute. repeat split. Qed.

(** C9 fails in the implementation: with the accumulator 1, a particle of
    mass 2^30 and the factor 2^30, the sum [1 + 2^60] rounds to [2^60] and
    the round trip leaves 0; with the mass 2^1000 and the factor 2^1000 the
    product is infinite and the round trip leaves a NaN. *)
Lemma density_round_trip_counterexample :
  on_done (fun s => s.2)
          (run_fast [Add (Some (particle (2 ^ 30))) (Some tracer) 1 true (dbl 1 30);
                     Remove 0 OUTSIDE 1 true (dbl 1 30)] (ready 0, one))
  = Some zero
  /\ on_done (fun s => s.2)
             (run_fast [Add (Some (particle (2 ^ 1000))) (Some tracer) 1 true (dbl 1 1000);
                        Remove 0 OUTSIDE 1 true (dbl 1 1000)] (ready 0, one))
     = Some S754_nan.
Proof. vm_compute. split; reflexivity. Qed.

(** C9 as amended, on the empty pool: mass 3, accumulator [+0.0], factor
    1/2. *)
Lemma density_round_trip_witness :
  exists id p0 m p1 p2,
    AddOneParticle_target false indet_real (ready 0) = Done (id, p0)
    /\ particle 3 !! Macro.PAR_MASS = Some m
    /\ let P := Float.mul m half in
       let A1 := Float.add zero P in
       let A2 := Float.sub A1 P in
       AddOneParticle false NPAR_PASSIVE indet_real (ready 0)
         (Some (particle 3)) (Some tracer) 1 (Some zero) half = Done (p1, Some A1)
       /\ RemoveOneParticle false indet_long p1 id MPI Macro.NULL_INT (Some A1) half
          = Done (p2, Some A2)
       /\ load (Mass p2) id = Some MPI
       /\ (forall a q,
             Float.units zero = Some a -> Float.units P = Some q ->
             Float.is_finite A2 = true ->
             exists a1 a2,
               Float.units A1 = Some a1 /\ Float.units A2 = Some a2
               /\ 2 ^ 52 * Z.abs (a2 - a) <= Z.abs a1 + Z.abs a2)
       /\ (zero = S754_zero false -> Float.is_finite P = true -> A2 = zero)
       /\ (forall sP s mA eA,
             P = S754_zero sP -> zero = S754_finite s mA eA -> A2 = zero).
Proof.
  apply (density_round_trip false STORE_PAR_ACC NPAR_PASSIVE NLEVEL indet_real indet_long
           (ready 0) (particle 3) tracer 1 zero half MPI Macro.NULL_INT).
  - sample_wf.
  - evaluated.
  - evaluated.
  - evaluated.
  - evaluated.
  - evaluated.
  - evaluated.
Defined.

(** C10 fails: [InitVar] for two slots allocates a free list of one
    entry; the first removal fills it, and the second removal changes
    [InactiveParListSize] from 1 to [ceil( 1.1*2 )] = 3.  The removal of a
    particle of mass 3 with the accumulator 5 and the factor 1/2 also
    leaves [7/2] in the accumulator. *)
Lemma Remove_frame_counterexample :
  let p := after false [Remove 0 OUTSIDE Macro.NULL_INT false one] (ready 2) in
  finished (run_fast [Remove 0 OUTSIDE Macro.NULL_INT false one] (ready 2, zero)) = true
  /\ InactiveParListSize p = 1
  /\ on_done (fun r => InactiveParListSize r.1)
             (RemoveOneParticle false indet_long p 1 OUTSIDE Macro.NULL_INT None one)
     = Some 3
  /\ on_done (fun r => r.2)
             (RemoveOneParticle false indet_long
                (after false [Add (new 3) (Some tracer) 1 true one] (ready 0))
                0 OUTSIDE 1 (Some five) half)
     = Some (Some (dbl 7 (-1))).
Proof. vm_compute. repeat split. Qed.

(** C10 as amended, on the second of these removals. *)
Lemma Remove_frame_witness :
  let p := after false [Remove 0 OUTSIDE Macro.NULL_INT false one] (ready 2) in
  let p' := after false [Remove 0 OUTSIDE Macro.NULL_INT false one;
                         Remove 1 MPI 2 false one] (ready 2) in
  (forall v i, (v, i) <> (Macro.PAR_MASS, 1) ->
               cell (ParVar p') v i = cell (ParVar p) v i)
  /\ cell (ParVar p') Macro.PAR_MASS 1 = Some MPI
  /\ Passive p' = Passive p
  /\ (ParListSize p' = ParListSize p
      /\ NPar_Active_AllRank p' = NPar_Active_AllRank p
      /\ NPar_AcPlusInac p' = NPar_AcPlusInac p
      /\ Init p' = Init p /\ Interp p' = Interp p /\ Integ p' = Integ p
      /\ SyncDump p' = SyncDump p /\ ImproveAcc p' = ImproveAcc p
      /\ PredictPos p' = PredictPos p /\ RemoveCell p' = RemoveCell p
      /\ GhostSize p' = GhostSize p)
  /\ NPar_Active p' = NPar_Active p - 1
  /\ NPar_Inactive p' = NPar_Inactive p + 1
  /\ (forall l, l <> 2 \/ 2 = Macro.NULL_INT ->
                load (NPar_Lv p') l = load (NPar_Lv p) l)
  /\ (2 <> Macro.NULL_INT ->
      exists count, load (NPar_Lv p) 2 = Some count
                    /\ load (NPar_Lv p') 2 = Some (count - 1))
  /\ load (InactiveParList p') (NPar_Inactive p) = Some 1
  /\ (forall i, i < Z.of_nat (length (InactiveParList p)) ->
                i < Z.of_nat (length (InactiveParList p')) -> i <> NPar_Inactive p ->
                load (InactiveParList p') i = load (InactiveParList p) i)
  /\ (NPar_Inactive p < InactiveParListSize p ->
      InactiveParListSize p' = InactiveParListSize p
      /\ length (InactiveParList p') = length (InactiveParList p))
  /\ (InactiveParListSize p <= NPar_Inactive p ->
      Resize.grow (InactiveParListSize p) = Some (InactiveParListSize p')
      /\ Z.of_nat (length (InactiveParList p')) = Z.max 0 (InactiveParListSize p'))
  /\ None = @None Float.double.
Proof.
  intros p p'.
  apply (Remove_frame false indet_long p p' 1 MPI 2 None None one).
  vm_compute. reflexivity.
Defined.

(** ** The further properties on the sample pools *)

(** X4 on a run that reuses a slot. *)
Lemma checked_run_keeps_wf_witness :
  exists s',
    run_debug ([Add (new 3) (Some tracer) 1 true one; Remove 0 OUTSIDE 1 true one]
               ++ [Add (new 4) (Some tracer) 2 true one]) (ready 0, zero) = Done s'
    /\ wf STORE_PAR_ACC NPAR_PASSIVE NLEVEL s'.1
    /\ exists s1,
         run_debug [Add (new 3) (Some tracer) 1 true one; Remove 0 OUTSIDE 1 true one]
                   (ready 0, zero) = Done s1
         /\ wf STORE_PAR_ACC NPAR_PASSIVE NLEVEL s1.1.
Proof.
  eexists. split; [vm_compute; reflexivity|].
  apply (checked_run_keeps_wf true STORE_PAR_ACC NPAR_PASSIVE NLEVEL indet_real indet_long
           [Add (new 3) (Some tracer) 1 true one; Remove 0 OUTSIDE 1 true one]
           [Add (new 4) (Some tracer) 2 true one] (ready 0, zero)).
  - reflexivity.
  - sample_wf.
  - vm_compute. reflexivity.
Defined.


(** X5 on three additions to the empty pool: the buffers grow from 0 to 2
    to 4 slots. *)
Lemma run_never_shrinks_witness :
  let s := (ready 0, zero) in
  let cs := [Add (new 3) (Some tracer) 1 true one; Add (new 4) (Some tracer) 2 true one;
             Add (new 5) (Some tracer) 0 true one] in
  exists s',
    run_fast cs s = Done s'
    /\ ParListSize s'.1 = 4
    /\ ParListSize s.1 <= ParListSize s'.1
    /\ InactiveParListSize s.1 <= InactiveParListSize s'.1
    /\ NPar_AcPlusInac s.1 <= NPar_AcPlusInac s'.1 <= NPar_AcPlusInac s.1 + View.adds cs.
Proof.
  intros s cs. eexists. split; [vm_compute; reflexivity|]. split; [reflexivity|].
  apply (run_never_shrinks false NPAR_PASSIVE indet_real indet_long cs s).
  - vm_compute. discriminate.
  - vm_compute. discriminate.
  - vm_compute. reflexivity.
Defined.

(** X6 on a run that removes the slot 0 twice. *)
Lemma active_count_is_net_witness :
  let s := (ready 2, zero) in
  let cs := [Remove 0 OUTSIDE Macro.NULL_INT false one;
             Remove 0 MPI Macro.NULL_INT false one;
             Add (new 3) (Some tracer) 1 true one] in
  exists s',
    run_fast cs s = Done s' /\ NPar_Active s'.1 = NPar_Active s.1 + View.net cs.
Proof.
  intros s cs. eexists. split; [vm_compute; reflexivity|].
  apply (active_count_is_net false NPAR_PASSIVE indet_real indet_long cs s).
  vm_compute. reflexivity.
Defined.

(** X7 on the pool of two particles whose second was removed. *)
Lemma free_list_is_a_stack_witness :
  let p := after false [Remove 1 OUTSIDE Macro.NULL_INT false one] (ready 2) in
  View.free_list p = [1]
  /\ (forall ParID Marker lv AveDens vol p' d',
        RemoveOneParticle false indet_long p ParID Marker lv AveDens vol = Done (p', d') ->
        View.free_list p' = View.free_list p ++ [ParID])
  /\ (forall NewVar NewPassive lv AveDens vol p' d',
        AddOneParticle false NPAR_PASSIVE indet_real p NewVar NewPassive lv AveDens vol
        = Done (p', d') ->
        exists id p0,
          AddOneParticle_target false indet_real p = Done (id, p0)
          /\ (View.free_list p = View.free_list p' ++ [id]
              \/ View.free_list p = [] /\ View.free_list p' = []
                 /\ id = NPar_AcPlusInac p)).
Proof.
  intros p. split; [vm_compute; reflexivity|].
  apply (free_list_is_a_stack false STORE_PAR_ACC NPAR_PASSIVE NLEVEL indet_real indet_long p).
  sample_wf.
Defined.


(** X8 on an addition that resizes the buffers of the pool of two
    particles. *)
Lemma Add_frame_witness :
  let p := ready 2 in
  exists p' d',
    AddOneParticle false NPAR_PASSIVE indet_real p (new 3) (Some tracer) 1 (Some zero) one
    = Done (p', d')
    /\ ParListSize p' = 4
    /\ exists id p0,
         AddOneParticle_target false indet_real p = Done (id, p0)
         /\ 0 <= id < NPar_AcPlusInac p'
         /\ (forall v i, i <> id -> i < ParListSize p ->
               cell (ParVar p') v i = cell (ParVar p) v i
               /\ cell (Passive p') v i = cell (Passive p) v i)
         /\ (forall v, (v < NPAR_VAR STORE_PAR_ACC)%nat ->
               is_Some (default [] (new 3) !! v)
               /\ cell (ParVar p') v id = default [] (new 3) !! v)
         /\ (forall v, (v < NPAR_PASSIVE)%nat ->
               is_Some (default [] (Some tracer) !! v)
               /\ cell (Passive p') v id = default [] (Some tracer) !! v)
         /\ (InactiveParListSize p' = InactiveParListSize p
             /\ InactiveParList p' = InactiveParList p
             /\ NPar_Active_AllRank p' = NPar_Active_AllRank p
             /\ Init p' = Init p /\ Interp p' = Interp p /\ Integ p' = Integ p
             /\ SyncDump p' = SyncDump p /\ ImproveAcc p' = ImproveAcc p
             /\ PredictPos p' = PredictPos p /\ RemoveCell p' = RemoveCell p
             /\ GhostSize p' = GhostSize p)
         /\ NPar_Active p' = NPar_Active p + 1
         /\ (forall l, l <> 1 -> load (NPar_Lv p') l = load (NPar_Lv p) l)
         /\ (exists count, load (NPar_Lv p) 1 = Some count
                           /\ load (NPar_Lv p') 1 = Some (count + 1)).
Proof.
  intros p. eexists _, _. split; [vm_compute; reflexivity|].
  split; [reflexivity|].
  eapply (Add_frame false STORE_PAR_ACC NPAR_PASSIVE NLEVEL indet_real p _
           (new 3) (Some tracer) 1 (Some zero) _ one).
  - sample_wf.
  - vm_compute. reflexivity.
Defined.


(** X9 on the pool of two particles, one slot of which was added by a
    resize and never used: without [DEBUG_PARTICLE] its removal with a
    positive marker returns, with [DEBUG_PARTICLE] it is an error, and the
    removal of the slot 7 is undefined. *)
Lemma Remove_outcome_witness :
  let p := after false [Add (new 3) (Some tracer) 1 true one] (ready 1) in
  let checks (debug : bool) (ParID : Z) (Marker : Float.real) :=
    debug = true -> 0 <= ParID < NPar_AcPlusInac p /\ marker Marker in
  let storage (ParID : Z) :=
    0 <= ParID < ParListSize p /\ (1 = Macro.NULL_INT \/ level NLEVEL 1)
    /\ may_remove p in
  (((exists p' d', RemoveOneParticle false indet_long p 2 five 1 None one = Done (p', d'))
    <-> checks false 2 five /\ storage 2)
   /\ ((exists e, RemoveOneParticle false indet_long p 2 five 1 None one = Abort e)
       <-> ~ checks false 2 five)
   /\ (RemoveOneParticle false indet_long p 2 five 1 None one = Undef
       <-> checks false 2 five /\ ~ storage 2))
  /\ finished (RemoveOneParticle false indet_long p 2 five 1 None one) = true
  /\ RemoveOneParticle true indet_long p 2 five 1 None one = Abort Wrong_ParID
  /\ RemoveOneParticle false indet_long p 7 OUTSIDE 1 None one = Undef.
Proof.
  intros p checks storage. split.
  - apply (Remove_outcome false STORE_PAR_ACC NPAR_PASSIVE NLEVEL indet_long
             p 2 five 1 None one).
    sample_wf.
  - vm_compute. repeat split.
Defined.


(** X10 on the pool of two particles: data with a value too few. *)
Lemma Add_outcome_witness :
  let p := ready 2 in
  let short := Some [dbl 3 0; zero; zero; zero; zero; zero; zero] in
  let checks (debug : bool) :=
    debug = true ->
    short <> None /\ ((0 < NPAR_PASSIVE)%nat -> Some tracer <> None)
    /\ Some zero <> None in
  let storage :=
    (NPAR_VAR STORE_PAR_ACC <= length (default [] short))%nat
    /\ (NPAR_PASSIVE <= length (default [] (Some tracer)))%nat
    /\ Some zero <> None /\ level NLEVEL 1 /\ may_add p in
  (((exists p' d', AddOneParticle true NPAR_PASSIVE indet_real p short (Some tracer) 1
                     (Some zero) one = Done (p', d'))
    <-> storage)
   /\ ((exists e, AddOneParticle true NPAR_PASSIVE indet_real p short (Some tracer) 1
                    (Some zero) one = Abort e)
       <-> ~ checks true)
   /\ (~ checks true ->
       AddOneParticle true NPAR_PASSIVE indet_real p short (Some tracer) 1 (Some zero) one
       = Abort (if decide (short = None) then NewVar_NULL
                else if decide ((0 < NPAR_PASSIVE)%nat /\ Some tracer = None)
                     then NewPassive_NULL else AveDens_NULL))
   /\ (AddOneParticle true NPAR_PASSIVE indet_real p short (Some tracer) 1 (Some zero) one
       = Undef
       <-> checks true /\ ~ storage)
   /\ (storage -> checks true))
  /\ AddOneParticle true NPAR_PASSIVE indet_real p short (Some tracer) 1 (Some zero) one
     = Undef
  /\ AddOneParticle true NPAR_PASSIVE indet_real p (new 3) None 1 (Some zero) one
     = Abort NewPassive_NULL.
Proof.
  intros p short checks storage. split.
  - apply (Add_outcome true STORE_PAR_ACC NPAR_PASSIVE NLEVEL indet_real
             p short (Some tracer) 1 (Some zero) one).
    sample_wf.
  - vm_compute. repeat split.
Defined.


(** X11 on the object the constructor leaves, with [Interp] set to a value
    that is no scheme. *)
Lemma InitVar_outcome_witness :
  let p0 := set_Interp (PAR_INTERP_OTHER 7)
              (set_NPar_AcPlusInac 2
                 (Particle_t_new STORE_PAR_ACC NPAR_PASSIVE NLEVEL indet_long)) in
  InitVar indet_real indet_long p0 = Abort Unsupported_Interp.
Proof.
  intros p0.
  apply (InitVar_outcome indet_real indet_long p0).
  - vm_compute. discriminate.
  - discriminate.
  - intros [H|[H|H]]; discriminate H.
Defined.




(** X13 for two slots. *)
Lemma first_calls_after_InitVar_witness :
  (NPar_AcPlusInac (fresh 2) < Resize.limit ->
   exists p' d',
     AddOneParticle true NPAR_PASSIVE indet_real (ready 2)
       (Some (particle 3)) (Some tracer) 1 (Some zero) one = Done (p', d')
     /\ Resize.grow (NPar_AcPlusInac (fresh 2)) = Some (ParListSize p')
     /\ slot p' (NPar_AcPlusInac (fresh 2)) = Some (particle 3, tracer)
     /\ NPar_AcPlusInac p' = NPar_AcPlusInac (fresh 2) + 1)
  /\ (Resize.limit <= NPar_AcPlusInac (fresh 2) ->
      AddOneParticle true NPAR_PASSIVE indet_real (ready 2)
        (Some (particle 3)) (Some tracer) 1 (Some zero) one = Undef)
  /\ (forall ParID Marker lvR AveDens volR p' d',
        RemoveOneParticle true indet_long (ready 2) ParID Marker lvR AveDens volR
        = Done (p', d') ->
        InactiveParListSize p' = InactiveParListSize (ready 2)
        /\ InactiveParListSize (ready 2)
           = Macro.MAX 1 (NPar_AcPlusInac (fresh 2) `quot` 100)).
Proof.
  apply (first_calls_after_InitVar true STORE_PAR_ACC NPAR_PASSIVE NLEVEL
           indet_real indet_long (fresh 2) (ready 2) (particle 3) tracer 1 zero one).
  - reflexivity.
  - reflexivity.
  - reflexivity.
  - vm_compute. reflexivity.
  - evaluated.
  - evaluated.
Defined.


(** X14 on a removal outside the buffers. *)
Lemma unchecked_run_never_aborts_witness :
  run_fast [Remove 7 OUTSIDE 1 true one] (ready 2, zero) <> Abort Wrong_ParID.
Proof.
  apply (unchecked_run_never_aborts NPAR_PASSIVE indet_real indet_long
           [Remove 7 OUTSIDE 1 true one] (ready 2, zero) Wrong_ParID).
Defined.


(** X15 on a run of three calls. *)
Lemma checked_run_is_unchecked_run_witness :
  exists s',
    run_debug [Add (new 3) (Some tracer) 1 true one; Remove 0 OUTSIDE 1 true one;
               Add (new 4) (Some tracer) 2 true one] (ready 0, zero) = Done s'
    /\ run_fast [Add (new 3) (Some tracer) 1 true one; Remove 0 OUTSIDE 1 true one;
                 Add (new 4) (Some tracer) 2 true one] (ready 0, zero) = Done s'.
Proof.
  eexists. split; [vm_compute; reflexivity|].
  apply (checked_run_is_unchecked_run NPAR_PASSIVE indet_real indet_long
           [Add (new 3) (Some tracer) 1 true one; Remove 0 OUTSIDE 1 true one;
            Add (new 4) (Some tracer) 2 true one] (ready 0, zero)).
  vm_compute. reflexivity.
Defined.

(** X18 on the pool of one particle, in the checked build: removed as
    lying outside, then removed again with the accumulator 5 and the
    factor 1/2, which leaves 5.5 in the accumulator. *)
Lemma second_removal_reads_marker_as_mass_witness :
  let p := after true [Add (new 3) (Some tracer) 1 true one] (ready 0) in
  exists p1 d1 p2,
    RemoveOneParticle true indet_long p 0 OUTSIDE 1 None one = Done (p1, d1)
    /\ RemoveOneParticle true indet_long p1 0 MPI Macro.NULL_INT (Some five) half
       = Done (p2, Some (Float.sub five (Float.mul OUTSIDE half)))
    /\ Float.sub five (Float.mul OUTSIDE half) = dbl 11 (-1).
Proof.
  intros p.
  cut (exists p1 d1 p2,
          RemoveOneParticle true indet_long p 0 OUTSIDE 1 None one = Done (p1, d1)
          /\ RemoveOneParticle true indet_long p1 0 MPI Macro.NULL_INT (Some five) half
             = Done (p2, Some (Float.sub five (Float.mul OUTSIDE half)))).
  { intros (p1 & d1 & p2 & H1 & H2). exists p1, d1, p2.
    split; [exact H1|]. split; [exact H2|]. vm_compute. reflexivity. }
  apply (second_removal_reads_marker_as_mass true STORE_PAR_ACC NPAR_PASSIVE NLEVEL
           indet_long p 0 OUTSIDE MPI 1 Macro.NULL_INT None five one half).
  - sample_wf.
  - evaluated.
  - evaluated.
  - evaluated.
  - evaluated.
  - evaluated.
  - evaluated.
Defined.

End PoolFacts.

(** ** The flags and the index macro of the configuration header *)

Module ConfigFacts.
Import Config.

Lemma disjoint_spec (flags : list Z) :
  disjoint flags = true ->
  forall i j f g, flags !! i = Some f -> flags !! j = Some g -> i <> j -> Z.land f g = 0.
Proof.
  induction flags as [|a l IH]; intros H i j f g Hi Hj Hne; [discriminate Hi|].
  simpl in H. apply andb_prop in H as [Ha Hl].
  assert (Hall : forall g', In g' l -> Z.land a g' = 0).
  { intros g' Hg. apply Z.eqb_eq. exact (proj1 (forallb_forall _ _) Ha g' Hg). }
  destruct i as [|i], j as [|j]; simpl in Hi, Hj.
  - congruence.
  - injection Hi as <-. apply Hall. apply list_elem_of_In.
    eapply list_elem_of_lookup_2, Hj.
  - injection Hj as <-. rewrite Z.land_comm. apply Hall. apply list_elem_of_In.
    eapply list_elem_of_lookup_2, Hi.
  - eapply IH; eauto.
Qed.

(** The configurations with at most 20 passive scalars, one by one. *)
Ltac each_config :=
  lazymatch goal with
  | |- Forall _ (_ :: _) => constructor; [|each_config]
  | |- Forall _ [] => constructor
  end.

(** X16.  The flags of a build do not collide.  With a number of passive
    scalars that is not negative and [NCOMP_TOTAL + 7 <= 30], every shift
    of the header is a defined [int] shift, [_FLUID] and [_PASSIVE] are
    the two parts of [_TOTAL], in HYDRO [_FLUID] is the five flags of the
    main variables, and the masks [_FLUID], [_PASSIVE], [_POTE],
    [_DERIVED], [_PAR_DENS] and [_TOTAL_DENS] share no bit. *)
Theorem flags_do_not_collide (MODEL : Model) (DUAL_ENERGY : bool)
    (NCOMP_PASSIVE_MAKEFILE : Z) :
  let passive := NCOMP_PASSIVE MODEL DUAL_ENERGY NCOMP_PASSIVE_MAKEFILE in
  let total := NCOMP_TOTAL MODEL DUAL_ENERGY NCOMP_PASSIVE_MAKEFILE in
  let fluid := _FLUID MODEL in
  let passives := _PASSIVE MODEL DUAL_ENERGY NCOMP_PASSIVE_MAKEFILE in
  let all := _TOTAL MODEL DUAL_ENERGY NCOMP_PASSIVE_MAKEFILE in
  let pote := _POTE MODEL DUAL_ENERGY NCOMP_PASSIVE_MAKEFILE in
  let derived := _DERIVED MODEL DUAL_ENERGY NCOMP_PASSIVE_MAKEFILE in
  let par := _PAR_DENS MODEL DUAL_ENERGY NCOMP_PASSIVE_MAKEFILE in
  let dens := _TOTAL_DENS MODEL DUAL_ENERGY NCOMP_PASSIVE_MAKEFILE in
  0 <= passive -> total + 7 <= 30 ->
  Forall (fun f => 0 <= f <= Macro.INT_MAX)
         ([fluid; passives; all; pote; par; dens] ++ option_list derived)
  /\ Z.land fluid passives = 0 /\ Z.lor fluid passives = all
  /\ (MODEL = HYDRO ->
      Z.lor (Z.lor (Z.lor (Z.lor _DENS _MOMX) _MOMY) _MOMZ) _ENGY = fluid)
  /\ disjoint ([fluid; passives; pote; par; dens] ++ option_list derived) = true.
Proof.
  intros passive total fluid passives all pote derived par dens H0 H1.
  subst passive total fluid passives all pote derived par dens.
  assert (Hn : NCOMP_PASSIVE MODEL DUAL_ENERGY NCOMP_PASSIVE_MAKEFILE
               ∈ seqZ 0 21).
  { apply elem_of_seqZ. unfold NCOMP_TOTAL, NCOMP_FLUID in H1. destruct MODEL; lia. }
  revert H0 H1.
  unfold _PASSIVE, _TOTAL, _POTE, _DERIVED, _PAR_DENS, _TOTAL_DENS, _VELX, _VELY,
    _VELZ, _PRES, _TEMP, NCOMP_TOTAL.
  generalize dependent (NCOMP_PASSIVE MODEL DUAL_ENERGY NCOMP_PASSIVE_MAKEFILE).
  intros n Hn. pattern n. revert n Hn. apply Forall_forall.
  let l := eval vm_compute in (seqZ 0 21) in change (seqZ 0 21) with l.
  each_config; intros H0 H1;
    (destruct MODEL; unfold NCOMP_FLUID in H1; try lia;
     (split; [apply (proj1 (bool_decide_eq_true _)); vm_compute; reflexivity|]);
     vm_compute; repeat split; intros;
     try discriminate; try reflexivity; try congruence).
Qed.

Lemma flags_do_not_collide_witness :
  disjoint ([_FLUID HYDRO; _PASSIVE HYDRO true 2; _POTE HYDRO true 2;
             _PAR_DENS HYDRO true 2; _TOTAL_DENS HYDRO true 2]
            ++ option_list (_DERIVED HYDRO true 2)) = true.
Proof.
  destruct (flags_do_not_collide HYDRO true 2) as (_ & _ & _ & _ & H).
  - vm_compute. discriminate.
  - vm_compute. discriminate.
  - exact H.
Defined.

Lemma int_Some (x : Z) :
  Macro.INT_MIN <= x <= Macro.INT_MAX -> int x = Some x.
Proof.
  intros H. unfold int.
  rewrite (proj2 (andb_true_iff _ _)); [reflexivity|].
  split; apply Z.leb_le; lia.
Qed.

Lemma int_inv (x n : Z) : int x = Some n -> n = x.
Proof.
  unfold int. destruct (_ && _); [|discriminate]. intros [= <-]. reflexivity.
Qed.

Lemma IDX321_inv (i j k Ni Nj n : Z) :
  IDX321 i j k Ni Nj = Some n -> n = (k * Nj + j) * Ni + i.
Proof.
  unfold IDX321. intros H.
  destruct (int (k * Nj)) as [a|] eqn:Ea; [|discriminate]. simpl in H.
  destruct (int (a + j)) as [b|] eqn:Eb; [|discriminate]. simpl in H.
  destruct (int (b * Ni)) as [c|] eqn:Ec; [|discriminate]. simpl in H.
  apply int_inv in Ea, Eb, Ec, H. subst. reflexivity.
Qed.

Lemma IDX321_inside (Ni Nj Nk i j k : Z) :
  0 <= i < Ni -> 0 <= j < Nj -> 0 <= k < Nk -> Ni * Nj * Nk <= Macro.INT_MAX ->
  IDX321 i j k Ni Nj = Some ((k * Nj + j) * Ni + i)
  /\ 0 <= (k * Nj + j) * Ni + i < Ni * Nj * Nk.
Proof.
  intros Hi Hj Hk Hfit.
  assert (HkNj : 0 <= k * Nj <= k * Nj + j) by nia.
  assert (Hrow : 0 <= k * Nj + j < Nj * Nk) by nia.
  assert (Hrows : (k * Nj + j) * Ni <= (Nj * Nk - 1) * Ni)
    by (apply Z.mul_le_mono_nonneg_r; lia).
  assert (Hrows0 : 0 <= (k * Nj + j) * Ni) by (apply Z.mul_nonneg_nonneg; lia).
  assert (Hn : (k * Nj + j) * Ni + i < Ni * Nj * Nk) by nia.
  assert (Hcells : Nj * Nk <= Ni * Nj * Nk) by nia.
  unfold Macro.INT_MAX in Hfit.
  split; [|lia]. unfold IDX321.
  rewrite (int_Some (k * Nj)) by (unfold Macro.INT_MIN, Macro.INT_MAX; lia). simpl.
  rewrite (int_Some (k * Nj + j)) by (unfold Macro.INT_MIN, Macro.INT_MAX; lia). simpl.
  rewrite (int_Some ((k * Nj + j) * Ni)) by (unfold Macro.INT_MIN, Macro.INT_MAX; lia).
  simpl. apply int_Some. unfold Macro.INT_MIN, Macro.INT_MAX. lia.
Qed.

(** The macro overflows beyond the range of [int]: the third plane of an
    array with planes of 65536 x 32768 cells. *)
Example IDX321_overflow : IDX321 0 0 2 65536 32768 = None.
Proof. vm_compute. reflexivity. Qed.

(** X17.  [IDX321] is the row-major index with [i] running fastest.  For
    indices inside an array of [Ni*Nj*Nk] cells whose number fits [int], no
    [int] operation of the macro overflows and the index is inside the
    array; the three indices are recovered from it by division, so two
    cells never share an index; a step in [i], [j] or [k] that stays in the
    array moves it by 1, [Ni] or [Ni*Nj]. *)
Theorem IDX321_row_major (Ni Nj Nk i j k : Z) :
  0 <= i < Ni -> 0 <= j < Nj -> 0 <= k < Nk -> Ni * Nj * Nk <= Macro.INT_MAX ->
  exists n,
    IDX321 i j k Ni Nj = Some n
    /\ n = (k * Nj + j) * Ni + i
    /\ 0 <= n < Ni * Nj * Nk
    /\ n mod Ni = i /\ (n / Ni) mod Nj = j /\ n / Ni / Nj = k
    /\ (forall i' j' k', 0 <= i' < Ni -> 0 <= j' < Nj ->
          IDX321 i' j' k' Ni Nj = Some n -> i' = i /\ j' = j /\ k' = k)
    /\ (i + 1 < Ni -> IDX321 (i + 1) j k Ni Nj = Some (n + 1))
    /\ (j + 1 < Nj -> IDX321 i (j + 1) k Ni Nj = Some (n + Ni))
    /\ (k + 1 < Nk -> IDX321 i j (k + 1) Ni Nj = Some (n + Ni * Nj)).
Proof.
  intros Hi Hj Hk Hfit.
  assert (Hinv : forall i' j' k', 0 <= i' < Ni -> 0 <= j' < Nj ->
            ((k' * Nj + j') * Ni + i') mod Ni = i'
            /\ ((k' * Nj + j') * Ni + i') / Ni = k' * Nj + j'
            /\ (k' * Nj + j') mod Nj = j' /\ (k' * Nj + j') / Nj = k').
  { intros i' j' k' Hi' Hj'.
    split; [symmetry; apply (Z.mod_unique_pos _ _ (k' * Nj + j')); [lia|ring]|].
    split; [symmetry; apply (Z.div_unique_pos _ _ _ i'); [lia|ring]|].
    split; [symmetry; apply (Z.mod_unique_pos _ _ k'); [lia|ring]|].
    symmetry; apply (Z.div_unique_pos _ _ _ j'); [lia|ring]. }
  destruct (IDX321_inside Ni Nj Nk i j k Hi Hj Hk Hfit) as [Hdef Hn].
  destruct (Hinv i j k Hi Hj) as (H1 & H2 & H3 & H4).
  exists ((k * Nj + j) * Ni + i).
  split; [exact Hdef|]. split; [reflexivity|]. split; [exact Hn|].
  split; [exact H1|]. split; [rewrite H2; exact H3|]. split; [rewrite H2; exact H4|].
  split.
  { intros i' j' k' Hi' Hj' E. apply IDX321_inv in E.
    destruct (Hinv i' j' k' Hi' Hj') as (G1 & G2 & G3 & G4).
    rewrite <- E in G1, G2. rewrite H1 in G1. rewrite H2 in G2.
    rewrite <- G2 in G3, G4. rewrite H3 in G3. rewrite H4 in G4. auto. }
  split; [|split].
  - intros Hs.
    destruct (IDX321_inside Ni Nj Nk (i + 1) j k ltac:(lia) Hj Hk Hfit) as [-> _].
    f_equal. ring.
  - intros Hs.
    destruct (IDX321_inside Ni Nj Nk i (j + 1) k Hi ltac:(lia) Hk Hfit) as [-> _].
    f_equal. ring.
  - intros Hs.
    destruct (IDX321_inside Ni Nj Nk i j (k + 1) Hi Hj ltac:(lia) Hfit) as [-> _].
    f_equal. ring.
Qed.

Lemma IDX321_row_major_witness :
  exists n,
    IDX321 3 5 6 8 8 = Some n
    /\ n = (6 * 8 + 5) * 8 + 3
    /\ 0 <= n < 8 * 8 * 8
    /\ n mod 8 = 3 /\ (n / 8) mod 8 = 5 /\ n / 8 / 8 = 6
    /\ (forall i' j' k', 0 <= i' < 8 -> 0 <= j' < 8 ->
          IDX321 i' j' k' 8 8 = Some n -> i' = 3 /\ j' = 5 /\ k' = 6)
    /\ (3 + 1 < 8 -> IDX321 (3 + 1) 5 6 8 8 = Some (n + 1))
    /\ (5 + 1 < 8 -> IDX321 3 (5 + 1) 6 8 8 = Some (n + 8))
    /\ (6 + 1 < 8 -> IDX321 3 5 (6 + 1) 8 8 = Some (n + 8 * 8)).
Proof. apply (IDX321_row_major 8 8 8 3 5 6); unfold Macro.INT_MAX; lia. Defined.

End ConfigFacts.
